(** * GDd.py: a multi-layer softmax classifier trained with an Adam-like rule

    A shallow embedding of [src/GDd.py].

    - A float64 scalar is a real number of the Standard Library: the
      arithmetic is exact, so rounding, overflow and NaN are outside the
      model.  Where Python raises on a division ([ZeroDivisionError] on
      plain Python numbers) the model raises too; a numpy division never
      raises, and on a zero divisor its [inf] or [nan] is outside the model
      as well.
    - The one place where the range of float64 decides what the program
      returns on finite input is the softmax head, whose exponentials round
      to 0 far below the largest entry.  Its activations have a second
      embedding, [softmax_f64], over [f64]: real numbers and the special
      values [inf] and [nan], with [np.exp] rounding to 0 and to [inf] at
      the two ends of the range.  The statements about the values of the
      activations hold where the two embeddings agree, and say so.
    - A two-dimensional [numpy.ndarray] is the list of its rows (what
      [tolist()] returns).  An array without rows is [[]], whatever its
      second dimension.
    - A Python dictionary with computed string keys (["W" + str(l)]) is a
      [gmap string ndarray]; [str] on a natural number is [pretty].
    - An exception is a value of [exn]; code that may raise lives in the
      [result] monad. *)

From Stdlib Require Import Reals Lra Lia ZArith.
From stdpp Require Import base list gmap strings pretty.

Set Default Proof Using "Type".

(** * The program *)

(** ** Exceptions and the result monad *)

Inductive exn : Type :=
  | KeyError (k : string)
  | IndexError
  | ValueError (msg : string)
  | ZeroDivisionError
  | TypeError
  | NameError (name : string)
  | UnboundLocalError (name : string).

Inductive result (A : Type) : Type :=
  | Ok (a : A)
  | Raise (e : exn).
Arguments Ok {A} a.
Arguments Raise {A} e.

#[global] Instance result_ret : MRet result := @Ok.
#[global] Instance result_bind : MBind result := λ A B f m,
  match m with
  | Ok a => f a
  | Raise e => Raise e
  end.

(** [for x in xs: body] over a loop state. *)
Fixpoint for_in {A S : Type} (xs : list A) (body : A → S → result S) (s : S)
  : result S :=
  match xs with
  | [] => Ok s
  | x :: xs' => s' ← body x s; for_in xs' body s'
  end.

(** [range(n)] and [range(a, b)]. *)
Definition range (n : nat) : list nat := seq 0 n.
Definition range2 (a b : nat) : list nat := seq a (b - a).

(** ** numpy arrays *)

Abbreviation ndarray := (list (list R)).

Definition shape0 {A} (M : list (list A)) : nat := length M.
Definition shape1 {A} (M : list (list A)) : nat :=
  match M with
  | [] => 0
  | row :: _ => length row
  end.
Definition np_shape {A} (M : list (list A)) : nat * nat := (shape0 M, shape1 M).

(** [M[i, j]] for indices in range. *)
Definition entry (M : ndarray) (i j : nat) : R := nth j (nth i M []) 0%R.

(** The array with [r] rows and [c] columns whose entry [(i, j)] is
    [f i j]. *)
Definition tabulate {A} (r c : nat) (f : nat → nat → A) : list (list A) :=
  (λ i, (λ j, f i j) <$> seq 0 c) <$> seq 0 r.

(** A rectangular array of [r] rows and [c] columns. *)
Definition has_shape {A} (r c : nat) (M : list (list A)) : Prop :=
  length M = r ∧ Forall (λ row, length row = c) M.

Definition np_zeros (r c : nat) : ndarray := replicate r (replicate c 0%R).
Definition np_zeros_like (M : ndarray) : ndarray := (λ row : list R, (λ _, 0%R) <$> row) <$> M.

(** Elementwise application of a scalar function ([np.exp], [np.log],
    [np.sqrt], [c * M], [M / c], ...). *)
Definition np_map (f : R → R) (M : ndarray) : ndarray := (λ row : list R, f <$> row) <$> M.

(** [M.T] *)
Definition np_T (M : ndarray) : ndarray :=
  tabulate (shape1 M) (shape0 M) (λ i j, entry M j i).

(** Broadcasting of two dimensions: equal, or one of them is 1. *)
Definition broadcast_dim (a b : nat) : option nat :=
  if decide (a = b) then Some a
  else if decide (a = 1) then Some b
  else if decide (b = 1) then Some a
  else None.

(** The entry of [M] that broadcasting pairs with position [(i, j)]. *)
Definition broadcast_entry (M : ndarray) (i j : nat) : R :=
  entry M (if decide (shape0 M = 1) then 0 else i)
          (if decide (shape1 M = 1) then 0 else j).

Definition broadcast_msg : string := "operands could not be broadcast together".

(** An elementwise binary operation on two arrays ([A + B], [A - B],
    [A * B], [A / B]) under numpy's broadcasting rule. *)
Definition broadcast2 (f : R → R → R) (A B : ndarray) : result ndarray :=
  match broadcast_dim (shape0 A) (shape0 B), broadcast_dim (shape1 A) (shape1 B) with
  | Some r, Some c =>
      Ok (tabulate r c (λ i j, f (broadcast_entry A i j) (broadcast_entry B i j)))
  | _, _ => Raise (ValueError broadcast_msg)
  end.

Definition Rsum (l : list R) : R := foldr Rplus 0%R l.

(** [np.sum(M)], [np.sum(M, axis=0, keepdims=True)],
    [np.sum(M, axis=1, keepdims=True)]. *)
Definition np_sum (M : ndarray) : R := Rsum (Rsum <$> M).
Definition np_sum_axis0 (M : ndarray) : ndarray :=
  [ (λ j, Rsum ((λ row : list R, nth j row 0%R) <$> M)) <$> seq 0 (shape1 M) ].
Definition np_sum_axis1 (M : ndarray) : ndarray := (λ row : list R, [Rsum row]) <$> M.

Definition dot_msg : string := "shapes not aligned".

(** [np.dot(A, B)] on two-dimensional arrays. *)
Definition np_dot (A B : ndarray) : result ndarray :=
  if decide (shape1 A = shape0 B) then
    Ok ((λ row : list R, (λ j, Rsum (zip_with Rmult row ((λ brow : list R, nth j brow 0%R) <$> B)))
                  <$> seq 0 (shape1 B)) <$> A)
  else Raise (ValueError dot_msg).

Definition max_msg : string := "zero-size array to reduction operation maximum which has no identity".

(** [np.max(M)] *)
Definition np_max (M : ndarray) : result R :=
  match concat M with
  | [] => Raise (ValueError max_msg)
  | x :: xs => Ok (foldl Rmax x xs)
  end.

(** [M < c], a boolean array. *)
Definition np_less (M : ndarray) (c : R) : list (list bool) :=
  (λ row : list R, (λ z, if Rlt_dec z c then true else false) <$> row) <$> M.

(** [M[mask] = v] for a boolean [mask] with as many dimensions as [M].
    numpy compares the length of every axis of the mask with that of the
    array, except for an axis of the mask of length 0, which it does not
    check; a mask that passes with another shape than [M] has no entries
    and selects nothing. *)
Definition setitem_mask (M : ndarray) (mask : list (list bool)) (v : R)
  : result ndarray :=
  if decide (np_shape M = np_shape mask) then
    Ok (zip_with (zip_with (λ x (b : bool), if b then v else x)) M mask)
  else if decide ((shape0 mask = 0 ∨ shape0 mask = shape0 M) ∧
                  (shape1 mask = 0 ∨ shape1 mask = shape1 M)) then Ok M
  else Raise IndexError.

(** ** Activation functions *)

Record act_cache : Type := { cache_Z : ndarray }.

Definition relu (Z : ndarray) : ndarray * act_cache :=
  let A := np_map (Rmax 0) Z in
  (A, {| cache_Z := Z |}).

Definition relu_der (dA : ndarray) (cache : act_cache) : result ndarray :=
  let dZ := dA in
  let Z := cache_Z cache in
  setitem_mask dZ (np_less Z 0) 0%R.

Definition linear (Z : ndarray) : ndarray * act_cache :=
  let A := Z in
  (A, {| cache_Z := Z |}).

Definition linear_der (dA : ndarray) (cache : act_cache) : ndarray :=
  let dZ := dA in
  dZ.

(** ** One-hot encoding *)

(** An index [v] into an axis of size [n]: a negative index counts from the
    end, anything outside [[-n, n)] raises [IndexError]. *)
Definition normalize_index (v : Z) (n : nat) : result nat :=
  if decide (0 ≤ v < Z.of_nat n)%Z then Ok (Z.to_nat v)
  else if decide (- Z.of_nat n ≤ v < 0)%Z then Ok (Z.to_nat (v + Z.of_nat n))
  else Raise IndexError.

Fixpoint normalize_indices (vs : list Z) (n : nat) : result (list nat) :=
  match vs with
  | [] => Ok []
  | v :: vs' => j ← normalize_index v n; js ← normalize_indices vs' n; Ok (j :: js)
  end.

(** [M[i, j] = x] at one position in range. *)
Definition setitem (x : R) (M : ndarray) (ij : nat * nat) : ndarray :=
  alter (λ row, <[ij.2 := x]> row) ij.1 M.

(** [M[rows, cols] = x] for two index arrays of one length: the indices are
    checked, then the positions are written one after the other. *)
Definition setitem_index (M : ndarray) (rows : list nat) (cols : list Z) (x : R)
  : result ndarray :=
  js ← normalize_indices cols (shape1 M);
  Ok (foldl (setitem x) M (zip rows js)).

(** The label array [Y] is two-dimensional (shape [(1, m)] in this program);
    [flatten] is [concat].  Both callers pass a list
    ([Y.astype(int).tolist()]), which [np.array] turns into an array again:
    of integers when the list holds a label, of float64 when it holds none,
    and an array of float64 is refused as an index ([IndexError]). *)
Definition one_hot (Y : list (list Z)) (num_classes : nat) : result ndarray :=
  let Y := concat Y in
  let Y_one_hot := np_zeros (length Y) num_classes in
  if decide (Y = []) then Raise IndexError
  else setitem_index Y_one_hot (range (length Y)) Y 1%R.

(** ** The softmax and cross-entropy head *)

Abbreviation label_array := (list (list Z)).

Record softmax_cache : Type := { cache_A : ndarray }.

(** [Y] holds the labels after [astype(int)]; the default [np.array([])] is
    [[]].  [np.max(Z)] is written twice in the source and evaluates to the
    same number; a loss of [None] is the source's [loss = []]. *)
Definition softmax_cross_entropy_loss (Z : ndarray) (num_classes : nat) (Y : label_array)
  : result (ndarray * softmax_cache * option R) :=
  let Y_L := Y in
  mx ← np_max Z;
  let E := np_map (λ z, exp (z - mx)) Z in
  A ← broadcast2 Rdiv E (np_sum_axis0 E);
  let cache := {| cache_A := A |} in
  if decide (shape0 Y = 0) then Ok (A, cache, None)
  else
    one_hot_Y ← one_hot Y_L num_classes;
    let Y_sm := np_T one_hot_Y in
    P ← broadcast2 Rmult Y_sm (np_map (λ a, ln (a + 1e-9)) A);
    let loss := (- np_sum P / INR (shape1 A))%R in
    Ok (A, cache, Some loss).

Definition softmax_cross_entropy_loss_der (Y : label_array) (num_classes : nat)
  (cache : softmax_cache) : result ndarray :=
  let Y_L := Y in
  one_hot_Y ← one_hot Y_L num_classes;
  let Y_smd := np_T one_hot_Y in
  let A := cache_A cache in
  broadcast2 Rminus A Y_smd.

(** ** The activations of the head within the range of float64 *)

(** A float64: a real number or one of the special values.  Zeros are not
    signed and finite arithmetic is exact. *)
Inductive f64 : Type := Fin (x : R) | PInf | NInf | NaN.

(** Half the least positive float64, at and below which a result rounds to
    0, and the number half way between the largest float64 and [2^1024],
    from which on a result rounds to [inf]. *)
Definition f64_tiny : R := (/ 2 ^ 1075)%R.
Definition f64_huge : R := (2 ^ 1024 - 2 ^ 970)%R.

(** [np.exp] of a finite number *)
Definition exp_f64 (x : R) : f64 :=
  if Rle_dec (exp x) f64_tiny then Fin 0
  else if Rle_dec f64_huge (exp x) then PInf
  else Fin (exp x).

Definition fadd (a b : f64) : f64 :=
  match a, b with
  | NaN, _ | _, NaN => NaN
  | PInf, NInf | NInf, PInf => NaN
  | PInf, _ | _, PInf => PInf
  | NInf, _ | _, NInf => NInf
  | Fin x, Fin y => Fin (x + y)
  end.

(** A numpy division does not raise: [0/0] and [inf/inf] are [nan], any
    other division by 0 is infinite. *)
Definition fdiv (a b : f64) : f64 :=
  match a, b with
  | NaN, _ | _, NaN => NaN
  | Fin x, Fin y =>
      if Req_dec_T y 0 then
        if Req_dec_T x 0 then NaN else if Rlt_dec 0 x then PInf else NInf
      else Fin (x / y)
  | Fin _, (PInf | NInf) => Fin 0
  | PInf, Fin y => if Rlt_dec y 0 then NInf else PInf
  | NInf, Fin y => if Rlt_dec y 0 then PInf else NInf
  | (PInf | NInf), (PInf | NInf) => NaN
  end.

(** [np.sum] of a list of float64 *)
Definition fsum (l : list f64) : f64 := foldr fadd (Fin 0) l.

(** Line 96, [A = np.exp(Z - np.max(Z)) / np.sum(np.exp(Z - np.max(Z)),
    axis=0, keepdims=True)], on an array [Z] of finite numbers: every row
    of the exponentials is divided, entry by entry, by the row of the
    column sums. *)
Definition softmax_f64 (Z : ndarray) : result (list (list f64)) :=
  mx ← np_max Z;
  let E := (λ row : list R, (λ z, exp_f64 (z - mx)) <$> row) <$> Z in
  let S := (λ j, fsum ((λ row : list f64, nth j row (Fin 0)) <$> E)) <$> seq 0 (shape1 Z) in
  Ok ((λ row : list f64, zip_with fdiv row S) <$> E).

(** A real array as an array of finite float64 *)
Definition to_f64 (M : ndarray) : list (list f64) := (λ row : list R, Fin <$> row) <$> M.

(** ** The linear layer *)

Record lin_cache : Type := { lin_A : ndarray }.

Definition linear_forward (A W b : ndarray) : result (ndarray * lin_cache) :=
  WA ← np_dot W A;
  Z ← broadcast2 Rplus WA b;
  let cache := {| lin_A := A |} in
  Ok (Z, cache).

(** [A.shape[1]] is a Python integer: dividing an array by it never
    raises. *)
Definition linear_backward (dZ : ndarray) (cache : lin_cache) (W b : ndarray)
  : result (ndarray * ndarray * ndarray) :=
  let A := lin_A cache in
  dA_prev ← np_dot (np_T W) dZ;
  dZA ← np_dot dZ (np_T A);
  let dW := np_map (λ x, x / INR (shape1 A))%R dZA in
  let db := np_map (λ x, x / INR (shape1 A))%R (np_sum_axis1 dZ) in
  Ok (dA_prev, dW, db).

(** ** The network: parameters, forward and backward passes *)

Abbreviation dict := (gmap string ndarray).

(** [d[k]] *)
Definition getitem (d : dict) (k : string) : result ndarray :=
  match d !! k with
  | Some v => Ok v
  | None => Raise (KeyError k)
  end.

(** [prefix + str(l)] *)
Definition key (prefix : string) (l : nat) : string := prefix +:+ pretty l.

Record cache : Type := { lin_cache_of : lin_cache; act_cache_of : act_cache }.

(** The source leaves [act_cache] unbound for any other activation name. *)
Definition layer_forward (A_prev W b : ndarray) (activation : string)
  : result (ndarray * cache) :=
  '(Z, lin_cache) ← linear_forward A_prev W b;
  '(A, act_cache) ←
    (if decide (activation = "relu") then Ok (relu Z)
     else if decide (activation = "linear") then Ok (linear Z)
     else Raise (UnboundLocalError "act_cache"));
  Ok (A, {| lin_cache_of := lin_cache; act_cache_of := act_cache |}).

Definition multi_layer_forward (X : ndarray) (parameters : dict)
  : result (ndarray * list cache) :=
  let L := size parameters / 2 in
  let A := X in
  let caches := [] in
  '(A, caches) ← for_in (range2 1 L) (λ l '(A, caches),
    W ← getitem parameters (key "W" l);
    b ← getitem parameters (key "b" l);
    '(A, cache) ← layer_forward A W b "relu";
    Ok (A, caches ++ [cache])) (A, caches);
  W ← getitem parameters (key "W" L);
  b ← getitem parameters (key "b" L);
  '(AL, cache) ← layer_forward A W b "linear";
  Ok (AL, caches ++ [cache]).

(** [sigmoid_der] and [tanh_der] are not defined anywhere in the source. *)
Definition layer_backward (dA : ndarray) (cache : cache) (W b : ndarray)
  (activation : string) : result (ndarray * ndarray * ndarray) :=
  let lin_cache := lin_cache_of cache in
  let act_cache := act_cache_of cache in
  dZ ←
    (if decide (activation = "sigmoid") then Raise (NameError "sigmoid_der")
     else if decide (activation = "tanh") then Raise (NameError "tanh_der")
     else if decide (activation = "relu") then relu_der dA act_cache
     else if decide (activation = "linear") then Ok (linear_der dA act_cache)
     else Raise (UnboundLocalError "dZ"));
  linear_backward dZ lin_cache W b.

Definition multi_layer_backward (dAL : ndarray) (caches : list cache) (parameters : dict)
  : result dict :=
  let L := length caches in
  let gradients : dict := ∅ in
  let dA := dAL in
  let activation := "linear" in
  '(dA, gradients, activation) ←
    for_in (reverse (range2 1 (L + 1))) (λ l '(dA, gradients, activation),
      cache ← (match caches !! (l - 1) with
               | Some c => Ok c
               | None => Raise IndexError
               end);
      W ← getitem parameters (key "W" l);
      b ← getitem parameters (key "b" l);
      '(dA, dW, db) ← layer_backward dA cache W b activation;
      let gradients := <[key "dW" l := dW]> gradients in
      let gradients := <[key "db" l := db]> gradients in
      let activation := "relu" in
      Ok (dA, gradients, activation)) (dA, gradients, activation);
  Ok gradients.

(** ** The moment accumulators and the update rule *)

(** One iteration of the loop of [initialize_velocity]. *)
Definition initialize_velocity_body (parameters : dict) (i : nat) (st : dict * dict)
  : result (dict * dict) :=
  let '(velocity, svelocity) := st in
  W ← getitem parameters (key "W" (i + 1));
  let velocity := <[key "dW" (i + 1) := np_zeros_like W]> velocity in
  b ← getitem parameters (key "b" (i + 1));
  let velocity := <[key "db" (i + 1) := np_zeros_like b]> velocity in
  W ← getitem parameters (key "W" (i + 1));
  let svelocity := <[key "dW" (i + 1) := np_zeros_like W]> svelocity in
  b ← getitem parameters (key "b" (i + 1));
  let svelocity := <[key "db" (i + 1) := np_zeros_like b]> svelocity in
  Ok (velocity, svelocity).

Definition initialize_velocity (parameters : dict) : result (dict * dict) :=
  let Length := size parameters / 2 in
  let velocity : dict := ∅ in
  let svelocity : dict := ∅ in
  for_in (range Length) (initialize_velocity_body parameters) (velocity, svelocity).

#[global] Instance R_eq_dec : EqDecision R := Req_dec_T.

(** [beta2 * m + (1 - beta2) * g] on two arrays. *)
Definition decay_average (beta2 : R) (m g : ndarray) : result ndarray :=
  broadcast2 Rplus (np_map (Rmult beta2) m) (np_map (Rmult (1 - beta2)) g).

(** [p - learning_rate * vc / np.sqrt(sc + epsilon)] on three arrays. *)
Definition descent_step (learning_rate epsilon : R) (p vc sc : ndarray) : result ndarray :=
  q ← broadcast2 Rdiv (np_map (Rmult learning_rate) vc) (np_map (λ x, sqrt (x + epsilon)) sc);
  broadcast2 Rminus p q.

(** One iteration of the loop over the layers, lines 361 to 374 in their
    order.  [vel_cor] and [svel_cor] are dictionaries local to the call,
    written and read at one key within the iteration: they are the local
    values [vel_cor_dW], [vel_cor_db], [svel_cor_dW], [svel_cor_db]. *)
Definition update_layer (gradients : dict) (t : nat)
  (beta1 beta2 epsilon learning_rate : R) (i : nat) (st : dict * dict * dict)
  : result (dict * dict * dict) :=
  let '(parameters, velocity, svelocity) := st in
  v ← getitem velocity (key "dW" (i + 1));
  g ← getitem gradients (key "dW" (i + 1));
  v ← decay_average beta2 v g;
  let velocity := <[key "dW" (i + 1) := v]> velocity in
  v ← getitem velocity (key "db" (i + 1));
  g ← getitem gradients (key "db" (i + 1));
  v ← decay_average beta2 v g;
  let velocity := <[key "db" (i + 1) := v]> velocity in
  v ← getitem velocity (key "dW" (i + 1));
  let vel_cor_dW := np_map (λ x, x / (1 - beta1 ^ t))%R v in
  v ← getitem velocity (key "db" (i + 1));
  let vel_cor_db := np_map (λ x, x / (1 - beta1 ^ t))%R v in
  s ← getitem svelocity (key "dW" (i + 1));
  g ← getitem gradients (key "dW" (i + 1));
  s ← decay_average beta2 s (np_map (λ x, x ^ 2)%R g);
  let svelocity := <[key "dW" (i + 1) := s]> svelocity in
  s ← getitem svelocity (key "db" (i + 1));
  g ← getitem gradients (key "db" (i + 1));
  s ← decay_average beta2 s (np_map (λ x, x ^ 2)%R g);
  let svelocity := <[key "db" (i + 1) := s]> svelocity in
  s ← getitem svelocity (key "dW" (i + 1));
  let svel_cor_dW := np_map (λ x, x / (1 - beta2 ^ t))%R s in
  s ← getitem svelocity (key "db" (i + 1));
  let svel_cor_db := np_map (λ x, x / (1 - beta2 ^ t))%R s in
  p ← getitem parameters (key "W" (i + 1));
  p ← descent_step learning_rate epsilon p vel_cor_dW svel_cor_dW;
  let parameters := <[key "W" (i + 1) := p]> parameters in
  p ← getitem parameters (key "b" (i + 1));
  p ← descent_step learning_rate epsilon p vel_cor_db svel_cor_db;
  let parameters := <[key "b" (i + 1) := p]> parameters in
  Ok (parameters, velocity, svelocity).

(** [learning_rate], [decay_rate] and [epoch] are plain Python numbers:
    [1 / (1 + decay_rate * epoch)] raises on a zero divisor.  The three
    dictionaries are updated in place and returned. *)
Definition update_parameters_velocity (parameters gradients : dict) (epoch : nat)
  (velocity svelocity : dict) (t : nat)
  (beta1 beta2 epsilon learning_rate decay_rate : R)
  : result (dict * R * dict * dict) :=
  if decide (1 + decay_rate * INR epoch = 0)%R then Raise ZeroDivisionError
  else
    let alpha := (learning_rate * (1 / (1 + decay_rate * INR epoch)))%R in
    let L := size parameters / 2 in
    '(parameters, velocity, svelocity) ←
      for_in (range L) (update_layer gradients t beta1 beta2 epsilon learning_rate)
        (parameters, velocity, svelocity);
    Ok (parameters, alpha, velocity, svelocity).

(** ** The training loop *)

Definition split_msg : string := "array split does not result in an equal division".

(** [np.split(M, sections, axis=1)] for an integer [sections]: the columns
    in [sections] equal contiguous pieces; [N % sections] raises on zero. *)
Definition np_split {A} (M : list (list A)) (sections : nat)
  : result (list (list (list A))) :=
  let N := shape1 M in
  if decide (sections = 0) then Raise ZeroDivisionError
  else if decide (N mod sections ≠ 0) then Raise (ValueError split_msg)
  else
    let w := N / sections in
    Ok ((λ k, (λ row : list A, take w (drop (k * w) row)) <$> M) <$> range sections).

(** The variables of [multi_layer_network] that the loops update.  [st_v] and
    [st_sv] are the dictionaries [v] and [sv], which the update rule changes
    in place; [st_cost] is [None] while [cost] is unbound. *)
Record train_state : Type := {
  st_parameters : dict;
  st_v : dict;
  st_sv : dict;
  st_t : nat;
  st_alpha : R;
  st_cost : option (option R)
}.

Section training.
(** [np.random]: a generator state, [seed] and [normal(loc, scale, size)],
    which returns the sample and the next state. *)
Variable rng_state : Type.
Variable np_random_seed : nat → rng_state.
Variable np_random_normal : rng_state → R → R → nat * nat → ndarray * rng_state.

(** One iteration of the loop of [initialize_multilayer_weights];
    [2.0 / net_dims[l]] divides Python numbers and raises on zero. *)
Definition initialize_layer (net_dims : list nat) (l : nat) (st : dict * rng_state)
  : result (dict * rng_state) :=
  let '(parameters, s) := st in
  if decide (nth l net_dims 0 = 0) then Raise ZeroDivisionError
  else
    let '(W, s) := np_random_normal s 0 (sqrt (2 / INR (nth l net_dims 0)))
                     (nth (l + 1) net_dims 0, nth l net_dims 0) in
    let parameters := <[key "W" (l + 1) := W]> parameters in
    let '(b, s) := np_random_normal s 0 (sqrt (2 / INR (nth l net_dims 0)))
                     (nth (l + 1) net_dims 0, 1) in
    let parameters := <[key "b" (l + 1) := b]> parameters in
    Ok (parameters, s).

Definition initialize_multilayer_weights (net_dims : list nat) : result dict :=
  let s := np_random_seed 0 in
  let numLayers := length net_dims in
  let parameters : dict := ∅ in
  '(parameters, _) ←
    for_in (range (numLayers - 1)) (initialize_layer net_dims) (parameters, s);
  Ok parameters.

Section loop.
Variables (X_batch_size : list ndarray) (Y_batch_size : list label_array).
Variables (B0 : ndarray) (validation_label : label_array).
Variables (learning_rate decay_rate : R).

(** The constants [multi_layer_network] binds before its loops. *)
Definition num_classes : nat := 10.
Definition beta1 : R := 0.9%R.
Definition beta2 : R := 0.999%R.
Definition epsilon : R := 1e-8%R.

(** The body of [for jj in range(batch_length)]. *)
Definition batch_step (ii jj : nat) (st : train_state) : result train_state :=
  Xjj ← (match X_batch_size !! jj with Some x => Ok x | None => Raise IndexError end);
  '(Z, caches) ← multi_layer_forward Xjj (st_parameters st);
  Yjj ← (match Y_batch_size !! jj with Some y => Ok y | None => Raise IndexError end);
  '(A, cache_cross, cost) ← softmax_cross_entropy_loss Z num_classes Yjj;
  dZ ← softmax_cross_entropy_loss_der Yjj num_classes cache_cross;
  gradients ← multi_layer_backward dZ caches (st_parameters st);
  let t := st_t st + 1 in
  '(parameters, alpha, velocity, svelocity) ←
    update_parameters_velocity (st_parameters st) gradients ii (st_v st) (st_sv st) t
      beta1 beta2 epsilon learning_rate decay_rate;
  Ok {| st_parameters := parameters; st_v := velocity; st_sv := svelocity;
        st_t := t; st_alpha := alpha; st_cost := Some cost |}.

(** The body of [for ii in range(num_iterations)].  The two [print]
    calls format [cost] and [vcost] with [%.05f], which raises on the
    empty-list loss; what they write is not modelled. *)
Definition epoch_step (ii : nat)
  (s : train_state * list (option R) * list (option R))
  : result (train_state * list (option R) * list (option R)) :=
  let '(st, costs, vcosts) := s in
  let batch_length := length X_batch_size in
  st ← for_in (range batch_length) (batch_step ii) st;
  cost ← (match st_cost st with
          | Some c => Ok c
          | None => Raise (UnboundLocalError "cost")
          end);
  let costs := costs ++ [cost] in
  '(VZ, vcaches) ← multi_layer_forward B0 (st_parameters st);
  '(B, vcache_cross, vcost) ← softmax_cross_entropy_loss VZ num_classes validation_label;
  let vcosts := vcosts ++ [vcost] in
  _ ← (if decide (ii mod 10 = 0) then
         match cost, vcost with
         | Some _, Some _ => Ok ()
         | _, _ => Raise TypeError
         end
       else Ok ());
  Ok (st, costs, vcosts).
End loop.

Definition multi_layer_network (X : ndarray) (Y : label_array)
  (validation_data : ndarray) (validation_label : label_array)
  (net_dims : list nat) (num_iterations : nat) (learning_rate decay_rate : R)
  (batch_size : nat) : result (list (option R) * dict * list (option R)) :=
  parameters ← initialize_multilayer_weights net_dims;
  let A0 := X in
  let B0 := validation_data in
  let alpha := learning_rate in
  let costs := [] in
  let vcosts := [] in
  let t := 0 in
  '(v, sv) ← initialize_velocity parameters;
  X_batch_size ← np_split X batch_size;
  Y_batch_size ← np_split Y batch_size;
  '(st, costs, vcosts) ←
    for_in (range num_iterations)
      (epoch_step X_batch_size Y_batch_size B0 validation_label learning_rate decay_rate)
      ({| st_parameters := parameters; st_v := v; st_sv := sv; st_t := t;
          st_alpha := alpha; st_cost := None |}, costs, vcosts);
  Ok (costs, st_parameters st, vcosts).
End training.

(** ** Classification *)

Definition argmax_msg : string := "attempt to get argmax of an empty sequence".

(** The index of the first maximum of a list, scanning from the left:
    [best_i] and [best] are the index and the value of the maximum so far,
    [i] is the index of the head of [l]. *)
Fixpoint argmax_from (best_i : nat) (best : R) (i : nat) (l : list R) : nat :=
  match l with
  | [] => best_i
  | x :: l' =>
      if Rlt_dec best x then argmax_from i x (S i) l'
      else argmax_from best_i best (S i) l'
  end.

Definition argmax_list (l : list R) : nat :=
  match l with
  | [] => 0
  | x :: l' => argmax_from 0 x 1 l'
  end.

(** [np.argmax(M, axis=0)]: for every column the row of its first maximum. *)
Definition np_argmax_axis0 (M : ndarray) : result (list nat) :=
  if decide (shape0 M = 0) then Raise (ValueError argmax_msg)
  else Ok ((λ j, argmax_list ((λ row : list R, nth j row 0%R) <$> M)) <$> seq 0 (shape1 M)).

(** [np.reshape(YPred, (1, YPred.shape[0]))] is the one-row array
    [[YPred]]. *)
Definition classify (X : ndarray) (parameters : dict) : result (list (list nat)) :=
  let num_classes := 10 in
  '(A, _) ← multi_layer_forward X parameters;
  '(A, _, _) ← softmax_cross_entropy_loss A num_classes [];
  YPred ← np_argmax_axis0 A;
  Ok [YPred].

(** * Definitions of the specification side *)

(** ** Sums and indices *)

(** [sum over k < n of f k], the sums of the specification side. *)
Fixpoint big_sum (n : nat) (f : nat → R) : R :=
  match n with
  | 0 => 0%R
  | S n' => (big_sum n' f + f n')%R
  end.

(** The column a label selects when it is in [[-n, n)]. *)
Definition wrapped (v : Z) (n : nat) : nat :=
  if decide (v < 0)%Z then Z.to_nat (v + Z.of_nat n) else Z.to_nat v.

(** ** The per-column softmax of the specification *)

Definition column (M : ndarray) (j : nat) : list R := (λ row : list R, nth j row 0%R) <$> M.

Definition max_list (l : list R) : R :=
  match l with
  | [] => 0%R
  | x :: xs => foldl Rmax x xs
  end.

(** [A[:,j] = exp(Z[:,j] - max_col) / sum(exp(Z[:,j] - max_col))], with
    [max_col] the maximum of column [j]. *)
Definition spec_softmax (Z : ndarray) (i j : nat) : R :=
  let max_col := max_list (column Z j) in
  (exp (entry Z i j - max_col) / Rsum ((λ z, exp (z - max_col)) <$> column Z j))%R.


(** No two entries of [Z] are further than [d] apart. *)
Definition spread_le (d : R) (Z : ndarray) : Prop :=
  ∀ x y, x ∈ concat Z → y ∈ concat Z → (x - y <= d)%R.

(** ** The update rule of the specification, on one entry *)

Definition spec_update_rule (beta1 beta2 epsilon learning_rate : R) (t : nat)
  (param velocity sq_velocity gradient : R) : R * R * R :=
  let velocity := (beta2 * velocity + (1 - beta2) * gradient)%R in
  let velocity_corr := (velocity / (1 - beta1 ^ t))%R in
  let sq_velocity := (beta2 * sq_velocity + (1 - beta2) * gradient ^ 2)%R in
  let sq_velocity_corr := (sq_velocity / (1 - beta2 ^ t))%R in
  let param := (param - learning_rate * velocity_corr / sqrt (sq_velocity_corr + epsilon))%R in
  (param, velocity, sq_velocity).

(** ** Slots and layers of the parameter store *)

Section update_rule_predicates.
Variables (beta1 beta2 epsilon learning_rate : R) (t : nat) (G : dict).

(** A parameter array at key [kp] with its gradient and its two
    accumulators at key [kg], all of one shape. *)
Definition slot_ok (P V S : dict) (kp kg : string) : Prop :=
  ∃ p g v s r c,
    P !! kp = Some p ∧ G !! kg = Some g ∧ V !! kg = Some v ∧ S !! kg = Some s ∧
    has_shape r c p ∧ has_shape r c g ∧ has_shape r c v ∧ has_shape r c s.

(** The arrays at [kp] and [kg] after the call are, entry by entry, what
    the specification's rule makes of the arrays before the call. *)
Definition slot_updated (P V S P' V' S' : dict) (kp kg : string) : Prop :=
  ∃ p g v s p' v' s' r c,
    P !! kp = Some p ∧ G !! kg = Some g ∧ V !! kg = Some v ∧ S !! kg = Some s ∧
    P' !! kp = Some p' ∧ V' !! kg = Some v' ∧ S' !! kg = Some s' ∧
    has_shape r c p ∧ has_shape r c p' ∧ has_shape r c v' ∧ has_shape r c s' ∧
    ∀ i j, i < r → j < c →
      (entry p' i j, entry v' i j, entry s' i j)
      = spec_update_rule beta1 beta2 epsilon learning_rate t
          (entry p i j) (entry v i j) (entry s i j) (entry g i j).

Definition layer_ok (P V S : dict) (l : nat) : Prop :=
  slot_ok P V S (key "W" l) (key "dW" l) ∧ slot_ok P V S (key "b" l) (key "db" l).

Definition layer_updated (P V S P' V' S' : dict) (l : nat) : Prop :=
  slot_updated P V S P' V' S' (key "W" l) (key "dW" l) ∧
  slot_updated P V S P' V' S' (key "b" l) (key "db" l).

(** The keys of layer [l] are left alone. *)
Definition layer_untouched (P V S P' V' S' : dict) (l : nat) : Prop :=
  P' !! key "W" l = P !! key "W" l ∧ P' !! key "b" l = P !! key "b" l ∧
  V' !! key "dW" l = V !! key "dW" l ∧ V' !! key "db" l = V !! key "db" l ∧
  S' !! key "dW" l = S !! key "dW" l ∧ S' !! key "db" l = S !! key "db" l.

Definition others_untouched (ls : list nat) (P V S P' V' S' : dict) : Prop :=
  (∀ k, (∀ l, l ∈ ls → k ≠ key "W" l ∧ k ≠ key "b" l) → P' !! k = P !! k) ∧
  (∀ k, (∀ l, l ∈ ls → k ≠ key "dW" l ∧ k ≠ key "db" l) →
        V' !! k = V !! k ∧ S' !! k = S !! k).

End update_rule_predicates.

(** A parameter array at [kp] whose gradient at [kg] is the zero array of
    its shape. *)
Definition zero_gradient (P G : dict) (kp kg : string) : Prop :=
  ∃ p r c, P !! kp = Some p ∧ has_shape r c p ∧ G !! kg = Some (np_zeros_like p).

(** The accumulators at [kg] are the zero array of the shape of the
    parameter at [kp]. *)
Definition zero_moments (P V S : dict) (kp kg : string) : Prop :=
  ∀ p, P !! kp = Some p →
    V !! kg = Some (np_zeros_like p) ∧ S !! kg = Some (np_zeros_like p).

(** ** The trace of one epoch *)

Section epoch_trace_def.
Variables (X_batch_size : list ndarray) (Y_batch_size : list label_array).
Variables (B0 : ndarray) (validation_label : label_array).
Variables (learning_rate decay_rate : R).

(** What epoch [ii] does between the state [st] it starts from and the
    state [st'] it leaves: all batches but the last, then the last batch,
    whose loss is [cost]; then a forward pass and a loss, [vcost], on the
    validation set with the parameters of [st']. *)
Definition epoch_trace (ii : nat) (st st' : train_state) (cost vcost : option R) : Prop :=
  ∃ st_last X_last Y_last Z_last caches A cache_cross VZ vcaches B vcache_cross,
    for_in (range (length X_batch_size - 1))
      (batch_step X_batch_size Y_batch_size learning_rate decay_rate ii) st = Ok st_last ∧
    X_batch_size !! (length X_batch_size - 1) = Some X_last ∧
    Y_batch_size !! (length X_batch_size - 1) = Some Y_last ∧
    multi_layer_forward X_last (st_parameters st_last) = Ok (Z_last, caches) ∧
    softmax_cross_entropy_loss Z_last num_classes Y_last = Ok (A, cache_cross, cost) ∧
    batch_step X_batch_size Y_batch_size learning_rate decay_rate ii
      (length X_batch_size - 1) st_last = Ok st' ∧
    multi_layer_forward B0 (st_parameters st') = Ok (VZ, vcaches) ∧
    softmax_cross_entropy_loss VZ num_classes validation_label
      = Ok (B, vcache_cross, vcost).

End epoch_trace_def.

(** [k] is a key of one of the layers [1..n]. *)
Definition layer_keys (n : nat) (k : string) : Prop :=
  ∃ l, 1 ≤ l ≤ n ∧ (k = key "W" l ∨ k = key "b" l).

(** ** Well-shaped networks, data and states *)

Definition dim (dims : list nat) (l : nat) : nat := nth l dims 0.
Definition num_layers (dims : list nat) : nat := length dims - 1.

(** The arrays of layer [l] at the keys [kW] and [kb] of a dictionary have
    the shapes of the weights and of the bias of that layer. *)
Definition layer_shapes (dims : list nat) (D : dict) (kW kb : string) (l : nat) : Prop :=
  ∃ W b, D !! key kW l = Some W ∧ D !! key kb l = Some b ∧
    has_shape (dim dims l) (dim dims (l - 1)) W ∧ has_shape (dim dims l) 1 b.

Definition wf_parameters (dims : list nat) (P : dict) : Prop :=
  size P / 2 = num_layers dims ∧
  ∀ l, 1 ≤ l ≤ num_layers dims → layer_shapes dims P "W" "b" l.

Definition wf_gradients (dims : list nat) (G : dict) : Prop :=
  ∀ l, 1 ≤ l ≤ num_layers dims → layer_shapes dims G "dW" "db" l.

Definition wf_caches (dims : list nat) (m : nat) (caches : list cache) : Prop :=
  length caches = num_layers dims ∧
  ∀ l c, caches !! l = Some c →
    has_shape (dim dims l) m (lin_A (lin_cache_of c)) ∧
    has_shape (dim dims (l + 1)) m (cache_Z (act_cache_of c)).

(** A block of [m >= 1] samples of the right height with one valid label per
    sample. *)
Definition wf_data (dims : list nat) (m : nat) (X : ndarray) (Y : label_array) : Prop :=
  ∃ ys, Y = [ys] ∧ has_shape (dim dims 0) m X ∧ length ys = m ∧ 0 < m ∧
    Forall (λ v, (0 ≤ v < Z.of_nat num_classes)%Z) ys.

Definition wf_state (dims : list nat) (st : train_state) : Prop :=
  wf_parameters dims (st_parameters st) ∧
  wf_gradients dims (st_v st) ∧ wf_gradients dims (st_sv st).

(** ** Example data *)

(** A one-layer parameter store, a gradient for it and zero accumulators. *)
Definition demo_parameters : dict := <["b1" := [[3]]%R]> (<["W1" := [[1; 2]]%R]> ∅).
Definition demo_gradients : dict := <["db1" := [[6]]%R]> (<["dW1" := [[4; 5]]%R]> ∅).
Definition demo_zeros : dict := <["db1" := [[0]]%R]> (<["dW1" := [[0; 0]]%R]> ∅).

(** ** The network as a chain of layers *)

(** [Z = W.A + b], entry by entry, for [W] with [p] columns. *)
Definition affine_entry (p : nat) (W A b : ndarray) (i j : nat) : R :=
  (big_sum p (λ k, entry W i k * entry A k j) + entry b i 0)%R.

(** The input of layer [l + 1]: the data for the first layer, and for any
    other layer the rectified pre-activation cached by the layer before. *)
Definition layer_input (X : ndarray) (caches : list cache) (l : nat) : ndarray :=
  match l with
  | 0 => X
  | S l' => match caches !! l' with
            | Some c => (relu (cache_Z (act_cache_of c))).1
            | None => []
            end
  end.

(** What the cache of layer [l + 1] holds: the input of the layer and the
    pre-activation [W.A + b] computed from it with the layer's parameters. *)
Definition cache_ok (dims : list nat) (P : dict) (X : ndarray) (m : nat)
  (caches : list cache) (l : nat) (c : cache) : Prop :=
  lin_A (lin_cache_of c) = layer_input X caches l ∧
  has_shape (dim dims l) m (lin_A (lin_cache_of c)) ∧
  has_shape (dim dims (l + 1)) m (cache_Z (act_cache_of c)) ∧
  ∃ W b, P !! key "W" (l + 1) = Some W ∧ P !! key "b" (l + 1) = Some b ∧
    ∀ i j, i < dim dims (l + 1) → j < m →
      entry (cache_Z (act_cache_of c)) i j
      = affine_entry (dim dims l) W (lin_A (lin_cache_of c)) b i j.

(** A one-layer network with ten outputs, all parameters zero. *)
Definition zero_parameters : dict :=
  <["b1" := np_zeros 10 1]> (<["W1" := np_zeros 10 2]> ∅).

(** Zero accumulators for that network, and a training state that starts
    from them. *)
Definition zero_accumulators : dict :=
  <["db1" := np_zeros 10 1]> (<["dW1" := np_zeros 10 2]> ∅).

Definition zero_state : train_state :=
  {| st_parameters := zero_parameters; st_v := zero_accumulators;
     st_sv := zero_accumulators; st_t := 0; st_alpha := 0.01; st_cost := None |}.

(** ** The size of a step *)

(** The array at key [k] has moved, in every entry, by at most [bound] and
    not in the direction of the gradient at key [kg]. *)
Definition step_within (bound : R) (G P P' : dict) (k kg : string) : Prop :=
  ∃ p p' g r c,
    P !! k = Some p ∧ P' !! k = Some p' ∧ G !! kg = Some g ∧
    has_shape r c p ∧ has_shape r c p' ∧
    ∀ i j, i < r → j < c →
      (Rabs (entry p' i j - entry p i j) <= bound)%R ∧
      ((entry p' i j - entry p i j) * entry g i j <= 0)%R.

(** * Properties *)

(** ** Lemmas on arrays *)

Section array_lemmas.
Context {A : Type}.
Implicit Types M : list (list A).

Lemma has_shape_shape0 r c M : has_shape r c M → shape0 M = r.
Proof. by intros [? _]. Qed.

Lemma has_shape_shape1 r c M : has_shape r c M → 0 < r → shape1 M = c.
Proof.
  intros [Hr Hc] Hpos. destruct M as [|row M]; simpl in *; [lia|].
  by inversion Hc.
Qed.

Lemma has_shape_row r c M i row :
  has_shape r c M → M !! i = Some row → length row = c.
Proof. intros [_ Hc] Hi. by eapply (Forall_lookup_1 _ _ _ _ Hc). Qed.

Lemma tabulate_has_shape r c (f : nat → nat → A) : has_shape r c (tabulate r c f).
Proof.
  split.
  - unfold tabulate. by rewrite length_fmap, length_seq.
  - unfold tabulate. apply Forall_fmap, Forall_forall. intros i _. simpl.
    by rewrite length_fmap, length_seq.
Qed.

Lemma tabulate_lookup r c (f : nat → nat → A) i j :
  i < r → j < c → (tabulate r c f !! i) ≫= (.!! j) = Some (f i j).
Proof.
  intros Hi Hj. unfold tabulate.
  rewrite list_lookup_fmap, lookup_seq_lt by done. simpl.
  by rewrite list_lookup_fmap, lookup_seq_lt.
Qed.
End array_lemmas.

Lemma has_shape_np_shape {A B} r c (M : list (list A)) (N : list (list B)) :
  has_shape r c M → has_shape r c N → np_shape M = np_shape N.
Proof.
  intros HM HN. unfold np_shape.
  rewrite (has_shape_shape0 _ _ _ HM), (has_shape_shape0 _ _ _ HN).
  destruct (decide (r = 0)) as [->|].
  - destruct HM as [HM _], HN as [HN _].
    by destruct M, N.
  - rewrite (has_shape_shape1 _ _ _ HM), (has_shape_shape1 _ _ _ HN) by lia.
    done.
Qed.

Lemma entry_lookup (M : ndarray) i j x :
  (M !! i) ≫= (.!! j) = Some x → entry M i j = x.
Proof.
  unfold entry. destruct (M !! i) as [row|] eqn:Hi; simpl; [|done].
  intros Hj. rewrite (nth_lookup_Some _ _ _ _ Hi). by apply nth_lookup_Some.
Qed.

Lemma entry_tabulate r c f i j : i < r → j < c → entry (tabulate r c f) i j = f i j.
Proof. intros. by apply entry_lookup, tabulate_lookup. Qed.

Lemma entry_zip_with2 {B} (f : R → B → R) (M : ndarray) (N : list (list B)) r c i j b :
  has_shape r c M → has_shape r c N → i < r → j < c →
  (N !! i) ≫= (.!! j) = Some b →
  entry (zip_with (zip_with f) M N) i j = f (entry M i j) b.
Proof.
  intros HM HN Hi Hj Hb.
  destruct (N !! i) as [nrow|] eqn:HNi; simpl in Hb; [|done].
  destruct (lookup_lt_is_Some_2 M i) as [mrow HMi]; [destruct HM; lia|].
  pose proof (has_shape_row _ _ _ _ _ HM HMi) as Hlen.
  destruct (lookup_lt_is_Some_2 mrow j) as [x Hx]; [lia|].
  rewrite (entry_lookup M i j x) by (by rewrite HMi).
  apply entry_lookup. rewrite lookup_zip_with, HMi, HNi. simpl.
  by rewrite lookup_zip_with, Hx, Hb.
Qed.

Lemma zip_with2_has_shape {B C} (f : R → B → C) (M : ndarray) (N : list (list B)) r c :
  has_shape r c M → has_shape r c N → has_shape r c (zip_with (zip_with f) M N).
Proof.
  intros [HMr HMc] [HNr HNc]. split.
  - rewrite length_zip_with. lia.
  - apply Forall_forall. intros row Hrow.
    apply list_elem_of_lookup in Hrow as [i Hi].
    rewrite lookup_zip_with in Hi.
    destruct (M !! i) as [mrow|] eqn:HMi; simpl in Hi; [|done].
    destruct (N !! i) as [nrow|] eqn:HNi; simpl in Hi; [|done].
    injection Hi as <-. rewrite length_zip_with.
    rewrite (Forall_lookup_1 _ _ _ _ HMc HMi), (Forall_lookup_1 _ _ _ _ HNc HNi). lia.
Qed.

Lemma np_less_has_shape r c (Z : ndarray) x : has_shape r c Z → has_shape r c (np_less Z x).
Proof.
  intros [Hr Hc]. split.
  - unfold np_less. by rewrite length_fmap.
  - unfold np_less. apply Forall_fmap. eapply Forall_impl; [done|].
    intros row Hrow. simpl. by rewrite length_fmap.
Qed.

Lemma np_less_lookup r c (Z : ndarray) x i j :
  has_shape r c Z → i < r → j < c →
  (np_less Z x !! i) ≫= (.!! j) = Some (if Rlt_dec (entry Z i j) x then true else false).
Proof.
  intros HZ Hi Hj.
  destruct (lookup_lt_is_Some_2 Z i) as [row Hrow]; [destruct HZ; lia|].
  pose proof (has_shape_row _ _ _ _ _ HZ Hrow) as Hlen.
  destruct (lookup_lt_is_Some_2 row j) as [z Hz]; [lia|].
  rewrite (entry_lookup Z i j z) by (by rewrite Hrow).
  unfold np_less. rewrite list_lookup_fmap, Hrow. simpl.
  by rewrite list_lookup_fmap, Hz.
Qed.

(** ** The ReLU derivative *)

(** C7. For an upstream gradient [dA] and a cached pre-activation [Z] of the
    same shape, [relu_der] returns an array [dZ] of that shape whose entry is
    0 exactly at the positions where [Z] is negative and the entry of [dA]
    everywhere else; in particular where [Z] is exactly zero the value of
    [dA] passes through. *)
Theorem relu_der_spec (dA Z : ndarray) (r c : nat) :
  has_shape r c dA → has_shape r c Z →
  ∃ dZ, relu_der dA {| cache_Z := Z |} = Ok dZ ∧ has_shape r c dZ ∧
    ∀ i j, i < r → j < c →
      ((entry Z i j < 0)%R → entry dZ i j = 0%R) ∧
      (¬ (entry Z i j < 0)%R → entry dZ i j = entry dA i j) ∧
      (entry Z i j = 0%R → entry dZ i j = entry dA i j).
Proof.
  intros HdA HZ. unfold relu_der, setitem_mask. simpl.
  pose proof (np_less_has_shape r c Z 0%R HZ) as Hmask.
  rewrite decide_True by (by eapply has_shape_np_shape).
  eexists. split; [done|]. split; [by apply zip_with2_has_shape|].
  intros i j Hi Hj.
  rewrite (entry_zip_with2 _ dA (np_less Z 0) r c i j _ HdA Hmask Hi Hj
             (np_less_lookup r c Z 0%R i j HZ Hi Hj)).
  destruct (Rlt_dec (entry Z i j) 0) as [Hneg|Hnneg].
  - split; [done|]. split; [done|]. intros H0. rewrite H0 in Hneg. lra.
  - split; [done|]. by split.
Qed.

Lemma relu_der_spec_witness :
  ∃ dZ, relu_der [[5; 7]; [2; 3]]%R {| cache_Z := [[-1; 0]; [4; -2]]%R |} = Ok dZ ∧
    has_shape 2 2 dZ ∧
    ∀ i j, i < 2 → j < 2 →
      ((entry [[-1; 0]; [4; -2]]%R i j < 0)%R → entry dZ i j = 0%R) ∧
      (¬ (entry [[-1; 0]; [4; -2]]%R i j < 0)%R → entry dZ i j = entry [[5; 7]; [2; 3]]%R i j) ∧
      (entry [[-1; 0]; [4; -2]]%R i j = 0%R → entry dZ i j = entry [[5; 7]; [2; 3]]%R i j).
Proof.
  apply (relu_der_spec [[5; 7]; [2; 3]]%R [[-1; 0]; [4; -2]]%R 2 2).
  - split; [reflexivity|]. repeat constructor.
  - split; [reflexivity|]. repeat constructor.
Defined.

(** ** One-hot encoding *)

Lemma lookup_entry (M : ndarray) r c i j :
  has_shape r c M → i < r → j < c → (M !! i) ≫= (.!! j) = Some (entry M i j).
Proof.
  intros HM Hi Hj.
  destruct (lookup_lt_is_Some_2 M i) as [row Hrow]; [destruct HM; lia|].
  pose proof (has_shape_row _ _ _ _ _ HM Hrow) as Hlen.
  destruct (lookup_lt_is_Some_2 row j) as [x Hx]; [lia|].
  rewrite Hrow. simpl. rewrite Hx. f_equal. symmetry.
  apply entry_lookup. by rewrite Hrow.
Qed.

Lemma np_zeros_has_shape r c : has_shape r c (np_zeros r c).
Proof.
  split; [apply length_replicate|].
  apply Forall_replicate, length_replicate.
Qed.

Lemma entry_np_zeros r c i j : i < r → j < c → entry (np_zeros r c) i j = 0%R.
Proof.
  intros Hi Hj. apply entry_lookup. unfold np_zeros.
  rewrite lookup_replicate_2 by done. simpl. by rewrite lookup_replicate_2.
Qed.

Lemma setitem_has_shape x (M : ndarray) r c ij : has_shape r c M → has_shape r c (setitem x M ij).
Proof.
  intros [Hr Hc]. split.
  - unfold setitem. by rewrite length_alter.
  - unfold setitem. apply Forall_alter; [done|].
    intros row Hrow. by rewrite length_insert.
Qed.

Lemma entry_setitem x (M : ndarray) r c i j a b :
  has_shape r c M → i < r → j < c → a < r → b < c →
  entry (setitem x M (i, j)) a b = if decide ((a, b) = (i, j)) then x else entry M a b.
Proof.
  intros HM Hi Hj Ha Hb. apply entry_lookup. unfold setitem. simpl.
  destruct (lookup_lt_is_Some_2 M a) as [row Hrow]; [destruct HM; lia|].
  pose proof (has_shape_row _ _ _ _ _ HM Hrow) as Hlen.
  pose proof (lookup_entry M r c a b HM Ha Hb) as Hab. rewrite Hrow in Hab. simpl in Hab.
  destruct (decide (a = i)) as [->|Hai].
  - rewrite list_lookup_alter_eq, Hrow. simpl.
    destruct (decide (b = j)) as [->|Hbj].
    + rewrite decide_True by done. apply list_lookup_insert_eq. lia.
    + rewrite decide_False by congruence. by rewrite list_lookup_insert_ne.
  - rewrite list_lookup_alter_ne by done. rewrite Hrow. simpl.
    rewrite decide_False by congruence. done.
Qed.

Lemma entry_foldl_setitem x (ws : list (nat * nat)) (M : ndarray) r c a b :
  has_shape r c M → Forall (λ ij, ij.1 < r ∧ ij.2 < c) ws → a < r → b < c →
  entry (foldl (setitem x) M ws) a b = if decide ((a, b) ∈ ws) then x else entry M a b.
Proof.
  revert M. induction ws as [|[i j] ws IH]; intros M HM Hws Ha Hb.
  - case_decide as Hin; [by apply elem_of_nil in Hin|done].
  - inversion Hws as [|? ? [Hi Hj] Hws']; subst. simpl in *.
    rewrite IH by (try apply setitem_has_shape; done).
    rewrite (entry_setitem x M r c i j a b) by done.
    destruct (decide ((a, b) ∈ ws)) as [Hin|Hnin].
    + rewrite decide_True; [done|]. by right.
    + destruct (decide ((a, b) = (i, j))) as [Heq|Hne].
      * rewrite decide_True; [done|]. rewrite Heq. by left.
      * rewrite decide_False; [done|]. intros Hin. apply elem_of_cons in Hin. tauto.
Qed.

Lemma foldl_setitem_has_shape x (ws : list (nat * nat)) (M : ndarray) r c :
  has_shape r c M → has_shape r c (foldl (setitem x) M ws).
Proof.
  revert M. induction ws as [|ij ws IH]; intros M HM; simpl; [done|].
  by apply IH, setitem_has_shape.
Qed.

Lemma normalize_index_ok v n :
  (- Z.of_nat n ≤ v < Z.of_nat n)%Z → normalize_index v n = Ok (wrapped v n) ∧ wrapped v n < n.
Proof.
  intros Hv. unfold normalize_index, wrapped.
  destruct (decide (0 ≤ v < Z.of_nat n)%Z).
  - rewrite decide_False by lia. split; [done|lia].
  - rewrite !decide_True by lia. split; [done|lia].
Qed.

Lemma normalize_index_raise v n :
  ¬ (- Z.of_nat n ≤ v < Z.of_nat n)%Z → normalize_index v n = Raise IndexError.
Proof.
  intros Hv. unfold normalize_index. by rewrite !decide_False by lia.
Qed.

Lemma normalize_indices_ok vs n :
  Forall (λ v, (- Z.of_nat n ≤ v < Z.of_nat n)%Z) vs →
  normalize_indices vs n = Ok ((λ v, wrapped v n) <$> vs).
Proof.
  induction 1 as [|v vs Hv _ IH]; simpl; [done|].
  destruct (normalize_index_ok v n Hv) as [-> _]. simpl. by rewrite IH.
Qed.

Lemma normalize_indices_raise vs n :
  ¬ Forall (λ v, (- Z.of_nat n ≤ v < Z.of_nat n)%Z) vs → normalize_indices vs n = Raise IndexError.
Proof.
  induction vs as [|v vs IH]; intros Hnot; simpl.
  - destruct Hnot. constructor.
  - destruct (decide (- Z.of_nat n ≤ v < Z.of_nat n)%Z) as [Hv|Hv].
    + destruct (normalize_index_ok v n Hv) as [-> _]. simpl.
      rewrite IH; [done|]. intros Hvs. apply Hnot. by constructor.
    + by rewrite normalize_index_raise.
Qed.

Lemma elem_of_zip_seq {A} (l : list A) i x : (i, x) ∈ zip (seq 0 (length l)) l ↔ l !! i = Some x.
Proof.
  rewrite list_elem_of_lookup. split.
  - intros [k Hk]. rewrite lookup_zip_with in Hk.
    destruct (seq 0 (length l) !! k) as [i'|] eqn:Hseq; simpl in Hk; [|done].
    destruct (l !! k) as [x'|] eqn:Hl; simpl in Hk; [|done].
    apply lookup_seq in Hseq as [-> _]. by simplify_eq.
  - intros Hl. exists i. rewrite lookup_zip_with.
    rewrite lookup_seq_lt by (by eapply lookup_lt_Some). simpl. by rewrite Hl.
Qed.

(** What [one_hot] returns on labels in [[-n, n)], when there is one: one
    row per label, with 1 in the column the label selects. *)
Lemma one_hot_ok (Y : list (list Z)) (n : nat) :
  concat Y ≠ [] →
  Forall (λ v, (- Z.of_nat n ≤ v < Z.of_nat n)%Z) (concat Y) →
  ∃ M, one_hot Y n = Ok M ∧ has_shape (length (concat Y)) n M ∧
    ∀ i v j, concat Y !! i = Some v → j < n →
      entry M i j = if decide (j = wrapped v n) then 1%R else 0%R.
Proof.
  intros Hlabels Hall. unfold one_hot, setitem_index. cbn zeta.
  rewrite decide_False by done. set (ys := concat Y) in *.
  assert (Hnorm : normalize_indices ys (shape1 (np_zeros (length ys) n))
                  = Ok ((λ v, wrapped v n) <$> ys)).
  { destruct ys as [|y ys']; [done|].
    rewrite (has_shape_shape1 _ _ _ (np_zeros_has_shape _ _)) by (simpl; lia).
    by apply normalize_indices_ok. }
  rewrite Hnorm. simpl. eexists. split; [done|].
  split; [apply foldl_setitem_has_shape, np_zeros_has_shape|].
  intros i v j Hi Hj.
  pose proof (lookup_lt_Some _ _ _ Hi) as Hlt.
  assert (Hws : Forall (λ ij : nat * nat, ij.1 < length ys ∧ ij.2 < n)
                  (zip (range (length ys)) ((λ v, wrapped v n) <$> ys))).
  { apply Forall_forall. intros [a b] Hab.
    apply list_elem_of_lookup in Hab as [k Hk]. rewrite lookup_zip_with in Hk. unfold range in Hk.
    destruct (seq 0 (length ys) !! k) as [a'|] eqn:Hseq; simpl in Hk; [|done].
    rewrite list_lookup_fmap in Hk.
    destruct (ys !! k) as [w|] eqn:Hw; simpl in Hk; [|done]. simplify_eq.
    apply lookup_seq in Hseq as [-> ?]. simpl. split; [done|].
    apply normalize_index_ok. by eapply (Forall_lookup_1 _ _ _ _ Hall). }
  rewrite (entry_foldl_setitem _ _ _ (length ys) n) by (done || apply np_zeros_has_shape).
  rewrite entry_np_zeros by done.
  unfold range. rewrite <- (length_fmap (λ v, wrapped v n) ys).
  destruct (decide (j = wrapped v n)) as [->|Hne].
  - rewrite decide_True; [done|].
    apply elem_of_zip_seq. by rewrite list_lookup_fmap, Hi.
  - rewrite decide_False; [done|]. intros Hin.
    apply elem_of_zip_seq in Hin. rewrite list_lookup_fmap, Hi in Hin.
    simpl in Hin. congruence.
Qed.

Lemma one_hot_raise (Y : list (list Z)) (n : nat) :
  ¬ Forall (λ v, (- Z.of_nat n ≤ v < Z.of_nat n)%Z) (concat Y) → one_hot Y n = Raise IndexError.
Proof.
  intros Hnot. unfold one_hot, setitem_index. cbn zeta.
  destruct (concat Y) as [|y ys] eqn:Hys.
  - destruct Hnot. constructor.
  - rewrite decide_False by done.
    rewrite (has_shape_shape1 _ _ _ (np_zeros_has_shape _ _)) by (simpl; lia).
    by rewrite normalize_indices_raise.
Qed.

Lemma one_hot_empty (Y : list (list Z)) (n : nat) :
  concat Y = [] → one_hot Y n = Raise IndexError.
Proof. intros Hnil. unfold one_hot. cbn zeta. by rewrite decide_True. Qed.

Lemma np_T_has_shape (M : ndarray) r c :
  has_shape r c M → 0 < r → has_shape c r (np_T M).
Proof.
  intros HM Hr. unfold np_T.
  rewrite (has_shape_shape0 _ _ _ HM), (has_shape_shape1 _ _ _ HM) by done.
  apply tabulate_has_shape.
Qed.

Lemma entry_np_T (M : ndarray) r c i j :
  has_shape r c M → i < r → j < c → entry (np_T M) j i = entry M i j.
Proof.
  intros HM Hi Hj. unfold np_T.
  rewrite (has_shape_shape0 _ _ _ HM), (has_shape_shape1 _ _ _ HM) by lia.
  by rewrite entry_tabulate.
Qed.

(** C4, as the code has it. For a non-empty vector of labels
    [0 <= v < num_classes], [one_hot] returns an array of shape
    [(batch_m, num_classes)]: one ROW per sample, with 1 in column [v] and 0
    elsewhere.  Its transpose, which is what both callers take
    ([one_hot_Y.T]), has the shape [(num_classes, batch_m)] with the 1 of
    sample [i] in row [v] of column [i].  (On a vector without labels
    [one_hot] raises, see C10.) *)
Theorem one_hot_spec (ys : list Z) (n : nat) :
  ys ≠ [] →
  Forall (λ v, (0 ≤ v < Z.of_nat n)%Z) ys →
  ∃ M, one_hot [ys] n = Ok M ∧ has_shape (length ys) n M ∧
    (∀ i v j, ys !! i = Some v → j < n →
       entry M i j = if decide (Z.of_nat j = v) then 1%R else 0%R) ∧
    has_shape n (length ys) (np_T M) ∧
    (∀ i v j, ys !! i = Some v → j < n →
       entry (np_T M) j i = if decide (Z.of_nat j = v) then 1%R else 0%R).
Proof.
  intros Hlabels Hys.
  assert (Hcat : concat [ys] = ys) by (simpl; apply app_nil_r).
  destruct (one_hot_ok [ys] n) as (M & HM & Hshape & Hent).
  { by rewrite Hcat. }
  { rewrite Hcat. eapply Forall_impl; [done|]. simpl. lia. }
  rewrite Hcat in Hshape, Hent.
  assert (Hent' : ∀ i v j, ys !! i = Some v → j < n →
            entry M i j = if decide (Z.of_nat j = v) then 1%R else 0%R).
  { intros i v j Hi Hj. rewrite (Hent i v j Hi Hj).
    pose proof (Forall_lookup_1 _ _ _ _ Hys Hi) as Hv. simpl in Hv.
    unfold wrapped. rewrite (decide_False (P := (v < 0)%Z)) by lia.
    destruct (decide (j = Z.to_nat v)), (decide (Z.of_nat j = v)); (done || lia). }
  exists M. split; [done|]. split; [done|]. split; [done|]. split.
  - apply np_T_has_shape; [done|]. destruct ys; [done|simpl; lia].
  - intros i v j Hi Hj.
    rewrite (entry_np_T M (length ys) n) by (done || by eapply lookup_lt_Some).
    by apply Hent'.
Qed.

Lemma one_hot_spec_witness :
  ∃ M, one_hot [[2; 0]%Z] 3 = Ok M ∧ has_shape 2 3 M ∧
    (∀ i v j, [2; 0]%Z !! i = Some v → j < 3 →
       entry M i j = if decide (Z.of_nat j = v) then 1%R else 0%R) ∧
    has_shape 3 2 (np_T M) ∧
    (∀ i v j, [2; 0]%Z !! i = Some v → j < 3 →
       entry (np_T M) j i = if decide (Z.of_nat j = v) then 1%R else 0%R).
Proof.
  apply (one_hot_spec [2; 0]%Z 3).
  - discriminate.
  - repeat constructor; simpl; lia.
Defined.

(** C4 as stated fails: on the three labels [0, 1, 1] with two classes the
    result has three rows of two entries, not the shape [(2, 3)]. *)
Lemma one_hot_shape_counterexample :
  one_hot [[0; 1; 1]%Z] 2 = Ok [[1; 0]; [0; 1]; [0; 1]]%R ∧
  ¬ has_shape 2 3 [[1; 0]; [0; 1]; [0; 1]]%R.
Proof.
  split; [reflexivity|]. intros [Hlen _]. simpl in Hlen. lia.
Qed.

(** C10, as the code has it. [one_hot] either returns, and then there is a
    label, every label is in [[-num_classes, num_classes)], and sample [i]
    has its 1 in column [v] for a label [v >= 0] and in column
    [num_classes + v] for a negative one; or it raises [IndexError], and
    then there is no label at all, or some label is [>= num_classes] or
    [< -num_classes]: the lower bound that raises is [-num_classes], not 0. *)
Theorem one_hot_index_wraparound (Y : list (list Z)) (n : nat) :
  match one_hot Y n with
  | Ok M =>
      concat Y ≠ [] ∧
      Forall (λ v, (- Z.of_nat n ≤ v < Z.of_nat n)%Z) (concat Y) ∧
      has_shape (length (concat Y)) n M ∧
      ∀ i v j, concat Y !! i = Some v → j < n →
        entry M i j =
          if decide (Z.of_nat j = if decide (v < 0)%Z then (Z.of_nat n + v)%Z else v)
          then 1%R else 0%R
  | Raise e =>
      e = IndexError ∧
      (concat Y = [] ∨
       Exists (λ v, (v < - Z.of_nat n)%Z ∨ (Z.of_nat n ≤ v)%Z) (concat Y))
  end.
Proof.
  destruct (decide (concat Y = [])) as [Hnil|Hlabels].
  { rewrite (one_hot_empty Y n Hnil). split; [done|]. by left. }
  destruct (decide (Forall (λ v, (- Z.of_nat n ≤ v < Z.of_nat n)%Z) (concat Y)))
    as [Hall|Hnot].
  - destruct (one_hot_ok Y n Hlabels Hall) as (M & -> & Hshape & Hent).
    split; [done|]. split; [done|]. split; [done|].
    intros i v j Hi Hj. rewrite (Hent i v j Hi Hj).
    pose proof (Forall_lookup_1 _ _ _ _ Hall Hi) as Hv. simpl in Hv.
    unfold wrapped. destruct (decide (v < 0)%Z).
    + destruct (decide (j = Z.to_nat (v + Z.of_nat n))),
        (decide (Z.of_nat j = (Z.of_nat n + v)%Z)); (done || lia).
    + destruct (decide (j = Z.to_nat v)), (decide (Z.of_nat j = v)); (done || lia).
  - rewrite (one_hot_raise Y n Hnot). split; [done|]. right.
    apply not_Forall_Exists in Hnot; [|intros v; apply _].
    eapply Exists_impl; [done|]. simpl. intros v Hv.
    destruct (decide (v < - Z.of_nat n)%Z); [by left|right; lia].
Qed.

(** A negative label wraps around: with three classes the label [-1] sets
    the last column, the row of class 2. *)
Lemma one_hot_negative_label_example :
  one_hot [[-1; 0]%Z] 3 = Ok [[0; 0; 1]; [1; 0; 0]]%R.
Proof. reflexivity. Qed.

(** C10 as stated fails: the vector [-1, -3] with two classes holds a label
    in [[-num_classes, -1]] and no label [>= num_classes], and [one_hot]
    raises [IndexError] on it. *)
Lemma one_hot_lower_bound_counterexample :
  one_hot [[-1; -3]%Z] 2 = Raise IndexError ∧
  ((-1)%Z ∈ [-1; -3]%Z ∧ (- Z.of_nat 2 ≤ -1 ≤ -1)%Z) ∧
  Forall (λ v, ¬ (Z.of_nat 2 ≤ v)%Z) [-1; -3]%Z.
Proof.
  split; [reflexivity|]. split.
  - split; [by left|lia].
  - repeat constructor; simpl; lia.
Qed.

(** ** The softmax head *)

Section softmax_lemmas.
Local Open Scope R_scope.

Lemma Rsum_cons (x : R) (l : list R) : Rsum (x :: l) = x + Rsum l.
Proof. reflexivity. Qed.

Lemma Rsum_exp_shift (l : list R) (c1 c2 : R) :
  Rsum ((λ z, exp (z - c1)) <$> l) = exp (c2 - c1) * Rsum ((λ z, exp (z - c2)) <$> l).
Proof.
  induction l as [|z l IH].
  - simpl. lra.
  - rewrite !fmap_cons, !Rsum_cons, IH.
    replace (z - c1) with ((c2 - c1) + (z - c2)) by lra.
    rewrite exp_plus. lra.
Qed.

Lemma Rsum_exp_pos (l : list R) (c : R) : l ≠ [] → 0 < Rsum ((λ z, exp (z - c)) <$> l).
Proof.
  intros Hne. destruct l as [|z l]; [done|]. clear Hne.
  assert (0 <= Rsum ((λ z, exp (z - c)) <$> l)).
  { induction l as [|y l IH]; [simpl; lra|].
    rewrite fmap_cons, Rsum_cons. pose proof (exp_pos (y - c)). lra. }
  rewrite fmap_cons, Rsum_cons. pose proof (exp_pos (z - c)). lra.
Qed.

(** The softmax of a column does not depend on the constant subtracted
    from it. *)
Lemma softmax_shift (l : list R) (z c1 c2 : R) :
  l ≠ [] →
  exp (z - c1) / Rsum ((λ z, exp (z - c1)) <$> l)
  = exp (z - c2) / Rsum ((λ z, exp (z - c2)) <$> l).
Proof.
  intros Hne. rewrite (Rsum_exp_shift l c1 c2).
  replace (z - c1) with ((c2 - c1) + (z - c2)) by lra. rewrite exp_plus.
  pose proof (exp_pos (c2 - c1)). pose proof (Rsum_exp_pos l c2 Hne).
  field. split; lra.
Qed.
End softmax_lemmas.

Lemma np_map_has_shape f (M : ndarray) r c : has_shape r c M → has_shape r c (np_map f M).
Proof.
  intros [Hr Hc]. split.
  - unfold np_map. by rewrite length_fmap.
  - unfold np_map. apply Forall_fmap. eapply Forall_impl; [done|].
    intros row Hrow. simpl. by rewrite length_fmap.
Qed.

Lemma entry_np_map f (M : ndarray) r c i j :
  has_shape r c M → i < r → j < c → entry (np_map f M) i j = f (entry M i j).
Proof.
  intros HM Hi Hj. apply entry_lookup.
  pose proof (lookup_entry M r c i j HM Hi Hj) as Hij.
  unfold np_map. rewrite list_lookup_fmap.
  destruct (M !! i) as [row|]; simpl in *; [|done].
  by rewrite list_lookup_fmap, Hij.
Qed.

Lemma column_length (M : ndarray) j : length (column M j) = length M.
Proof. unfold column. by rewrite length_fmap. Qed.

Lemma column_lookup (M : ndarray) r c i j :
  has_shape r c M → i < r → j < c → column M j !! i = Some (entry M i j).
Proof.
  intros HM Hi Hj. unfold column. rewrite list_lookup_fmap.
  destruct (lookup_lt_is_Some_2 M i) as [row Hrow]; [destruct HM; lia|].
  rewrite Hrow. simpl. f_equal. unfold entry.
  by rewrite (nth_lookup_Some _ _ _ _ Hrow).
Qed.

Lemma column_np_map f (M : ndarray) r c j :
  has_shape r c M → j < c → column (np_map f M) j = f <$> column M j.
Proof.
  intros HM Hj. apply list_eq. intros i.
  destruct (decide (i < r)) as [Hi|Hi].
  - rewrite (column_lookup _ r c) by (done || by apply np_map_has_shape).
    rewrite list_lookup_fmap, (column_lookup _ r c) by done. simpl.
    by rewrite (entry_np_map f M r c).
  - rewrite !lookup_ge_None_2; [done|..].
    + rewrite length_fmap, column_length. destruct HM. lia.
    + rewrite column_length. unfold np_map. rewrite length_fmap. destruct HM. lia.
Qed.

Lemma np_sum_axis0_has_shape (M : ndarray) : has_shape 1 (shape1 M) (np_sum_axis0 M).
Proof.
  split; [done|]. unfold np_sum_axis0. constructor; [|done].
  by rewrite length_fmap, length_seq.
Qed.

Lemma entry_np_sum_axis0 (M : ndarray) j :
  j < shape1 M → entry (np_sum_axis0 M) 0 j = Rsum (column M j).
Proof.
  intros Hj. apply entry_lookup. unfold np_sum_axis0. simpl.
  by rewrite list_lookup_fmap, lookup_seq_lt.
Qed.

Lemma broadcast_dim_same a : broadcast_dim a a = Some a.
Proof. unfold broadcast_dim. by rewrite decide_True. Qed.

Lemma broadcast_dim_1_r a : broadcast_dim a 1 = Some a.
Proof. unfold broadcast_dim. repeat case_decide; (done || by f_equal). Qed.

Lemma broadcast_dim_1_l a : broadcast_dim 1 a = Some a.
Proof. unfold broadcast_dim. repeat case_decide; (done || by f_equal). Qed.

Lemma broadcast_entry_same (M : ndarray) r c i j :
  has_shape r c M → i < r → j < c → broadcast_entry M i j = entry M i j.
Proof.
  intros HM Hi Hj. unfold broadcast_entry.
  rewrite (has_shape_shape0 _ _ _ HM), (has_shape_shape1 _ _ _ HM) by lia.
  repeat case_decide; f_equal; lia.
Qed.

Lemma broadcast_entry_row (M : ndarray) c i j :
  has_shape 1 c M → j < c → broadcast_entry M i j = entry M 0 j.
Proof.
  intros HM Hj. unfold broadcast_entry.
  rewrite (has_shape_shape0 _ _ _ HM), (has_shape_shape1 _ _ _ HM) by lia.
  rewrite decide_True by done. case_decide; f_equal; lia.
Qed.

Lemma broadcast_entry_col (M : ndarray) r i j :
  has_shape r 1 M → i < r → broadcast_entry M i j = entry M i 0.
Proof.
  intros HM Hi. unfold broadcast_entry.
  rewrite (has_shape_shape0 _ _ _ HM), (has_shape_shape1 _ _ _ HM) by lia.
  rewrite (decide_True (P := 1 = 1)) by done. case_decide; f_equal; lia.
Qed.

(** Two arrays of one shape: the operation entry by entry. *)
Lemma broadcast2_same f (A B : ndarray) r c :
  has_shape r c A → has_shape r c B →
  ∃ C, broadcast2 f A B = Ok C ∧ has_shape r c C ∧
    ∀ i j, i < r → j < c → entry C i j = f (entry A i j) (entry B i j).
Proof.
  intros HA HB. unfold broadcast2.
  rewrite (has_shape_shape0 _ _ _ HA), (has_shape_shape0 _ _ _ HB), broadcast_dim_same.
  destruct (decide (r = 0)) as [->|Hr].
  - assert (A = []) as -> by (destruct HA as [HA _]; by destruct A).
    assert (B = []) as -> by (destruct HB as [HB _]; by destruct B).
    simpl. eexists. split; [done|]. split; [done|]. intros; lia.
  - rewrite (has_shape_shape1 _ _ _ HA), (has_shape_shape1 _ _ _ HB), broadcast_dim_same by lia.
    eexists. split; [done|]. split; [apply tabulate_has_shape|].
    intros i j Hi Hj. rewrite entry_tabulate by done.
    by rewrite (broadcast_entry_same A r c), (broadcast_entry_same B r c).
Qed.

(** An array and a row vector: the row is paired with every row. *)
Lemma broadcast2_row f (A B : ndarray) r c :
  has_shape r c A → has_shape 1 c B → 0 < r →
  ∃ C, broadcast2 f A B = Ok C ∧ has_shape r c C ∧
    ∀ i j, i < r → j < c → entry C i j = f (entry A i j) (entry B 0 j).
Proof.
  intros HA HB Hr. unfold broadcast2.
  rewrite (has_shape_shape0 _ _ _ HA), (has_shape_shape0 _ _ _ HB), broadcast_dim_1_r.
  rewrite (has_shape_shape1 _ _ _ HA), (has_shape_shape1 _ _ _ HB), broadcast_dim_same by lia.
  eexists. split; [done|]. split; [apply tabulate_has_shape|].
  intros i j Hi Hj. rewrite entry_tabulate by done.
  by rewrite (broadcast_entry_same A r c), (broadcast_entry_row B c).
Qed.

Lemma np_max_ok (M : ndarray) r c : has_shape r c M → 0 < r → 0 < c → ∃ mx, np_max M = Ok mx.
Proof.
  intros HM Hr Hc. unfold np_max.
  destruct M as [|row M]; [destruct HM; simpl in *; lia|].
  destruct row as [|x row].
  - destruct HM as [_ HM]. inversion HM. simpl in *. lia.
  - simpl. by eexists.
Qed.

(** What the head computes before the loss: the activations and the cache. *)
Lemma softmax_head (Z : ndarray) (n m : nat) :
  has_shape n m Z → 0 < n → 0 < m →
  ∃ mx A, np_max Z = Ok mx ∧
    broadcast2 Rdiv (np_map (λ z, exp (z - mx)) Z)
                    (np_sum_axis0 (np_map (λ z, exp (z - mx)) Z)) = Ok A ∧
    has_shape n m A ∧
    ∀ i j, i < n → j < m →
      entry A i j = (exp (entry Z i j - mx) / Rsum ((λ z, exp (z - mx)) <$> column Z j))%R.
Proof.
  intros HZ Hn Hm. destruct (np_max_ok Z n m HZ Hn Hm) as [mx Hmx].
  set (E := np_map (λ z, exp (z - mx)) Z).
  assert (HE : has_shape n m E) by (by apply np_map_has_shape).
  pose proof (np_sum_axis0_has_shape E) as HS.
  rewrite (has_shape_shape1 _ _ _ HE) in HS by done.
  destruct (broadcast2_row Rdiv E (np_sum_axis0 E) n m HE HS Hn) as (A & HA & HAs & HAe).
  exists mx, A. split; [done|]. split; [done|]. split; [done|].
  intros i j Hi Hj. rewrite (HAe i j Hi Hj).
  rewrite entry_np_sum_axis0 by (by rewrite (has_shape_shape1 _ _ _ HE)).
  unfold E. rewrite (entry_np_map _ Z n m) by done.
  by rewrite (column_np_map _ Z n m).
Qed.

Lemma column_nonempty (M : ndarray) r c j : has_shape r c M → 0 < r → column M j ≠ [].
Proof.
  intros [Hr _] Hpos Hnil. apply (f_equal length) in Hnil.
  rewrite column_length in Hnil. simpl in Hnil. lia.
Qed.

(** The activations, entry by entry, against the per-column rule. *)
Lemma softmax_head_spec (Z : ndarray) (n m : nat) :
  has_shape n m Z → 0 < n → 0 < m →
  ∃ mx A, np_max Z = Ok mx ∧
    broadcast2 Rdiv (np_map (λ z, exp (z - mx)) Z)
                    (np_sum_axis0 (np_map (λ z, exp (z - mx)) Z)) = Ok A ∧
    has_shape n m A ∧
    ∀ i j, i < n → j < m → entry A i j = spec_softmax Z i j.
Proof.
  intros HZ Hn Hm.
  destruct (softmax_head Z n m HZ Hn Hm) as (mx & A & Hmx & HA & HAs & HAe).
  exists mx, A. split; [done|]. split; [done|]. split; [done|].
  intros i j Hi Hj. rewrite (HAe i j Hi Hj). unfold spec_softmax.
  apply softmax_shift. by eapply column_nonempty.
Qed.

(** ** The head within the range of float64 *)

Section f64_lemmas.
Local Open Scope R_scope.

Lemma foldl_Rmax_spec (l : list R) (x : R) :
  (foldl Rmax x l = x ∨ foldl Rmax x l ∈ l) ∧
  x <= foldl Rmax x l ∧ ∀ y, y ∈ l → y <= foldl Rmax x l.
Proof.
  revert x. induction l as [|a l IH]; intros x; cbn [foldl].
  - split; [by left|]. split; [lra|]. intros y Hy. by apply elem_of_nil in Hy.
  - destruct (IH (Rmax x a)) as (Hin & Hge & Hall).
    pose proof (Rmax_l x a). pose proof (Rmax_r x a).
    split; [|split].
    + destruct Hin as [Heq|Hin]; [|right; by right].
      rewrite Heq. unfold Rmax. destruct (Rle_dec x a); [right; by left|by left].
    + lra.
    + intros y Hy. apply elem_of_cons in Hy as [->|Hy]; [lra|by apply Hall].
Qed.

(** [np.max] returns an entry that no entry exceeds. *)
Lemma np_max_spec (M : ndarray) (mx : R) :
  np_max M = Ok mx → mx ∈ concat M ∧ ∀ y, y ∈ concat M → y <= mx.
Proof.
  unfold np_max. destruct (concat M) as [|x xs]; [done|]. intros [= <-].
  destruct (foldl_Rmax_spec xs x) as (Hin & Hge & Hall). split.
  - destruct Hin as [-> | Hin]; [by left|by right].
  - intros y Hy. apply elem_of_cons in Hy as [->|Hy]; [done|by apply Hall].
Qed.


Lemma entry_in_concat (M : ndarray) (r c i j : nat) :
  has_shape r c M → (i < r)%nat → (j < c)%nat → entry M i j ∈ concat M.
Proof.
  intros HM Hi Hj. pose proof (lookup_entry M r c i j HM Hi Hj) as Hij.
  destruct (M !! i) as [row|] eqn:Hrow; [|done]. cbn in Hij.
  apply list_elem_of_In, in_concat. exists row.
  split; apply list_elem_of_In; by eapply list_elem_of_lookup_2.
Qed.

Lemma column_in_concat (M : ndarray) (r c j : nat) (x : R) :
  has_shape r c M → (j < c)%nat → x ∈ column M j → x ∈ concat M.
Proof.
  intros HM Hj Hx. apply list_elem_of_lookup in Hx as [i Hi].
  assert (Hlt : (i < r)%nat).
  { apply lookup_lt_Some in Hi. rewrite column_length in Hi. destruct HM. lia. }
  rewrite (column_lookup M r c i j HM Hlt Hj) in Hi. injection Hi as <-.
  by apply (entry_in_concat M r c).
Qed.

Lemma exp_INR (n : nat) : exp (INR n) = exp 1 ^ n.
Proof.
  induction n as [|n IH]; [simpl; apply exp_0|].
  rewrite S_INR, exp_plus, IH. simpl. lra.
Qed.

Lemma exp_nat_pow (n : nat) : exp (IZR (Z.of_nat n)) = exp 1 ^ n.
Proof. by rewrite <- INR_IZR_INZ, exp_INR. Qed.

Lemma exp_1_bounds : 2 <= exp 1 <= 3.
Proof. split; [pose proof (exp_ineq1 1); lra|apply exp_le_3]. Qed.

Lemma exp_600_small : exp 600 < 2 ^ 1075.
Proof.
  pose proof (exp_nat_pow 600) as H600. change (IZR (Z.of_nat 600)) with 600 in H600.
  rewrite H600. apply Rle_lt_trans with (3 ^ 600).
  - apply pow_incr. pose proof exp_1_bounds. pose proof (exp_pos 1). lra.
  - rewrite !pow_IZR. apply IZR_lt. by vm_compute.
Qed.


Lemma exp_le_mono (x y : R) : x <= y → exp x <= exp y.
Proof. intros [Hlt | ->]; [left; by apply exp_increasing|lra]. Qed.

Lemma f64_tiny_pos : 0 < f64_tiny.
Proof. unfold f64_tiny. apply Rinv_0_lt_compat, pow_lt. lra. Qed.

(** No exponential of a number in [[-600, 0]] leaves the range. *)
Lemma exp_f64_exact (t : R) : -600 <= t <= 0 → exp_f64 t = Fin (exp t).
Proof.
  intros [Hlo Hhi]. unfold exp_f64.
  assert (Htiny : f64_tiny < exp t).
  { apply Rlt_le_trans with (exp (-600)); [|by apply exp_le_mono].
    replace (-600) with (- (600)) by lra. rewrite exp_Ropp. unfold f64_tiny.
    apply Rinv_lt_contravar; [|apply exp_600_small].
    apply Rmult_lt_0_compat; [apply exp_pos|apply pow_lt; lra]. }
  assert (Hhuge : exp t < f64_huge).
  { apply Rle_lt_trans with 1.
    - rewrite <- exp_0. by apply exp_le_mono.
    - unfold f64_huge. replace 1024%nat with (970 + 54)%nat by lia. rewrite pow_add.
      pose proof (Rlt_pow_R1 2 970 ltac:(lra) ltac:(lia)).
      pose proof (Rlt_pow_R1 2 54 ltac:(lra) ltac:(lia)).
      assert (2 <= 2 ^ 54) by (change 54%nat with (S 53); simpl pow;
                               pose proof (pow_lt 2 53 ltac:(lra)); nra).
      nra. }
  destruct (Rle_dec (exp t) f64_tiny); [lra|].
  destruct (Rle_dec f64_huge (exp t)); [lra|done].
Qed.


Lemma fsum_Fin (l : list R) : fsum (Fin <$> l) = Fin (Rsum l).
Proof.
  induction l as [|x l IH]; [done|].
  rewrite fmap_cons, Rsum_cons. unfold fsum in *. cbn [foldr]. by rewrite IH.
Qed.

Lemma fdiv_Fin (x y : R) : y ≠ 0 → fdiv (Fin x) (Fin y) = Fin (x / y).
Proof. intros Hy. unfold fdiv. by destruct (Req_dec_T y 0). Qed.


(** The exponentials of a column, when no entry is further than 600 below
    the number [c] that is subtracted and none is above it. *)
Lemma exp_f64_column (l : list R) (c : R) :
  (∀ x, x ∈ l → -600 <= x - c <= 0) →
  (λ z, exp_f64 (z - c)) <$> l = Fin <$> ((λ z, exp (z - c)) <$> l).
Proof.
  intros Hl. rewrite <- list_fmap_compose. apply list_fmap_ext.
  intros i x Hx. cbn. apply exp_f64_exact, Hl. by eapply list_elem_of_lookup_2.
Qed.


(** Where no two entries of [Z] are further than 600 apart the two
    embeddings of the head agree: the activations are finite, and they are
    the numbers the embedding over the reals gives. *)
Lemma softmax_f64_exact (Z : ndarray) (n m : nat) (mx : R) (A : ndarray) :
  has_shape n m Z → (0 < n)%nat → (0 < m)%nat → spread_le 600 Z →
  np_max Z = Ok mx → has_shape n m A →
  (∀ i j, (i < n)%nat → (j < m)%nat →
     entry A i j = exp (entry Z i j - mx) / Rsum ((λ z, exp (z - mx)) <$> column Z j)) →
  softmax_f64 Z = Ok (to_f64 A).
Proof.
  intros HZ Hn Hm Hspread Hmx HAs HAe. unfold softmax_f64. rewrite Hmx.
  cbn [mbind result_bind]. cbn zeta. f_equal.
  destruct (np_max_spec Z mx Hmx) as [Hin Hmax].
  assert (Hsafe : ∀ x, x ∈ concat Z → -600 <= x - mx <= 0).
  { intros x Hx. pose proof (Hmax x Hx). pose proof (Hspread mx x Hin Hx). lra. }
  rewrite (has_shape_shape1 _ _ _ HZ) by done.
  set (E := (λ row : list R, (λ z, exp_f64 (z - mx)) <$> row) <$> Z).
  assert (Hsum : ∀ j, (j < m)%nat →
            fsum ((λ row : list f64, nth j row (Fin 0)) <$> E)
            = Fin (Rsum ((λ z, exp (z - mx)) <$> column Z j))).
  { intros j Hj. rewrite <- fsum_Fin. f_equal.
    rewrite <- exp_f64_column
      by (intros x Hx; apply Hsafe; by apply (column_in_concat Z n m j)).
    unfold E, column. rewrite <- !list_fmap_compose. apply list_fmap_ext.
    intros i row Hrow. cbn.
    pose proof (has_shape_row _ _ _ _ _ HZ Hrow) as Hlen.
    destruct (lookup_lt_is_Some_2 row j) as [z Hz]; [lia|].
    rewrite (nth_lookup_Some _ _ _ _ Hz).
    apply nth_lookup_Some. by rewrite list_lookup_fmap, Hz. }
  unfold to_f64.
  apply (list_eq_same_length _ _ n).
  { rewrite length_fmap. by destruct HAs. }
  { unfold E. rewrite !length_fmap. by destruct HZ. }
  intros i rowL rowA Hi HrowL HrowA.
  rewrite list_lookup_fmap in HrowL. unfold E in HrowL. rewrite list_lookup_fmap in HrowL.
  destruct (Z !! i) as [zrow|] eqn:Hzrow; [|done]. cbn in HrowL. injection HrowL as <-.
  rewrite list_lookup_fmap in HrowA.
  destruct (A !! i) as [arow|] eqn:Harow; [|done]. cbn in HrowA. injection HrowA as <-.
  pose proof (has_shape_row _ _ _ _ _ HZ Hzrow) as Hzlen.
  pose proof (has_shape_row _ _ _ _ _ HAs Harow) as Halen.
  apply (list_eq_same_length _ _ m).
  { by rewrite length_fmap. }
  { rewrite length_zip_with, !length_fmap, length_seq. lia. }
  intros j x y Hj Hx Hy.
  rewrite lookup_zip_with, !list_lookup_fmap in Hx.
  destruct (zrow !! j) as [z|] eqn:Hz; [|done]. cbn in Hx.
  rewrite lookup_seq_lt in Hx by done. cbn in Hx. injection Hx as <-.
  rewrite list_lookup_fmap in Hy.
  destruct (arow !! j) as [a|] eqn:Ha; [|done]. cbn in Hy. injection Hy as <-.
  assert (Hze : entry Z i j = z) by (apply entry_lookup; by rewrite Hzrow).
  assert (Hae : entry A i j = a) by (apply entry_lookup; by rewrite Harow).
  fold E. rewrite (Hsum j Hj), exp_f64_exact.
  - rewrite fdiv_Fin.
    + by rewrite <- Hae, (HAe i j Hi Hj), Hze.
    + pose proof (Rsum_exp_pos (column Z j) mx (column_nonempty Z n m j HZ Hn)). lra.
  - apply Hsafe. rewrite <- Hze. by apply (entry_in_concat Z n m).
Qed.

(** Any run of the head on such an input returns the activations of
    [softmax_f64]. *)
Lemma softmax_f64_run (Z : ndarray) (n m num_classes : nat) (Y : label_array)
  (A : ndarray) (cache : softmax_cache) (loss : option R) :
  has_shape n m Z → (0 < n)%nat → (0 < m)%nat → spread_le 600 Z →
  softmax_cross_entropy_loss Z num_classes Y = Ok (A, cache, loss) →
  softmax_f64 Z = Ok (to_f64 A).
Proof.
  intros HZ Hn Hm Hspread Hrun.
  destruct (softmax_head Z n m HZ Hn Hm) as (mx & A0 & Hmx & HA & HAs & HAe).
  assert (A = A0) as ->.
  { unfold softmax_cross_entropy_loss in Hrun. rewrite Hmx in Hrun.
    cbn [mbind result_bind] in Hrun. rewrite HA in Hrun. cbn [mbind result_bind] in Hrun.
    case_decide; [by injection Hrun as <- _ _|].
    destruct (one_hot Y num_classes) as [oh|e]; cbn [mbind result_bind] in Hrun; [|done].
    destruct (broadcast2 Rmult _ _) as [P|e]; cbn [mbind result_bind] in Hrun; [|done].
    by injection Hrun as <- _ _. }
  by apply (softmax_f64_exact Z n m mx A0).
Qed.
End f64_lemmas.

(** Membership in a list that is written out. *)
Ltac list_cases H :=
  repeat (apply elem_of_cons in H as [->|H]); try (by apply elem_of_nil in H).




(** ** Finite sums *)

Section big_sum_lemmas.
Local Open Scope R_scope.

Lemma big_sum_ext n f g : (∀ k, (k < n)%nat → f k = g k) → big_sum n f = big_sum n g.
Proof.
  induction n as [|n IH]; intros Hfg; simpl; [done|].
  rewrite IH, Hfg by (intros; (apply Hfg || idtac); lia). done.
Qed.

Lemma big_sum_shift n f : big_sum (S n) f = f 0%nat + big_sum n (λ k, f (S k)).
Proof.
  induction n as [|n IH]; [simpl; lra|].
  change (big_sum (S (S n)) f) with (big_sum (S n) f + f (S n)).
  rewrite IH. simpl. lra.
Qed.

Lemma big_sum_plus n f g : big_sum n (λ k, f k + g k) = big_sum n f + big_sum n g.
Proof. induction n as [|n IH]; simpl; [lra|]. rewrite IH. lra. Qed.

Lemma big_sum_zero n : big_sum n (λ _, 0) = 0.
Proof. induction n as [|n IH]; simpl; [done|]. rewrite IH. lra. Qed.

Lemma big_sum_const n c : big_sum n (λ _, c) = INR n * c.
Proof.
  induction n as [|n IH]; [simpl; lra|].
  rewrite S_INR. simpl. rewrite IH. lra.
Qed.

Lemma big_sum_le n f g : (∀ k, (k < n)%nat → f k <= g k) → big_sum n f <= big_sum n g.
Proof.
  induction n as [|n IH]; intros Hfg; simpl; [lra|].
  assert (big_sum n f <= big_sum n g) by (apply IH; intros; apply Hfg; lia).
  assert (f n <= g n) by (apply Hfg; lia). lra.
Qed.

Lemma big_sum_scal n c f : big_sum n (λ k, f k / c) = big_sum n f / c.
Proof. induction n as [|n IH]; simpl; [lra|]. rewrite IH. lra. Qed.

Lemma big_sum_exchange n m (f : nat → nat → R) :
  big_sum n (λ i, big_sum m (λ j, f i j)) = big_sum m (λ j, big_sum n (λ i, f i j)).
Proof.
  induction n as [|n IH]; simpl.
  - by rewrite big_sum_zero.
  - by rewrite big_sum_plus, IH.
Qed.

(** A sum against an indicator picks one term. *)
Lemma big_sum_indicator n k0 (f : nat → R) :
  (k0 < n)%nat →
  big_sum n (λ i, (if decide (i = k0) then 1 else 0) * f i) = f k0.
Proof.
  induction n as [|n IH]; intros Hk; [lia|]. simpl.
  destruct (decide (n = k0)) as [->|Hne].
  - rewrite (big_sum_ext k0 _ (λ _, 0)), big_sum_zero; [lra|].
    intros k Hlt. rewrite decide_False by lia. lra.
  - rewrite IH by lia. lra.
Qed.

Lemma Rsum_big_sum (l : list R) : Rsum l = big_sum (length l) (λ k, nth k l 0).
Proof.
  induction l as [|x l IH]; [done|].
  change (length (x :: l)) with (S (length l)).
  rewrite big_sum_shift, Rsum_cons, IH. done.
Qed.

Lemma np_sum_big_sum (M : ndarray) r c :
  has_shape r c M → np_sum M = big_sum r (λ i, big_sum c (λ j, entry M i j)).
Proof.
  intros [Hr Hc]. unfold np_sum. rewrite Rsum_big_sum, length_fmap, Hr.
  apply big_sum_ext. intros i Hi.
  destruct (lookup_lt_is_Some_2 M i) as [row Hrow]; [lia|].
  rewrite (nth_lookup_Some (Rsum <$> M) i 0 (Rsum row))
    by (by rewrite list_lookup_fmap, Hrow).
  rewrite Rsum_big_sum, (Forall_lookup_1 _ _ _ _ Hc Hrow).
  apply big_sum_ext. intros j Hj. unfold entry.
  by rewrite (nth_lookup_Some _ _ _ _ Hrow).
Qed.
End big_sum_lemmas.

(** ** The cross-entropy loss *)

Section loss_lemmas.
Local Open Scope R_scope.

Lemma Rsum_exp_ge (l : list R) (c : R) (i : nat) (x : R) :
  l !! i = Some x → exp (x - c) <= Rsum ((λ z, exp (z - c)) <$> l).
Proof.
  revert i. induction l as [|y l IH]; intros i Hi; [done|].
  rewrite fmap_cons, Rsum_cons. destruct i as [|i]; simpl in Hi.
  - injection Hi as ->.
    destruct l as [|y' l]; [simpl; lra|].
    pose proof (Rsum_exp_pos (y' :: l) c ltac:(done)). lra.
  - pose proof (IH i Hi). pose proof (exp_pos (y - c)). lra.
Qed.

(** Every activation is a probability. *)
Lemma spec_softmax_bounds (Z : ndarray) (n m i j : nat) :
  has_shape n m Z → (i < n)%nat → (j < m)%nat →
  0 < spec_softmax Z i j <= 1.
Proof.
  intros HZ Hi Hj. unfold spec_softmax.
  set (c := max_list (column Z j)).
  pose proof (column_lookup Z n m i j HZ Hi Hj) as Hcol.
  pose proof (Rsum_exp_ge _ c _ _ Hcol) as Hle.
  pose proof (exp_pos (entry Z i j - c)) as Hpos.
  set (s := Rsum _) in *. set (e := exp _) in *.
  split.
  - apply Rdiv_lt_0_compat; lra.
  - apply (Rmult_le_reg_r s); [lra|]. unfold Rdiv.
    rewrite Rmult_assoc, Rinv_l by lra. lra.
Qed.

(** The loss in closed form: minus the mean over the samples of
    [log(A[label, sample] + 1e-9)]. *)
Lemma softmax_loss_closed_form (ys : list Z) (n m : nat) (Z : ndarray) :
  has_shape n m Z → (0 < m)%nat → length ys = m →
  Forall (λ v, (0 ≤ v < Z.of_nat n)%Z) ys →
  ∃ A loss,
    softmax_cross_entropy_loss Z n [ys] = Ok (A, {| cache_A := A |}, Some loss) ∧
    has_shape n m A ∧
    (∀ i j, (i < n)%nat → (j < m)%nat → entry A i j = spec_softmax Z i j) ∧
    loss = - big_sum m (λ j, ln (entry A (Z.to_nat (nth j ys 0%Z)) j + 1e-9)) / INR m.
Proof.
  intros HZ Hm Hlen Hys.
  assert (Hn : (0 < n)%nat).
  { destruct ys as [|v ys]; [simpl in Hlen; lia|]. inversion Hys; subst. lia. }
  destruct (softmax_head_spec Z n m HZ Hn Hm) as (mx & A & Hmx & HA & HAs & HAe).
  destruct (one_hot_ok [ys] n) as (M & HM & HMs & HMe).
  { simpl. rewrite app_nil_r. intros ->. simpl in Hlen. lia. }
  { simpl. rewrite app_nil_r. eapply Forall_impl; [done|]. simpl. lia. }
  simpl in HMs, HMe. rewrite app_nil_r in HMs, HMe. rewrite Hlen in HMs.
  pose proof (np_T_has_shape M m n HMs Hm) as HTs.
  set (L := np_map (λ a, ln (a + 1e-9)) A).
  assert (HLs : has_shape n m L) by (by apply np_map_has_shape).
  destruct (broadcast2_same Rmult (np_T M) L n m HTs HLs) as (P & HP & HPs & HPe).
  exists A, (- np_sum P / INR m). split; [|split; [done|split; [done|]]].
  - unfold softmax_cross_entropy_loss. rewrite Hmx. simpl. rewrite HA. simpl.
    rewrite HM. simpl.
    fold L. rewrite HP. simpl.
    by rewrite (has_shape_shape1 _ _ _ HAs) by done.
  - f_equal. f_equal. rewrite (np_sum_big_sum P n m HPs), big_sum_exchange.
    apply big_sum_ext. intros j Hj.
    destruct (lookup_lt_is_Some_2 ys j) as [v Hv]; [lia|].
    pose proof (Forall_lookup_1 _ _ _ _ Hys Hv) as Hvr. simpl in Hvr.
    rewrite (nth_lookup_Some _ _ _ _ Hv).
    rewrite <- (big_sum_indicator n (Z.to_nat v)
                  (λ i, ln (entry A i j + 1e-9))) by lia.
    apply big_sum_ext. intros i Hi.
    rewrite (HPe i j Hi Hj), (entry_np_T M m n j i HMs Hj Hi).
    rewrite (HMe j v i Hv Hi). unfold L.
    rewrite (entry_np_map _ A n m) by done.
    unfold wrapped. rewrite (decide_False (P := (v < 0)%Z)) by lia. done.
Qed.
End loss_lemmas.

(** C5, as the code has it. For [Z] with [num_classes] rows, entries nowhere
    further than 600 apart (so that the activations are finite, within the
    range of float64 too) and labels in [[0, num_classes)], one per column,
    the loss is at least [-log(1 + 1e-9)]; it is [>= 0] when every sample's
    predicted probability of its own label is at most [1 - 1e-9]. *)
Theorem softmax_loss_lower_bound (ys : list Z) (n m : nat) (Z : ndarray) :
  has_shape n m Z → 0 < m → length ys = m →
  Forall (λ v, (0 ≤ v < Z.of_nat n)%Z) ys →
  spread_le 600 Z →
  ∃ A cache loss,
    softmax_cross_entropy_loss Z n [ys] = Ok (A, cache, Some loss) ∧
    softmax_f64 Z = Ok (to_f64 A) ∧
    (∀ i j, i < n → j < m → entry A i j = spec_softmax Z i j) ∧
    (- ln (1 + 1e-9) <= loss)%R ∧
    ((∀ j v, ys !! j = Some v → (entry A (Z.to_nat v) j <= 1 - 1e-9)%R) →
     (0 <= loss)%R).
Proof.
  intros HZ Hm Hlen Hys Hspread.
  destruct (softmax_loss_closed_form ys n m Z HZ Hm Hlen Hys)
    as (A & loss & Hrun & HAs & HAe & ->).
  assert (Hn : 0 < n).
  { destruct ys as [|v ys]; [simpl in Hlen; lia|]. inversion Hys; subst. lia. }
  exists A, {| cache_A := A |}. eexists. split; [done|].
  split; [exact (softmax_f64_run Z n m n [ys] A _ _ HZ Hn Hm Hspread Hrun)|].
  split; [done|].
  assert (Hmpos : (0 < INR m)%R) by (apply lt_0_INR; lia).
  assert (Hterm : ∀ j, j < m →
            ∃ v, ys !! j = Some v ∧ nth j ys 0%Z = v ∧ Z.to_nat v < n).
  { intros j Hj. destruct (lookup_lt_is_Some_2 ys j) as [v Hv]; [lia|].
    exists v. split; [done|]. split; [by apply nth_lookup_Some|].
    pose proof (Forall_lookup_1 _ _ _ _ Hys Hv) as Hvr. simpl in Hvr. lia. }
  split.
  - assert (Hsum : (big_sum m (λ j, ln (entry A (Z.to_nat (nth j ys 0%Z)) j + 1e-9))
                    <= big_sum m (λ _, ln (1 + 1e-9)))%R).
    { apply big_sum_le. intros j Hj.
      destruct (Hterm j Hj) as (v & _ & -> & Hv).
      rewrite (HAe _ j Hv Hj).
      destruct (spec_softmax_bounds Z n m (Z.to_nat v) j HZ Hv Hj) as [Hpos Hle].
      destruct (Rle_lt_or_eq_dec _ _ Hle) as [Hlt | ->]; [|lra].
      left. apply ln_increasing; lra. }
    rewrite big_sum_const in Hsum.
    apply (Rmult_le_reg_r (INR m)); [done|]. unfold Rdiv.
    rewrite Rmult_assoc, Rinv_l by lra. lra.
  - intros Hconf.
    assert (Hsum : (big_sum m (λ j, ln (entry A (Z.to_nat (nth j ys 0%Z)) j + 1e-9))
                    <= big_sum m (λ _, 0))%R).
    { apply big_sum_le. intros j Hj.
      destruct (Hterm j Hj) as (v & Hv & Hnth & Hvn). rewrite Hnth.
      pose proof (Hconf j v Hv) as Hc.
      pose proof (HAe _ j Hvn Hj) as Hspec.
      destruct (spec_softmax_bounds Z n m (Z.to_nat v) j HZ Hvn Hj) as [Hpos _].
      rewrite <- Hspec in Hpos. rewrite <- ln_1.
      destruct (Rle_lt_or_eq_dec _ _ Hc) as [Hlt|Heq].
      - left. apply ln_increasing; lra.
      - right. f_equal. lra. }
    rewrite big_sum_zero in Hsum.
    apply (Rmult_le_reg_r (INR m)); [done|]. unfold Rdiv.
    rewrite Rmult_assoc, Rinv_l by lra. lra.
Qed.

(** Two classes with equal scores: the label has probability one half, and
    the loss is not negative. *)
Lemma softmax_loss_lower_bound_witness :
  ∃ A cache loss,
    softmax_cross_entropy_loss [[0]; [0]]%R 2 [[0%Z]] = Ok (A, cache, Some loss) ∧
    softmax_f64 [[0]; [0]]%R = Ok (to_f64 A) ∧
    (- ln (1 + 1e-9) <= loss)%R ∧ (0 <= loss)%R.
Proof.
  destruct (softmax_loss_lower_bound [0%Z] 2 1 [[0]; [0]]%R)
    as (A & cache & loss & Hrun & Hf64 & HAe & Hlow & Hnonneg).
  - split; [reflexivity|]. repeat constructor.
  - lia.
  - reflexivity.
  - repeat constructor; simpl; lia.
  - intros x y Hx Hy. cbn [concat app] in Hx, Hy.
    list_cases Hx; list_cases Hy; lra.
  - exists A, cache, loss. split; [done|]. split; [done|]. split; [done|].
    apply Hnonneg. intros [|j] v Hj; [|done]. injection Hj as <-.
    change (Z.to_nat 0) with 0. rewrite (HAe 0 0) by lia.
    unfold spec_softmax, column, max_list, entry.
    cbn [fmap list_fmap nth foldl]. rewrite Rmax_left by lra.
    cbn [fmap list_fmap Rsum foldr].
    replace (0 - 0)%R with 0%R by lra. rewrite exp_0. lra.
Defined.

Lemma exp_64_large : (1000000000 < exp 64)%R.
Proof.
  pose proof (exp_ineq1 4 ltac:(lra)) as H4.
  assert (H8 : (exp 8 = exp 4 * exp 4)%R) by (rewrite <- exp_plus; f_equal; lra).
  assert (H16 : (exp 16 = exp 8 * exp 8)%R) by (rewrite <- exp_plus; f_equal; lra).
  assert (H32 : (exp 32 = exp 16 * exp 16)%R) by (rewrite <- exp_plus; f_equal; lra).
  assert (H64 : (exp 64 = exp 32 * exp 32)%R) by (rewrite <- exp_plus; f_equal; lra).
  assert (25 < exp 8)%R by nra.
  assert (625 < exp 16)%R by nra.
  assert (390625 < exp 32)%R by nra.
  nra.
Qed.

(** C5 as stated fails: with two classes, one sample with pre-softmax column
    [(64, 0)] and label 0, the predicted probability of the label is above
    [1 - 1e-9], so [log(A + 1e-9)] is positive and the loss is negative. *)
Lemma softmax_loss_negative_counterexample :
  ∃ A cache loss,
    softmax_cross_entropy_loss [[64]; [0]]%R 2 [[0%Z]] = Ok (A, cache, Some loss) ∧
    (loss < 0)%R.
Proof.
  destruct (softmax_loss_closed_form [0%Z] 2 1 [[64]; [0]]%R)
    as (A & loss & Hrun & HAs & HAe & ->).
  { split; [reflexivity|]. repeat constructor. }
  { lia. }
  { reflexivity. }
  { repeat constructor; simpl; lia. }
  exists A, {| cache_A := A |}. eexists. split; [done|].
  cbn [big_sum nth INR]. change (Z.to_nat 0) with 0.
  rewrite (HAe 0 0) by lia.
  unfold spec_softmax, column, max_list, entry.
  cbn [fmap list_fmap nth foldl].
  rewrite Rmax_left by lra. cbn [fmap list_fmap Rsum foldr].
  replace (64 - 64)%R with 0%R by lra. rewrite exp_0.
  replace (0 - 64)%R with (Ropp 64) by lra. rewrite exp_Ropp.
  pose proof exp_64_large as Hbig.
  assert (Hinv : (0 < / exp 64 < 1e-9)%R).
  { split; [apply Rinv_0_lt_compat; lra|].
    replace 1e-9%R with (/ 1000000000)%R by lra.
    apply Rinv_lt_contravar; [nra|lra]. }
  set (e := (/ exp 64)%R) in *.
  assert (Harg : (1 < 1 / (1 + (e + 0)) + 1e-9)%R).
  { apply (Rmult_lt_reg_r (1 + (e + 0))); [lra|].
    rewrite Rmult_plus_distr_r. unfold Rdiv.
    rewrite Rmult_assoc, Rinv_l by lra. nra. }
  pose proof (ln_increasing 1 _ ltac:(lra) Harg) as Hln. rewrite ln_1 in Hln.
  lra.
Qed.

(** ** The linear layer *)

Section dot_lemmas.
Local Open Scope R_scope.

Lemma Rsum_zip_with_mult (l1 l2 : list R) :
  length l1 = length l2 →
  Rsum (zip_with Rmult l1 l2) = big_sum (length l1) (λ t, nth t l1 0 * nth t l2 0).
Proof.
  intros Hlen. rewrite Rsum_big_sum, length_zip_with, <- Hlen, Nat.min_id.
  apply big_sum_ext. intros t Ht.
  destruct (lookup_lt_is_Some_2 l1 t) as [x Hx]; [lia|].
  destruct (lookup_lt_is_Some_2 l2 t) as [y Hy]; [lia|].
  rewrite (nth_lookup_Some _ _ _ _ Hx), (nth_lookup_Some _ _ _ _ Hy).
  apply nth_lookup_Some. by rewrite lookup_zip_with, Hx, Hy.
Qed.

Lemma nth_column (M : ndarray) r c t j :
  has_shape r c M → (t < r)%nat → nth t (column M j) 0 = entry M t j.
Proof.
  intros [Hr Hc] Ht.
  destruct (lookup_lt_is_Some_2 M t) as [row Hrow]; [lia|].
  unfold entry. rewrite (nth_lookup_Some _ _ _ _ Hrow).
  apply nth_lookup_Some. unfold column. by rewrite list_lookup_fmap, Hrow.
Qed.

(** [np.dot] on aligned shapes: the matrix product, entry by entry. *)
Lemma np_dot_spec (A B : ndarray) (r k c : nat) :
  has_shape r k A → has_shape k c B → (0 < r)%nat → (0 < k)%nat →
  ∃ C, np_dot A B = Ok C ∧ has_shape r c C ∧
    ∀ i j, (i < r)%nat → (j < c)%nat →
      entry C i j = big_sum k (λ t, entry A i t * entry B t j).
Proof.
  intros HA HB Hr Hk. unfold np_dot.
  rewrite (has_shape_shape1 _ _ _ HA), (has_shape_shape0 _ _ _ HB) by done.
  rewrite decide_True by done.
  rewrite (has_shape_shape1 _ _ _ HB) by done.
  eexists. split; [done|]. split.
  - split; [rewrite length_fmap; by destruct HA|].
    apply Forall_fmap, Forall_forall. intros row _. simpl.
    by rewrite length_fmap, length_seq.
  - intros i j Hi Hj. apply entry_lookup.
    destruct (lookup_lt_is_Some_2 A i) as [row Hrow]; [destruct HA; lia|].
    pose proof (has_shape_row _ _ _ _ _ HA Hrow) as Hlen.
    rewrite list_lookup_fmap, Hrow. simpl.
    rewrite list_lookup_fmap, lookup_seq_lt by done. simpl. f_equal.
    change ((λ brow : list R, nth j brow 0) <$> B) with (column B j).
    rewrite Rsum_zip_with_mult by (rewrite column_length; destruct HB; lia).
    rewrite Hlen. apply big_sum_ext. intros t Ht.
    rewrite (nth_column B k c) by done.
    unfold entry. by rewrite (nth_lookup_Some _ _ _ _ Hrow).
Qed.

Lemma np_sum_axis1_spec (M : ndarray) (r c : nat) :
  has_shape r c M →
  has_shape r 1 (np_sum_axis1 M) ∧
  ∀ i, (i < r)%nat → entry (np_sum_axis1 M) i 0 = big_sum c (λ t, entry M i t).
Proof.
  intros HM. split.
  - split; [unfold np_sum_axis1; rewrite length_fmap; by destruct HM|].
    unfold np_sum_axis1. apply Forall_fmap, Forall_forall. by intros row _.
  - intros i Hi. apply entry_lookup.
    destruct (lookup_lt_is_Some_2 M i) as [row Hrow]; [destruct HM; lia|].
    unfold np_sum_axis1. rewrite list_lookup_fmap, Hrow. simpl. f_equal.
    rewrite Rsum_big_sum, (has_shape_row _ _ _ _ _ HM Hrow).
    apply big_sum_ext. intros t Ht. unfold entry.
    by rewrite (nth_lookup_Some _ _ _ _ Hrow).
Qed.
End dot_lemmas.

(** C3. For [dZ] of shape [(n, m)], a cached input [A_prev] of shape
    [(p, m)] and weights [W] of shape [(n, p)], [linear_backward] returns
    [dA_prev = W^T . dZ] of shape [(p, m)], [dW = (dZ . A_prev^T) / m] of
    shape [(n, p)] and [db = rowwise_sum(dZ) / m] of shape [(n, 1)], with [m]
    the number of columns of [A_prev]. *)
Theorem linear_backward_spec (dZ A_prev W b : ndarray) (n m p : nat) :
  has_shape n m dZ → has_shape p m A_prev → has_shape n p W →
  0 < n → 0 < m → 0 < p →
  ∃ dA_prev dW db,
    linear_backward dZ {| lin_A := A_prev |} W b = Ok (dA_prev, dW, db) ∧
    has_shape p m dA_prev ∧ has_shape n p dW ∧ has_shape n 1 db ∧
    (∀ i j, i < p → j < m →
       entry dA_prev i j = big_sum n (λ k, entry W k i * entry dZ k j)%R) ∧
    (∀ i j, i < n → j < p →
       entry dW i j = (big_sum m (λ k, entry dZ i k * entry A_prev j k) / INR m)%R) ∧
    (∀ i, i < n → entry db i 0 = (big_sum m (λ k, entry dZ i k) / INR m)%R).
Proof.
  intros HdZ HA HW Hn Hm Hp.
  pose proof (np_T_has_shape W n p HW Hn) as HWT.
  pose proof (np_T_has_shape A_prev p m HA Hp) as HAT.
  destruct (np_dot_spec (np_T W) dZ p n m HWT HdZ Hp Hn) as (dA & HdA & HdAs & HdAe).
  destruct (np_dot_spec dZ (np_T A_prev) n m p HdZ HAT Hn Hm) as (P & HP & HPs & HPe).
  destruct (np_sum_axis1_spec dZ n m HdZ) as [HSs HSe].
  unfold linear_backward. simpl. rewrite HdA. simpl. rewrite HP. simpl.
  rewrite (has_shape_shape1 _ _ _ HA) by done.
  do 3 eexists. split; [done|].
  split; [done|]. split; [by apply np_map_has_shape|].
  split; [by apply np_map_has_shape|]. split; [|split].
  - intros i j Hi Hj. rewrite (HdAe i j Hi Hj).
    apply big_sum_ext. intros k Hk. by rewrite (entry_np_T W n p k i).
  - intros i j Hi Hj. rewrite (entry_np_map _ P n p) by done.
    rewrite (HPe i j Hi Hj). f_equal.
    apply big_sum_ext. intros k Hk. by rewrite (entry_np_T A_prev p m j k).
  - intros i Hi. rewrite (entry_np_map _ _ n 1) by (done || lia).
    by rewrite (HSe i Hi).
Qed.

Lemma linear_backward_spec_witness :
  ∃ dA_prev dW db,
    linear_backward [[1; 2]; [3; 4]]%R {| lin_A := [[5; 6]]%R |} [[7]; [8]]%R [[0]; [0]]%R
      = Ok (dA_prev, dW, db) ∧
    has_shape 1 2 dA_prev ∧ has_shape 2 1 dW ∧ has_shape 2 1 db ∧
    (∀ i j, i < 1 → j < 2 →
       entry dA_prev i j
       = big_sum 2 (λ k, entry [[7]; [8]]%R k i * entry [[1; 2]; [3; 4]]%R k j)%R) ∧
    (∀ i j, i < 2 → j < 1 →
       entry dW i j
       = (big_sum 2 (λ k, entry [[1; 2]; [3; 4]]%R i k * entry [[5; 6]]%R j k) / INR 2)%R) ∧
    (∀ i, i < 2 →
       entry db i 0 = (big_sum 2 (λ k, entry [[1; 2]; [3; 4]]%R i k) / INR 2)%R).
Proof.
  apply (linear_backward_spec [[1; 2]; [3; 4]]%R [[5; 6]]%R [[7]; [8]]%R [[0]; [0]]%R 2 2 1).
  - split; [reflexivity|]. repeat constructor.
  - split; [reflexivity|]. repeat constructor.
  - split; [reflexivity|]. repeat constructor.
  - lia.
  - lia.
  - lia.
Defined.

(** ** The update rule *)

(** *** Keys *)

Lemma key_inj prefix i j : key prefix i = key prefix j → i = j.
Proof.
  unfold key. intros Heq. apply (inj (String.append prefix)) in Heq.
  by apply pretty_nat_inj in Heq.
Qed.

Lemma key_W_b i j : key "W" i ≠ key "b" j.
Proof. unfold key. intros Heq. cbn [String.append] in Heq. discriminate. Qed.

Lemma key_dW_db i j : key "dW" i ≠ key "db" j.
Proof. unfold key. intros Heq. cbn [String.append] in Heq. discriminate. Qed.

Lemma getitem_Some (d : dict) k v : d !! k = Some v → getitem d k = Ok v.
Proof. unfold getitem. by intros ->. Qed.

Lemma getitem_insert_eq (d : dict) k v : getitem (<[k := v]> d) k = Ok v.
Proof. unfold getitem. by rewrite lookup_insert_eq. Qed.

Lemma getitem_insert_ne (d : dict) k k' v : k ≠ k' → getitem (<[k := v]> d) k' = getitem d k'.
Proof. intros Hne. unfold getitem. by rewrite lookup_insert_ne. Qed.

(** *** The update of one array *)

Section update_arrays.
Local Open Scope R_scope.
Variables (beta1 beta2 epsilon learning_rate : R) (t : nat).

Lemma decay_average_spec (m g : ndarray) r c :
  has_shape r c m → has_shape r c g →
  ∃ m', decay_average beta2 m g = Ok m' ∧ has_shape r c m' ∧
    ∀ i j, (i < r)%nat → (j < c)%nat →
      entry m' i j = beta2 * entry m i j + (1 - beta2) * entry g i j.
Proof.
  intros Hm Hg. unfold decay_average.
  destruct (broadcast2_same Rplus (np_map (Rmult beta2) m) (np_map (Rmult (1 - beta2)) g) r c)
    as (m' & Hrun & Hs & He); [by apply np_map_has_shape..|].
  exists m'. split; [done|]. split; [done|].
  intros i j Hi Hj. rewrite (He i j Hi Hj).
  by rewrite (entry_np_map _ m r c), (entry_np_map _ g r c).
Qed.

Lemma descent_step_spec (p vc sc : ndarray) r c :
  has_shape r c p → has_shape r c vc → has_shape r c sc →
  ∃ p', descent_step learning_rate epsilon p vc sc = Ok p' ∧ has_shape r c p' ∧
    ∀ i j, (i < r)%nat → (j < c)%nat →
      entry p' i j
      = entry p i j - learning_rate * entry vc i j / sqrt (entry sc i j + epsilon).
Proof.
  intros Hp Hvc Hsc. unfold descent_step.
  destruct (broadcast2_same Rdiv (np_map (Rmult learning_rate) vc)
              (np_map (λ x, sqrt (x + epsilon)) sc) r c)
    as (q & Hq & Hqs & Hqe); [by apply np_map_has_shape..|].
  rewrite Hq. simpl.
  destruct (broadcast2_same Rminus p q r c Hp Hqs) as (p' & Hrun & Hs & He).
  exists p'. split; [done|]. split; [done|].
  intros i j Hi Hj. rewrite (He i j Hi Hj), (Hqe i j Hi Hj).
  by rewrite (entry_np_map _ vc r c), (entry_np_map _ sc r c).
Qed.

(** One parameter array with its gradient and its two accumulators: the
    three arrays the update computes, against the specification's rule. *)
Lemma update_array_spec (p g v s : ndarray) r c :
  has_shape r c p → has_shape r c g → has_shape r c v → has_shape r c s →
  ∃ p' v' s',
    decay_average beta2 v g = Ok v' ∧
    decay_average beta2 s (np_map (λ x, x ^ 2) g) = Ok s' ∧
    descent_step learning_rate epsilon p
      (np_map (λ x, x / (1 - beta1 ^ t)) v')
      (np_map (λ x, x / (1 - beta2 ^ t)) s') = Ok p' ∧
    has_shape r c p' ∧ has_shape r c v' ∧ has_shape r c s' ∧
    ∀ i j, (i < r)%nat → (j < c)%nat →
      (entry p' i j, entry v' i j, entry s' i j)
      = spec_update_rule beta1 beta2 epsilon learning_rate t
          (entry p i j) (entry v i j) (entry s i j) (entry g i j).
Proof.
  intros Hp Hg Hv Hs.
  destruct (decay_average_spec v g r c Hv Hg) as (v' & Hv' & Hv's & Hv'e).
  destruct (decay_average_spec s (np_map (λ x, x ^ 2) g) r c Hs)
    as (s' & Hs' & Hs's & Hs'e); [by apply np_map_has_shape|].
  destruct (descent_step_spec p (np_map (λ x, x / (1 - beta1 ^ t)) v')
              (np_map (λ x, x / (1 - beta2 ^ t)) s') r c)
    as (p' & Hp' & Hp's & Hp'e); [done|by apply np_map_has_shape..|].
  exists p', v', s'. repeat (split; [done|]).
  intros i j Hi Hj. unfold spec_update_rule.
  rewrite (Hp'e i j Hi Hj), (Hv'e i j Hi Hj), (Hs'e i j Hi Hj).
  rewrite (entry_np_map _ v' r c), (entry_np_map _ s' r c) by done.
  rewrite (Hv'e i j Hi Hj), (Hs'e i j Hi Hj).
  by rewrite (entry_np_map _ g r c).
Qed.
End update_arrays.

(** *** The update of one layer and of all layers *)

Section update_one_layer.
Variables (beta1 beta2 epsilon learning_rate : R) (t : nat) (G : dict).

Lemma update_layer_spec (P V S : dict) (i : nat) :
  layer_ok G P V S (i + 1) →
  ∃ P' V' S',
    update_layer G t beta1 beta2 epsilon learning_rate i (P, V, S) = Ok (P', V', S') ∧
    layer_updated beta1 beta2 epsilon learning_rate t G P V S P' V' S' (i + 1) ∧
    others_untouched [i + 1] P V S P' V' S'.
Proof.
  intros [(pW & gW & vW & sW & rW & cW & HPW & HGW & HVW & HSW & HpW & HgW & HvW & HsW)
          (pb & gb & vb & sb & rb & cb & HPb & HGb & HVb & HSb & Hpb & Hgb & Hvb & Hsb)].
  destruct (update_array_spec beta1 beta2 epsilon learning_rate t pW gW vW sW rW cW)
    as (pW' & vW' & sW' & HvW' & HsW' & HpW' & HpW's & HvW's & HsW's & HWe); [done..|].
  destruct (update_array_spec beta1 beta2 epsilon learning_rate t pb gb vb sb rb cb)
    as (pb' & vb' & sb' & Hvb' & Hsb' & Hpb' & Hpb's & Hvb's & Hsb's & Hbe); [done..|].
  pose proof (key_W_b (i + 1) (i + 1)) as HneP.
  pose proof (key_dW_db (i + 1) (i + 1)) as HneV.
  pose proof (not_eq_sym HneP) as HneP'. pose proof (not_eq_sym HneV) as HneV'.
  unfold layer_updated, others_untouched, update_layer.
  set (kW := key "W" (i + 1)) in *. set (kb := key "b" (i + 1)) in *.
  set (kdW := key "dW" (i + 1)) in *. set (kdb := key "db" (i + 1)) in *.
  exists (<[kb := pb']> (<[kW := pW']> P)),
         (<[kdb := vb']> (<[kdW := vW']> V)),
         (<[kdb := sb']> (<[kdW := sW']> S)).
  split; [|split; [split|split]].
  - rewrite (getitem_Some _ _ _ HVW), (getitem_Some _ _ _ HGW). cbn [mbind result_bind].
    rewrite HvW'. cbn [mbind result_bind].
    rewrite (getitem_insert_ne _ kdW kdb) by assumption.
    rewrite (getitem_Some _ _ _ HVb), (getitem_Some _ _ _ HGb). cbn [mbind result_bind].
    rewrite Hvb'. cbn [mbind result_bind].
    rewrite (getitem_insert_ne _ kdb kdW), !getitem_insert_eq by assumption.
    cbn [mbind result_bind].
    rewrite (getitem_Some _ _ _ HSW). cbn [mbind result_bind].
    rewrite HsW'. cbn [mbind result_bind].
    rewrite (getitem_insert_ne _ kdW kdb) by assumption.
    rewrite (getitem_Some _ _ _ HSb). cbn [mbind result_bind].
    rewrite Hsb'. cbn [mbind result_bind].
    rewrite (getitem_insert_ne _ kdb kdW), !getitem_insert_eq by assumption.
    cbn [mbind result_bind].
    rewrite (getitem_Some _ _ _ HPW). cbn [mbind result_bind].
    rewrite HpW'. cbn [mbind result_bind].
    rewrite (getitem_insert_ne _ kW kb) by assumption.
    rewrite (getitem_Some _ _ _ HPb). cbn [mbind result_bind].
    rewrite Hpb'. done.
  - exists pW, gW, vW, sW, pW', vW', sW', rW, cW.
    rewrite !(lookup_insert_ne _ kb kW), !(lookup_insert_ne _ kdb kdW) by assumption.
    rewrite !lookup_insert_eq. done.
  - exists pb, gb, vb, sb, pb', vb', sb', rb, cb.
    rewrite !lookup_insert_eq. done.
  - intros k Hk. destruct (Hk (i + 1)) as [? ?]; [by left|].
    by rewrite !lookup_insert_ne.
  - intros k Hk. destruct (Hk (i + 1)) as [? ?]; [by left|].
    by rewrite !lookup_insert_ne.
Qed.
End update_one_layer.

Section update_loop.
Variables (beta1 beta2 epsilon learning_rate : R) (t : nat) (G : dict).

Abbreviation slot_ok' := (slot_ok G).
Abbreviation slot_updated' := (slot_updated beta1 beta2 epsilon learning_rate t G).
Abbreviation layer_ok' := (layer_ok G).
Abbreviation layer_updated' := (layer_updated beta1 beta2 epsilon learning_rate t G).

Lemma slot_ok_transfer (P V S P1 V1 S1 : dict) kp kg :
  P1 !! kp = P !! kp → V1 !! kg = V !! kg → S1 !! kg = S !! kg →
  slot_ok' P V S kp kg → slot_ok' P1 V1 S1 kp kg.
Proof.
  intros HP HV HS (p & g & v & s & r & c & H). exists p, g, v, s, r, c.
  rewrite HP, HV, HS. done.
Qed.

Lemma slot_updated_transfer_before (P V S P1 V1 S1 P' V' S' : dict) kp kg :
  P1 !! kp = P !! kp → V1 !! kg = V !! kg → S1 !! kg = S !! kg →
  slot_updated' P1 V1 S1 P' V' S' kp kg → slot_updated' P V S P' V' S' kp kg.
Proof.
  intros HP HV HS (p & g & v & s & p' & v' & s' & r & c & H).
  exists p, g, v, s, p', v', s', r, c. rewrite <- HP, <- HV, <- HS. done.
Qed.

Lemma slot_updated_transfer_after (P V S P1 V1 S1 P' V' S' : dict) kp kg :
  P' !! kp = P1 !! kp → V' !! kg = V1 !! kg → S' !! kg = S1 !! kg →
  slot_updated' P V S P1 V1 S1 kp kg → slot_updated' P V S P' V' S' kp kg.
Proof.
  intros HP HV HS (p & g & v & s & p' & v' & s' & r & c & H).
  exists p, g, v, s, p', v', s', r, c. rewrite HP, HV, HS. done.
Qed.

(** The keys of two different layers are different. *)
Lemma layer_keys_apart (l l' : nat) :
  l ≠ l' →
  (key "W" l ≠ key "W" l' ∧ key "W" l ≠ key "b" l') ∧
  (key "b" l ≠ key "W" l' ∧ key "b" l ≠ key "b" l') ∧
  (key "dW" l ≠ key "dW" l' ∧ key "dW" l ≠ key "db" l') ∧
  (key "db" l ≠ key "dW" l' ∧ key "db" l ≠ key "db" l').
Proof.
  intros Hne.
  pose proof (key_W_b l l'). pose proof (key_W_b l' l).
  pose proof (key_dW_db l l'). pose proof (key_dW_db l' l).
  repeat split; try done; try (by apply not_eq_sym);
    intros Heq; by apply key_inj in Heq.
Qed.

Lemma others_untouched_layer (ls : list nat) (P V S P' V' S' : dict) (l : nat) :
  l ∉ ls → others_untouched ls P V S P' V' S' →
  layer_untouched P V S P' V' S' l.
Proof.
  intros Hl [HP HVS].
  assert (Hapart : ∀ l', l' ∈ ls → l ≠ l') by (intros l' Hl' ->; done).
  unfold layer_untouched.
  rewrite !HP; [|intros l' Hl'; apply (layer_keys_apart l l'); by apply Hapart..].
  destruct (HVS (key "dW" l)) as [-> ->];
    [intros l' Hl'; apply (layer_keys_apart l l'); by apply Hapart|].
  destruct (HVS (key "db" l)) as [-> ->];
    [intros l' Hl'; apply (layer_keys_apart l l'); by apply Hapart|].
  done.
Qed.

Lemma layer_ok_transfer (P V S P1 V1 S1 : dict) l :
  layer_untouched P V S P1 V1 S1 l → layer_ok' P V S l → layer_ok' P1 V1 S1 l.
Proof.
  intros (HW & Hb & HVW & HVb & HSW & HSb) [HokW Hokb].
  split; by eapply slot_ok_transfer.
Qed.

Lemma layer_updated_transfer_before (P V S P1 V1 S1 P' V' S' : dict) l :
  layer_untouched P V S P1 V1 S1 l →
  layer_updated' P1 V1 S1 P' V' S' l → layer_updated' P V S P' V' S' l.
Proof.
  intros (HW & Hb & HVW & HVb & HSW & HSb) [HupW Hupb].
  split; by eapply slot_updated_transfer_before.
Qed.

Lemma layer_updated_transfer_after (P V S P1 V1 S1 P' V' S' : dict) l :
  layer_untouched P1 V1 S1 P' V' S' l →
  layer_updated' P V S P1 V1 S1 l → layer_updated' P V S P' V' S' l.
Proof.
  intros (HW & Hb & HVW & HVb & HSW & HSb) [HupW Hupb].
  split; by eapply slot_updated_transfer_after.
Qed.

(** The loop over the layers: it returns, every layer it visits is
    updated by the rule from the arrays before the call, and no other key
    changes. *)
Lemma update_layers_spec (idx : list nat) (P V S : dict) :
  NoDup idx →
  (∀ i, i ∈ idx → layer_ok' P V S (i + 1)) →
  ∃ P' V' S',
    for_in idx (update_layer G t beta1 beta2 epsilon learning_rate) (P, V, S)
      = Ok (P', V', S') ∧
    (∀ i, i ∈ idx → layer_updated' P V S P' V' S' (i + 1)) ∧
    others_untouched ((λ i, i + 1) <$> idx) P V S P' V' S'.
Proof.
  revert P V S. induction idx as [|i idx IH]; intros P V S Hnd Hok.
  - exists P, V, S. split; [done|]. split.
    + intros i Hi. by apply elem_of_nil in Hi.
    + by split.
  - apply NoDup_cons in Hnd as [Hi Hnd].
    destruct (update_layer_spec beta1 beta2 epsilon learning_rate t G P V S i)
      as (P1 & V1 & S1 & Hrun1 & Hup1 & Hoth1); [apply Hok; by left|].
    assert (Hunt1 : ∀ j, j ∈ idx → layer_untouched P V S P1 V1 S1 (j + 1)).
    { intros j Hj. apply (others_untouched_layer [i + 1]); [|done].
      intros Hin. apply list_elem_of_singleton in Hin.
      assert (j = i) as -> by lia. done. }
    destruct (IH P1 V1 S1 Hnd) as (P' & V' & S' & Hrun & Hup & Hoth).
    { intros j Hj. apply (layer_ok_transfer P V S); [by apply Hunt1|].
      apply Hok. by right. }
    exists P', V', S'. split; [|split].
    + cbn [for_in]. rewrite Hrun1. cbn [mbind result_bind]. done.
    + intros j Hj. apply elem_of_cons in Hj as [->|Hj].
      * apply (layer_updated_transfer_after P V S P1 V1 S1); [|done].
        apply (others_untouched_layer ((λ i, i + 1) <$> idx)); [|done].
        intros Hin. apply list_elem_of_fmap in Hin as (j & Hij & Hj).
        assert (j = i) as -> by lia. done.
      * apply (layer_updated_transfer_before P V S P1 V1 S1); [by apply Hunt1|].
        by apply Hup.
    + destruct Hoth1 as [HP1 HVS1], Hoth as [HP HVS]. split.
      * intros k Hk. rewrite HP, HP1; [done|..].
        -- intros l Hl. apply list_elem_of_singleton in Hl as ->.
           apply Hk. rewrite fmap_cons. by left.
        -- intros l Hl. apply Hk. rewrite fmap_cons. by right.
      * intros k Hk.
        destruct (HVS k) as [-> ->];
          [intros l Hl; apply Hk; rewrite fmap_cons; by right|].
        apply HVS1. intros l Hl. apply list_elem_of_singleton in Hl as ->.
        apply Hk. rewrite fmap_cons. by left.
Qed.
End update_loop.

Lemma range_NoDup n : NoDup (range n).
Proof. apply NoDup_seq. Qed.

Lemma elem_of_range_succ n l : l ∈ (λ i, i + 1) <$> range n ↔ 1 ≤ l ≤ n.
Proof.
  unfold range. rewrite list_elem_of_fmap. split.
  - intros (i & -> & Hi). apply elem_of_seq in Hi. lia.
  - intros Hl. exists (l - 1). split; [lia|]. apply elem_of_seq. lia.
Qed.

(** One call of the update rule on well-formed dictionaries. *)
Lemma update_parameters_velocity_run (P G V S : dict) (epoch t : nat)
  (beta1 beta2 epsilon learning_rate decay_rate : R) :
  (1 + decay_rate * INR epoch ≠ 0)%R →
  (∀ l, 1 ≤ l ≤ size P / 2 → layer_ok G P V S l) →
  ∃ P' V' S',
    update_parameters_velocity P G epoch V S t beta1 beta2 epsilon learning_rate decay_rate
      = Ok (P', (learning_rate * (1 / (1 + decay_rate * INR epoch)))%R, V', S') ∧
    for_in (range (size P / 2)) (update_layer G t beta1 beta2 epsilon learning_rate) (P, V, S)
      = Ok (P', V', S') ∧
    (∀ l, 1 ≤ l ≤ size P / 2 →
       layer_updated beta1 beta2 epsilon learning_rate t G P V S P' V' S' l) ∧
    others_untouched ((λ i, i + 1) <$> range (size P / 2)) P V S P' V' S'.
Proof.
  intros Hdiv Hok.
  destruct (update_layers_spec beta1 beta2 epsilon learning_rate t G (range (size P / 2)) P V S)
    as (P' & V' & S' & Hrun & Hup & Hoth); [apply range_NoDup|..].
  { intros i Hi. apply Hok. apply elem_of_range_succ, list_elem_of_fmap. by exists i. }
  exists P', V', S'. split; [|split; [done|split; [|done]]].
  - unfold update_parameters_velocity. rewrite decide_False by done.
    cbn zeta. rewrite Hrun. done.
  - intros l Hl. replace l with ((l - 1) + 1) by lia. apply Hup.
    unfold range. apply elem_of_seq. lia.
Qed.

(** C1. On dictionaries that hold, for every layer, a parameter array, its
    gradient and its two accumulators of one shape, one call with a step
    counter [t >= 1] returns, and every entry of every accumulator and
    parameter is what the rule of the specification gives:
    [velocity = beta2*velocity + (1-beta2)*gradient], corrected by
    [1 - beta1^t]; [sq_velocity = beta2*sq_velocity + (1-beta2)*gradient^2],
    corrected by [1 - beta2^t];
    [param = param - learning_rate * velocity_corr / sqrt(sq_velocity_corr + epsilon)].
    The decayed [alpha = learning_rate / (1 + decay_rate * epoch)] is
    returned, and the three dictionaries returned are the same for any other
    epoch and decay rate. *)
Theorem update_parameters_velocity_spec (parameters gradients velocity svelocity : dict)
  (epoch t : nat) (beta1 beta2 epsilon learning_rate decay_rate : R) :
  1 ≤ t →
  (1 + decay_rate * INR epoch ≠ 0)%R →
  (∀ l, 1 ≤ l ≤ size parameters / 2 → layer_ok gradients parameters velocity svelocity l) →
  ∃ parameters' alpha velocity' svelocity',
    update_parameters_velocity parameters gradients epoch velocity svelocity t
      beta1 beta2 epsilon learning_rate decay_rate
      = Ok (parameters', alpha, velocity', svelocity') ∧
    alpha = (learning_rate / (1 + decay_rate * INR epoch))%R ∧
    (∀ l, 1 ≤ l ≤ size parameters / 2 →
       layer_updated beta1 beta2 epsilon learning_rate t gradients
         parameters velocity svelocity parameters' velocity' svelocity' l) ∧
    (∀ epoch' decay_rate', (1 + decay_rate' * INR epoch' ≠ 0)%R →
       ∃ alpha',
         update_parameters_velocity parameters gradients epoch' velocity svelocity t
           beta1 beta2 epsilon learning_rate decay_rate'
           = Ok (parameters', alpha', velocity', svelocity')).
Proof.
  intros _ Hdiv Hok.
  destruct (update_parameters_velocity_run parameters gradients velocity svelocity epoch t
              beta1 beta2 epsilon learning_rate decay_rate Hdiv Hok)
    as (P' & V' & S' & Hrun & Hloop & Hup & _).
  exists P', (learning_rate * (1 / (1 + decay_rate * INR epoch)))%R, V', S'.
  split; [done|]. split; [unfold Rdiv; lra|]. split; [done|].
  intros epoch' decay_rate' Hdiv'.
  destruct (update_parameters_velocity_run parameters gradients velocity svelocity epoch' t
              beta1 beta2 epsilon learning_rate decay_rate' Hdiv' Hok)
    as (P'' & V'' & S'' & Hrun' & Hloop' & _).
  rewrite Hloop in Hloop'. injection Hloop' as <- <- <-.
  eexists. exact Hrun'.
Qed.

Lemma demo_parameters_size : size demo_parameters / 2 = 1.
Proof. reflexivity. Qed.

Lemma demo_layer_ok (G : dict) :
  G !! "dW1" = Some [[4; 5]]%R ∨ G !! "dW1" = Some [[0; 0]]%R →
  G !! "db1" = Some [[6]]%R ∨ G !! "db1" = Some [[0]]%R →
  ∀ l, 1 ≤ l ≤ size demo_parameters / 2 → layer_ok G demo_parameters demo_zeros demo_zeros l.
Proof.
  intros HW Hb l Hl. rewrite demo_parameters_size in Hl.
  assert (l = 1) as -> by lia. split.
  - destruct HW as [HW|HW].
    + exists [[1; 2]]%R, [[4; 5]]%R, [[0; 0]]%R, [[0; 0]]%R, 1, 2.
      repeat split; first [done | repeat constructor].
    + exists [[1; 2]]%R, [[0; 0]]%R, [[0; 0]]%R, [[0; 0]]%R, 1, 2.
      repeat split; first [done | repeat constructor].
  - destruct Hb as [Hb|Hb].
    + exists [[3]]%R, [[6]]%R, [[0]]%R, [[0]]%R, 1, 1.
      repeat split; first [done | repeat constructor].
    + exists [[3]]%R, [[0]]%R, [[0]]%R, [[0]]%R, 1, 1.
      repeat split; first [done | repeat constructor].
Qed.

Lemma update_parameters_velocity_spec_witness :
  ∃ parameters' alpha velocity' svelocity',
    update_parameters_velocity demo_parameters demo_gradients 0 demo_zeros demo_zeros 1
      0.9 0.999 1e-8 0.0001 0.01
      = Ok (parameters', alpha, velocity', svelocity') ∧
    alpha = (0.0001 / (1 + 0.01 * INR 0))%R ∧
    (∀ l, 1 ≤ l ≤ size demo_parameters / 2 →
       layer_updated 0.9 0.999 1e-8 0.0001 1 demo_gradients
         demo_parameters demo_zeros demo_zeros parameters' velocity' svelocity' l) ∧
    (∀ epoch' decay_rate', (1 + decay_rate' * INR epoch' ≠ 0)%R →
       ∃ alpha',
         update_parameters_velocity demo_parameters demo_gradients epoch' demo_zeros demo_zeros 1
           0.9 0.999 1e-8 0.0001 decay_rate'
           = Ok (parameters', alpha', velocity', svelocity')).
Proof.
  apply (update_parameters_velocity_spec demo_parameters demo_gradients demo_zeros demo_zeros
           0 1 0.9 0.999 1e-8 0.0001 0.01).
  - lia.
  - simpl. lra.
  - apply demo_layer_ok; by left.
Defined.

(** ** A step on zero gradients *)

Lemma ndarray_ext (M N : ndarray) r c :
  has_shape r c M → has_shape r c N →
  (∀ i j, i < r → j < c → entry M i j = entry N i j) → M = N.
Proof.
  intros HM HN Hent.
  apply (list_eq_same_length _ _ r); [by destruct HN|by destruct HM|].
  intros i rowM rowN Hi HrowM HrowN.
  apply (list_eq_same_length _ _ c);
    [exact (has_shape_row _ _ _ _ _ HN HrowN)|exact (has_shape_row _ _ _ _ _ HM HrowM)|].
  intros j x y Hj Hx Hy.
  rewrite <- (entry_lookup M i j x), <- (entry_lookup N i j y); [by apply Hent|..].
  - by rewrite HrowN.
  - by rewrite HrowM.
Qed.

Lemma np_zeros_like_has_shape (M : ndarray) r c : has_shape r c M → has_shape r c (np_zeros_like M).
Proof. apply (np_map_has_shape (λ _, 0%R)). Qed.

Lemma entry_np_zeros_like (M : ndarray) r c i j :
  has_shape r c M → i < r → j < c → entry (np_zeros_like M) i j = 0%R.
Proof. apply (entry_np_map (λ _, 0%R)). Qed.

Lemma spec_update_rule_zero (beta1 beta2 epsilon learning_rate : R) (t : nat) (p : R) :
  spec_update_rule beta1 beta2 epsilon learning_rate t p 0 0 0 = (p, 0%R, 0%R).
Proof.
  unfold spec_update_rule.
  replace (beta2 * 0 + (1 - beta2) * 0)%R with 0%R by lra.
  replace (beta2 * 0 + (1 - beta2) * 0 ^ 2)%R with 0%R by (simpl; lra).
  unfold Rdiv. rewrite !Rmult_0_l, Rmult_0_r, Rmult_0_l.
  f_equal. f_equal. lra.
Qed.

Section initialize_velocity_lemmas.
Variable P : dict.

Lemma initialize_velocity_unfold :
  initialize_velocity P = for_in (range (size P / 2)) (initialize_velocity_body P) (∅, ∅).
Proof. reflexivity. Qed.

Lemma initialize_velocity_loop (idx : list nat) (V S : dict) :
  (∀ i, i ∈ idx → is_Some (P !! key "W" (i + 1)) ∧ is_Some (P !! key "b" (i + 1))) →
  ∃ V' S',
    for_in idx (initialize_velocity_body P) (V, S) = Ok (V', S') ∧
    (∀ i, i ∈ idx →
       zero_moments P V' S' (key "W" (i + 1)) (key "dW" (i + 1)) ∧
       zero_moments P V' S' (key "b" (i + 1)) (key "db" (i + 1))) ∧
    (∀ k, (∀ i, i ∈ idx → k ≠ key "dW" (i + 1) ∧ k ≠ key "db" (i + 1)) →
       V' !! k = V !! k ∧ S' !! k = S !! k).
Proof.
  revert V S. induction idx as [|i idx IH]; intros V S Hok.
  - exists V, S. split; [done|]. split; [|done].
    intros i Hi. by apply elem_of_nil in Hi.
  - destruct (Hok i) as [[pW HpW] [pb Hpb]]; [by left|].
    set (V1 := <[key "db" (i + 1) := np_zeros_like pb]>
                 (<[key "dW" (i + 1) := np_zeros_like pW]> V)).
    set (S1 := <[key "db" (i + 1) := np_zeros_like pb]>
                 (<[key "dW" (i + 1) := np_zeros_like pW]> S)).
    destruct (IH V1 S1) as (V' & S' & Hrun & Hz & Hoth).
    { intros j Hj. apply Hok. by right. }
    exists V', S'. split; [|split].
    + assert (Hbody : initialize_velocity_body P i (V, S) = Ok (V1, S1)).
      { unfold initialize_velocity_body.
        by rewrite !(getitem_Some _ _ _ HpW), !(getitem_Some _ _ _ Hpb). }
      cbn [for_in]. rewrite Hbody. exact Hrun.
    + intros j Hj. destruct (decide (j ∈ idx)) as [Hin|Hnin]; [by apply Hz|].
      apply elem_of_cons in Hj as [->|Hj]; [|done].
      assert (Hfresh : ∀ i0, i0 ∈ idx →
                (key "dW" (i + 1) ≠ key "dW" (i0 + 1) ∧ key "dW" (i + 1) ≠ key "db" (i0 + 1)) ∧
                (key "db" (i + 1) ≠ key "dW" (i0 + 1) ∧ key "db" (i + 1) ≠ key "db" (i0 + 1))).
      { intros i0 Hi0. apply (layer_keys_apart (i + 1) (i0 + 1)).
        intros Heq. assert (i0 = i) as -> by lia. done. }
      pose proof (key_dW_db (i + 1) (i + 1)) as Hne.
      destruct (Hoth (key "dW" (i + 1))) as [HVW HSW]; [intros i0 Hi0; by apply Hfresh|].
      destruct (Hoth (key "db" (i + 1))) as [HVb HSb]; [intros i0 Hi0; by apply Hfresh|].
      split; intros p Hp.
      * rewrite HpW in Hp. injection Hp as <-. rewrite HVW, HSW. unfold V1, S1.
        rewrite !(lookup_insert_ne _ (key "db" (i + 1))) by (by apply not_eq_sym).
        by rewrite !lookup_insert_eq.
      * rewrite Hpb in Hp. injection Hp as <-. rewrite HVb, HSb. unfold V1, S1.
        by rewrite !lookup_insert_eq.
    + intros k Hk. destruct (Hoth k) as [-> ->]; [intros j Hj; apply Hk; by right|].
      destruct (Hk i) as [? ?]; [by left|]. unfold V1, S1.
      by rewrite !lookup_insert_ne.
Qed.
End initialize_velocity_lemmas.

(** A slot with a zero gradient and zero accumulators is left as it is. *)
Lemma slot_updated_zero (beta1 beta2 epsilon learning_rate : R) (t : nat)
  (G P V S P' V' S' : dict) (kp kg : string) :
  slot_updated beta1 beta2 epsilon learning_rate t G P V S P' V' S' kp kg →
  zero_gradient P G kp kg → zero_moments P V S kp kg →
  P' !! kp = P !! kp ∧ V' !! kg = V !! kg ∧ S' !! kg = S !! kg.
Proof.
  intros (p & g & v & s & p' & v' & s' & r & c & HP & HG & HV & HS & HP' & HV' & HS'
          & Hp & Hp' & Hv' & Hs' & Hent) (p0 & r0 & c0 & HP0 & _ & HG0) Hzero.
  rewrite HP in HP0. injection HP0 as <-.
  destruct (Hzero p HP) as [HV0 HS0].
  rewrite HG in HG0. injection HG0 as ->.
  rewrite HV in HV0. injection HV0 as ->.
  rewrite HS in HS0. injection HS0 as ->.
  pose proof (np_zeros_like_has_shape p r c Hp) as Hz.
  assert (Hent' : ∀ i j, i < r → j < c →
            entry p' i j = entry p i j ∧ entry v' i j = 0%R ∧ entry s' i j = 0%R).
  { intros i j Hi Hj. specialize (Hent i j Hi Hj).
    rewrite (entry_np_zeros_like p r c) in Hent by done.
    rewrite spec_update_rule_zero in Hent. by injection Hent. }
  rewrite HP, HP', HV, HV', HS, HS'.
  split; [|split]; f_equal; apply (ndarray_ext _ _ r c); try done.
  - intros i j Hi Hj. by apply Hent'.
  - intros i j Hi Hj. rewrite (entry_np_zeros_like p r c) by done. by apply Hent'.
  - intros i j Hi Hj. rewrite (entry_np_zeros_like p r c) by done. by apply Hent'.
Qed.

(** C6. With the accumulators as [initialize_velocity] makes them (all
    zero), every gradient entry zero and [t = 1], one call of the update rule
    returns the same parameters: the accumulators stay zero and the step is
    exactly zero.  The divisors [1 - beta1], [1 - beta2] and
    [sqrt(0 + epsilon)] are non-zero. *)
Theorem zero_gradient_step (parameters gradients : dict) (epoch : nat)
  (beta1 beta2 epsilon learning_rate decay_rate : R) :
  (1 + decay_rate * INR epoch ≠ 0)%R →
  beta1 ≠ 1%R → beta2 ≠ 1%R → (0 < epsilon)%R →
  (∀ l, 1 ≤ l ≤ size parameters / 2 →
     zero_gradient parameters gradients (key "W" l) (key "dW" l) ∧
     zero_gradient parameters gradients (key "b" l) (key "db" l)) →
  ∃ velocity svelocity alpha,
    initialize_velocity parameters = Ok (velocity, svelocity) ∧
    (∀ l, 1 ≤ l ≤ size parameters / 2 →
       zero_moments parameters velocity svelocity (key "W" l) (key "dW" l) ∧
       zero_moments parameters velocity svelocity (key "b" l) (key "db" l)) ∧
    update_parameters_velocity parameters gradients epoch velocity svelocity 1
      beta1 beta2 epsilon learning_rate decay_rate
      = Ok (parameters, alpha, velocity, svelocity).
Proof.
  intros Hdiv _ _ _ Hzero. set (L := size parameters / 2) in *.
  destruct (initialize_velocity_loop parameters (range L) ∅ ∅)
    as (V0 & S0 & Hinit & Hz & _).
  { intros i Hi. destruct (Hzero (i + 1)) as [(pW & ? & ? & -> & _) (pb & ? & ? & -> & _)].
    - apply elem_of_range_succ, list_elem_of_fmap. by exists i.
    - by split. }
  assert (Hz' : ∀ l, 1 ≤ l ≤ L →
            zero_moments parameters V0 S0 (key "W" l) (key "dW" l) ∧
            zero_moments parameters V0 S0 (key "b" l) (key "db" l)).
  { intros l Hl. replace l with ((l - 1) + 1) by lia. apply Hz.
    unfold range. apply elem_of_seq. lia. }
  assert (Hok : ∀ l, 1 ≤ l ≤ L → layer_ok gradients parameters V0 S0 l).
  { intros l Hl.
    destruct (Hzero l Hl) as [(pW & rW & cW & HPW & HsW & HGW) (pb & rb & cb & HPb & Hsb & HGb)].
    destruct (Hz' l Hl) as [HzW Hzb].
    destruct (HzW pW HPW) as [HVW HSW]. destruct (Hzb pb HPb) as [HVb HSb].
    split.
    - exists pW, (np_zeros_like pW), (np_zeros_like pW), (np_zeros_like pW), rW, cW.
      split_and!; first [done | by apply np_zeros_like_has_shape].
    - exists pb, (np_zeros_like pb), (np_zeros_like pb), (np_zeros_like pb), rb, cb.
      split_and!; first [done | by apply np_zeros_like_has_shape]. }
  destruct (update_parameters_velocity_run parameters gradients V0 S0 epoch 1
              beta1 beta2 epsilon learning_rate decay_rate Hdiv Hok)
    as (P' & V' & S' & Hrun & _ & Hup & [HothP HothVS]).
  fold L in HothP, HothVS.
  assert (Hfix : ∀ l, 1 ≤ l ≤ L → layer_untouched parameters V0 S0 P' V' S' l).
  { intros l Hl. destruct (Hup l Hl) as [HupW Hupb].
    destruct (Hzero l Hl) as [HzgW Hzgb]. destruct (Hz' l Hl) as [HzW Hzb].
    destruct (slot_updated_zero _ _ _ _ _ _ _ _ _ _ _ _ _ _ HupW HzgW HzW) as (? & ? & ?).
    destruct (slot_updated_zero _ _ _ _ _ _ _ _ _ _ _ _ _ _ Hupb Hzgb Hzb) as (? & ? & ?).
    done. }
  assert (HP : P' = parameters).
  { apply map_eq. intros k.
    destruct (decide (Exists (λ l, k = key "W" l ∨ k = key "b" l)
                        ((λ i, i + 1) <$> range L))) as [Hex|Hnex].
    - apply Exists_exists in Hex as (l & Hl & Hk). apply elem_of_range_succ in Hl.
      destruct (Hfix l Hl) as (HW & Hb & _). by destruct Hk as [-> | ->].
    - apply HothP. intros l Hl. split; intros ->; apply Hnex, Exists_exists; exists l; tauto. }
  assert (HVS : V' = V0 ∧ S' = S0).
  { split; apply map_eq; intros k;
      (destruct (decide (Exists (λ l, k = key "dW" l ∨ k = key "db" l)
                          ((λ i, i + 1) <$> range L))) as [Hex|Hnex];
       [ apply Exists_exists in Hex as (l & Hl & Hk); apply elem_of_range_succ in Hl;
         destruct (Hfix l Hl) as (_ & _ & HVW & HVb & HSW & HSb); by destruct Hk as [-> | ->]
       | apply HothVS; intros l Hl; split; intros ->; apply Hnex, Exists_exists; exists l; tauto ]). }
  destruct HVS as [-> ->]. rewrite HP in Hrun.
  exists V0, S0. eexists. split; [done|]. split; [done|]. exact Hrun.
Qed.

Lemma zero_gradient_step_witness :
  ∃ velocity svelocity alpha,
    initialize_velocity demo_parameters = Ok (velocity, svelocity) ∧
    (∀ l, 1 ≤ l ≤ size demo_parameters / 2 →
       zero_moments demo_parameters velocity svelocity (key "W" l) (key "dW" l) ∧
       zero_moments demo_parameters velocity svelocity (key "b" l) (key "db" l)) ∧
    update_parameters_velocity demo_parameters demo_zeros 0 velocity svelocity 1
      0.9 0.999 1e-8 0.0001 0.01
      = Ok (demo_parameters, alpha, velocity, svelocity).
Proof.
  apply (zero_gradient_step demo_parameters demo_zeros 0 0.9 0.999 1e-8 0.0001 0.01).
  - simpl. lra.
  - lra.
  - lra.
  - lra.
  - intros l Hl. rewrite demo_parameters_size in Hl. assert (l = 1) as -> by lia. split.
    + exists [[1; 2]]%R, 1, 2. repeat split; first [done | repeat constructor].
    + exists [[3]]%R, 1, 1. repeat split; first [done | repeat constructor].
Defined.

(** ** Loops and binds *)

Lemma bind_Ok_inv {A B} (m : result A) (f : A → result B) (y : B) :
  m ≫= f = Ok y → ∃ x, m = Ok x ∧ f x = Ok y.
Proof. destruct m as [x|e]; [|done]. intros H. by exists x. Qed.

Lemma for_in_app {A S} (xs ys : list A) (body : A → S → result S) (s : S) :
  for_in (xs ++ ys) body s = for_in xs body s ≫= for_in ys body.
Proof.
  revert s. induction xs as [|x xs IH]; intros s; [done|].
  cbn [for_in app]. destruct (body x s) as [s'|e]; [|done].
  cbn [mbind result_bind]. apply IH.
Qed.

Lemma range_S n : range (S n) = range n ++ [n].
Proof. unfold range. by rewrite seq_S. Qed.

Lemma for_in_range_S {St} n (body : nat → St → result St) (s : St) :
  for_in (range (S n)) body s = for_in (range n) body s ≫= body n.
Proof.
  rewrite range_S, for_in_app. destruct (for_in (range n) body s) as [s'|e]; [|done].
  cbn [mbind result_bind for_in]. by destruct (body n s').
Qed.

(** ** Initialisation on positive dimensions *)

Section initialisation.
Variable rng_state : Type.
Variable np_random_seed : nat → rng_state.
Variable np_random_normal : rng_state → R → R → nat * nat → ndarray * rng_state.

Lemma initialize_layers_spec (net_dims : list nat) (n : nat) (s0 : rng_state) :
  (∀ l, l < n → nth l net_dims 0 ≠ 0) →
  ∃ P s,
    for_in (range n) (initialize_layer rng_state np_random_normal net_dims) (∅, s0)
      = Ok (P, s) ∧
    size P = 2 * n ∧ ∀ k, is_Some (P !! k) ↔ layer_keys n k.
Proof.
  induction n as [|n IH]; intros Hpos.
  - exists ∅, s0. split; [done|]. split; [done|]. intros k. split.
    + intros [x Hx]. by rewrite lookup_empty in Hx.
    + intros (l & Hl & _). lia.
  - destruct IH as (P & s & Hrun & Hsize & Hdom); [intros l Hl; apply Hpos; lia|].
    rewrite for_in_range_S, Hrun. cbn [mbind result_bind].
    unfold initialize_layer. rewrite decide_False by (apply Hpos; lia).
    destruct (np_random_normal s _ _ _) as [W s1].
    destruct (np_random_normal s1 _ _ _) as [b s2].
    eexists _, _. split; [done|].
    assert (HW : P !! key "W" (n + 1) = None).
    { apply eq_None_not_Some. intros Hsome. apply Hdom in Hsome as (l & Hl & [Hk|Hk]).
      - apply key_inj in Hk. lia.
      - by apply key_W_b in Hk. }
    assert (Hb : <[key "W" (n + 1) := W]> P !! key "b" (n + 1) = None).
    { rewrite lookup_insert_ne by apply key_W_b.
      apply eq_None_not_Some. intros Hsome. apply Hdom in Hsome as (l & Hl & [Hk|Hk]).
      - symmetry in Hk. by apply key_W_b in Hk.
      - apply key_inj in Hk. lia. }
    split.
    + rewrite (map_size_insert_None _ _ _ Hb), (map_size_insert_None _ _ _ HW). lia.
    + intros k. rewrite !lookup_insert_is_Some, Hdom. unfold layer_keys. split.
      * intros [<-|[_ [<-|[_ (l & Hl & Hk)]]]].
        -- exists (n + 1). split; [lia|by right].
        -- exists (n + 1). split; [lia|by left].
        -- exists l. split; [lia|done].
      * intros (l & Hl & Hk).
        destruct (decide (l = n + 1)) as [->|Hne].
        -- destruct Hk as [->| ->]; [|by left].
           right. split; [apply not_eq_sym, key_W_b|]. by left.
        -- destruct (decide (k = key "b" (n + 1))) as [->|?]; [by left|].
           right. split; [done|].
           destruct (decide (k = key "W" (n + 1))) as [->|?]; [by left|].
           right. split; [done|]. exists l. split; [lia|done].
Qed.

(** The two initialisations that precede the partition of the data. *)
Lemma initialisation_ok (net_dims : list nat) :
  Forall (λ d, 0 < d) net_dims →
  ∃ P V S,
    initialize_multilayer_weights rng_state np_random_seed np_random_normal net_dims = Ok P ∧
    initialize_velocity P = Ok (V, S).
Proof.
  intros Hpos.
  destruct (initialize_layers_spec net_dims (length net_dims - 1) (np_random_seed 0))
    as (P & s & Hrun & Hsize & Hdom).
  { intros l Hl.
    destruct (lookup_lt_is_Some_2 net_dims l) as [d Hd]; [lia|].
    rewrite (nth_lookup_Some _ _ _ _ Hd).
    pose proof (Forall_lookup_1 _ _ _ _ Hpos Hd) as Hdpos. simpl in Hdpos. lia. }
  destruct (initialize_velocity_loop P (range (size P / 2)) ∅ ∅) as (V & S & HV & _).
  { intros i Hi. unfold range in Hi. apply elem_of_seq in Hi.
    assert (Hhalf : size P / 2 = length net_dims - 1).
    { rewrite Hsize, Nat.mul_comm. apply Nat.div_mul. lia. }
    split; apply Hdom; exists (i + 1); (split; [lia|]); [by left|by right]. }
  exists P, V, S. split.
  - unfold initialize_multilayer_weights. cbn zeta. rewrite Hrun. done.
  - by rewrite initialize_velocity_unfold.
Qed.
End initialisation.

(** ** A partition that does not divide *)

(** C9. With positive layer dimensions (so that the initialisation that
    precedes it succeeds) and a number of training columns that [batch_size]
    does not divide, the run ends with the exception [np.split] raises on the
    training matrix: the [ValueError] of an unequal division (for a
    [batch_size] of zero, the [ZeroDivisionError] of [N % sections]).  The
    partition comes before the loop over the epochs, so no forward pass and
    no update has run. *)
Theorem non_divisible_partition_fails (rng_state : Type)
  (np_random_seed : nat → rng_state)
  (np_random_normal : rng_state → R → R → nat * nat → ndarray * rng_state)
  (X : ndarray) (Y : label_array) (validation_data : ndarray)
  (validation_label : label_array) (net_dims : list nat) (num_iterations : nat)
  (learning_rate decay_rate : R) (batch_size : nat) :
  Forall (λ d, 0 < d) net_dims →
  shape1 X mod batch_size ≠ 0 →
  ∃ e,
    np_split X batch_size = Raise e ∧
    multi_layer_network rng_state np_random_seed np_random_normal
      X Y validation_data validation_label net_dims num_iterations
      learning_rate decay_rate batch_size = Raise e ∧
    (0 < batch_size → e = ValueError split_msg).
Proof.
  intros Hdims Hmod.
  destruct (initialisation_ok rng_state np_random_seed np_random_normal net_dims Hdims)
    as (P & V & S & HP & HVS).
  assert (Hsplit : ∃ e, np_split X batch_size = Raise e ∧
                        (0 < batch_size → e = ValueError split_msg)).
  { unfold np_split. destruct (decide (batch_size = 0)) as [->|Hbs].
    - exists ZeroDivisionError. split; [done|lia].
    - rewrite decide_True by done. by exists (ValueError split_msg). }
  destruct Hsplit as (e & Hsplit & He). exists e. split; [done|]. split; [|done].
  unfold multi_layer_network. rewrite HP. cbn [mbind result_bind]. cbn zeta.
  rewrite HVS. cbn [mbind result_bind]. rewrite Hsplit. done.
Qed.

Lemma non_divisible_partition_fails_witness :
  ∃ e,
    np_split [[1; 2; 3]]%R 2 = Raise e ∧
    multi_layer_network () (λ _, ()) (λ s _ _ '(r, c), (np_zeros r c, s))
      [[1; 2; 3]]%R [[0; 1; 2]%Z] [[4]]%R [[1%Z]] [1; 10] 5 0.01 0.01 2 = Raise e ∧
    (0 < 2 → e = ValueError split_msg).
Proof.
  apply (non_divisible_partition_fails () (λ _, ()) (λ s _ _ '(r, c), (np_zeros r c, s))
           [[1; 2; 3]]%R [[0; 1; 2]%Z] [[4]]%R [[1%Z]] [1; 10] 5 0.01 0.01 2).
  - repeat constructor.
  - simpl. lia.
Defined.

(** ** The cost sequences of a training run *)

Lemma np_split_length {A} (M : list (list A)) (sections : nat) chunks :
  np_split M sections = Ok chunks → length chunks = sections ∧ 0 < sections.
Proof.
  unfold np_split. case_decide; [done|]. case_decide; [done|].
  intros [= <-]. unfold range. rewrite length_fmap, length_seq. lia.
Qed.

Section cost_sequences.
Variables (X_batch_size : list ndarray) (Y_batch_size : list label_array).
Variables (B0 : ndarray) (validation_label : label_array).
Variables (learning_rate decay_rate : R).

Abbreviation batch_step' :=
  (batch_step X_batch_size Y_batch_size learning_rate decay_rate).
Abbreviation epoch_step' :=
  (epoch_step X_batch_size Y_batch_size B0 validation_label learning_rate decay_rate).
Abbreviation epoch_trace' :=
  (epoch_trace X_batch_size Y_batch_size B0 validation_label learning_rate decay_rate).

Lemma batch_step_inv (ii jj : nat) (st st' : train_state) :
  batch_step' ii jj st = Ok st' →
  ∃ Xjj Yjj Z caches A cache_cross cost,
    X_batch_size !! jj = Some Xjj ∧ Y_batch_size !! jj = Some Yjj ∧
    multi_layer_forward Xjj (st_parameters st) = Ok (Z, caches) ∧
    softmax_cross_entropy_loss Z num_classes Yjj = Ok (A, cache_cross, cost) ∧
    st_cost st' = Some cost.
Proof.
  unfold batch_step. intros H.
  apply bind_Ok_inv in H as (Xjj & HX & H).
  apply bind_Ok_inv in H as ([Z caches] & Hfwd & H).
  apply bind_Ok_inv in H as (Yjj & HY & H).
  apply bind_Ok_inv in H as ([[A cache_cross] cost] & Hloss & H).
  apply bind_Ok_inv in H as (dZ & HdZ & H).
  apply bind_Ok_inv in H as (gradients & Hgrad & H).
  apply bind_Ok_inv in H as ([[[parameters alpha] velocity] svelocity] & Hupd & H).
  injection H as <-.
  destruct (X_batch_size !! jj) as [x|]; [|done]. injection HX as ->.
  destruct (Y_batch_size !! jj) as [y|]; [|done]. injection HY as ->.
  by exists Xjj, Yjj, Z, caches, A, cache_cross, cost.
Qed.

Lemma epoch_step_spec (ii : nat) (st st' : train_state)
  (costs costs' vcosts vcosts' : list (option R)) :
  0 < length X_batch_size →
  epoch_step' ii (st, costs, vcosts) = Ok (st', costs', vcosts') →
  ∃ cost vcost,
    costs' = costs ++ [cost] ∧ vcosts' = vcosts ++ [vcost] ∧
    epoch_trace' ii st st' cost vcost.
Proof.
  intros Hlen H. unfold epoch_step in H.
  apply bind_Ok_inv in H as (st1 & Hbatches & H).
  apply bind_Ok_inv in H as (cost & Hcost & H).
  apply bind_Ok_inv in H as ([VZ vcaches] & Hvfwd & H).
  apply bind_Ok_inv in H as ([[B vcache_cross] vcost] & Hvloss & H).
  apply bind_Ok_inv in H as (u & _ & H).
  injection H as <- <- <-.
  exists cost, vcost. split; [done|]. split; [done|].
  replace (length X_batch_size) with (S (length X_batch_size - 1)) in Hbatches by lia.
  rewrite for_in_range_S in Hbatches.
  apply bind_Ok_inv in Hbatches as (st_last & Hfirst & Hlast).
  destruct (batch_step_inv _ _ _ _ Hlast)
    as (X_last & Y_last & Z_last & caches & A & cache_cross & cost_last
        & HX & HY & Hfwd & Hloss & Hc).
  rewrite Hc in Hcost. injection Hcost as ->.
  by exists st_last, X_last, Y_last, Z_last, caches, A, cache_cross, VZ, vcaches,
    B, vcache_cross.
Qed.

(** The loop over the epochs: one state per epoch boundary, one cost and
    one validation cost per epoch. *)
Lemma epochs_spec (E : nat) (st0 stE : train_state) (costs vcosts : list (option R)) :
  0 < length X_batch_size →
  for_in (range E) epoch_step' (st0, [], []) = Ok (stE, costs, vcosts) →
  length costs = E ∧ length vcosts = E ∧
  ∃ sts : list train_state,
    length sts = E + 1 ∧ sts !! 0 = Some st0 ∧ sts !! E = Some stE ∧
    ∀ ii, ii < E →
      ∃ st st' cost vcost,
        sts !! ii = Some st ∧ sts !! (ii + 1) = Some st' ∧
        costs !! ii = Some cost ∧ vcosts !! ii = Some vcost ∧
        epoch_trace' ii st st' cost vcost.
Proof.
  intros Hlen. revert stE costs vcosts.
  induction E as [|E IH]; intros stE costs vcosts Hrun.
  - injection Hrun as <- <- <-. split; [done|]. split; [done|].
    exists [st0]. split; [done|]. split; [done|]. split; [done|]. intros; lia.
  - rewrite for_in_range_S in Hrun.
    apply bind_Ok_inv in Hrun as ([[st1 costs1] vcosts1] & Hrun1 & Hstep).
    destruct (IH _ _ _ Hrun1) as (Hc1 & Hv1 & sts & Hsts & Hsts0 & HstsE & Hep).
    destruct (epoch_step_spec _ _ _ _ _ _ _ Hlen Hstep)
      as (cost & vcost & -> & -> & Htrace).
    split; [rewrite length_app; simpl; lia|].
    split; [rewrite length_app; simpl; lia|].
    exists (sts ++ [stE]). split; [rewrite length_app; simpl; lia|].
    split; [rewrite lookup_app_l by lia; done|].
    split.
    { rewrite lookup_app_r by lia. by replace (S E - length sts) with 0 by lia. }
    intros ii Hii. destruct (decide (ii = E)) as [->|Hne].
    + exists st1, stE, cost, vcost.
      split; [rewrite lookup_app_l by lia; done|].
      split.
      { rewrite lookup_app_r by lia. by replace (E + 1 - length sts) with 0 by lia. }
      split.
      { rewrite lookup_app_r by lia. by replace (E - length costs1) with 0 by lia. }
      split; [|done].
      rewrite lookup_app_r by lia. by replace (E - length vcosts1) with 0 by lia.
    + destruct (Hep ii) as (st & st' & c & vc & Hs & Hs' & Hcs & Hvcs & Htr); [lia|].
      exists st, st', c, vc.
      rewrite !lookup_app_l by lia. done.
Qed.
End cost_sequences.

(** ** A run on well-shaped data returns *)

(** *** Shapes through one layer *)

Lemma has_shape_inj {A} (M : list (list A)) r c r' c' :
  has_shape r c M → has_shape r' c' M → 0 < r → r = r' ∧ c = c'.
Proof.
  intros H1 H2 Hr.
  pose proof (has_shape_shape0 _ _ _ H1). pose proof (has_shape_shape0 _ _ _ H2).
  assert (r = r') as <- by congruence. split; [done|].
  rewrite <- (has_shape_shape1 _ _ _ H1), <- (has_shape_shape1 _ _ _ H2); done.
Qed.

Lemma broadcast2_col_ok f (A B : ndarray) r c :
  has_shape r c A → has_shape r 1 B → 0 < r →
  ∃ C, broadcast2 f A B = Ok C ∧ has_shape r c C.
Proof.
  intros HA HB Hr. unfold broadcast2.
  rewrite (has_shape_shape0 _ _ _ HA), (has_shape_shape0 _ _ _ HB), broadcast_dim_same.
  rewrite (has_shape_shape1 _ _ _ HA), (has_shape_shape1 _ _ _ HB), broadcast_dim_1_r by lia.
  eexists. split; [done|]. apply tabulate_has_shape.
Qed.

Lemma linear_forward_ok (A W b : ndarray) n p m :
  has_shape p m A → has_shape n p W → has_shape n 1 b → 0 < n → 0 < p →
  ∃ Z, linear_forward A W b = Ok (Z, {| lin_A := A |}) ∧ has_shape n m Z.
Proof.
  intros HA HW Hb Hn Hp. unfold linear_forward.
  destruct (np_dot_spec W A n p m HW HA Hn Hp) as (WA & -> & HWA & _).
  cbn [mbind result_bind].
  destruct (broadcast2_col_ok Rplus WA b n m HWA Hb Hn) as (Z & -> & HZ).
  by exists Z.
Qed.

Lemma layer_forward_ok (A_prev W b : ndarray) (activation : string) n p m :
  has_shape p m A_prev → has_shape n p W → has_shape n 1 b → 0 < n → 0 < p →
  activation = "relu" ∨ activation = "linear" →
  ∃ A Z, layer_forward A_prev W b activation
         = Ok (A, {| lin_cache_of := {| lin_A := A_prev |};
                     act_cache_of := {| cache_Z := Z |} |}) ∧
    has_shape n m A ∧ has_shape n m Z.
Proof.
  intros HA HW Hb Hn Hp Hact. unfold layer_forward.
  destruct (linear_forward_ok A_prev W b n p m HA HW Hb Hn Hp) as (Z & -> & HZ).
  cbn [mbind result_bind]. destruct Hact as [-> | ->].
  - exists (np_map (Rmax 0) Z), Z. split; [done|]. split; [|done].
    by apply np_map_has_shape.
  - exists Z, Z. by split.
Qed.

Lemma relu_der_ok (dA Z : ndarray) r c :
  has_shape r c dA → has_shape r c Z →
  ∃ dZ, relu_der dA {| cache_Z := Z |} = Ok dZ ∧ has_shape r c dZ.
Proof.
  intros HdA HZ. unfold relu_der, setitem_mask. cbn [cache_Z].
  pose proof (np_less_has_shape r c Z 0%R HZ) as Hmask.
  rewrite decide_True by (by eapply has_shape_np_shape).
  eexists. split; [done|]. by apply zip_with2_has_shape.
Qed.

Lemma linear_backward_ok (dZ A_prev W b : ndarray) n m p :
  has_shape n m dZ → has_shape p m A_prev → has_shape n p W →
  0 < n → 0 < m → 0 < p →
  ∃ dA_prev dW db,
    linear_backward dZ {| lin_A := A_prev |} W b = Ok (dA_prev, dW, db) ∧
    has_shape p m dA_prev ∧ has_shape n p dW ∧ has_shape n 1 db.
Proof.
  intros HdZ HA HW Hn Hm Hp.
  pose proof (np_T_has_shape W n p HW Hn) as HWT.
  pose proof (np_T_has_shape A_prev p m HA Hp) as HAT.
  destruct (np_dot_spec (np_T W) dZ p n m HWT HdZ Hp Hn) as (dA & HdA & HdAs & _).
  destruct (np_dot_spec dZ (np_T A_prev) n m p HdZ HAT Hn Hm) as (P & HP & HPs & _).
  destruct (np_sum_axis1_spec dZ n m HdZ) as [HSs _].
  unfold linear_backward. cbn [lin_A]. rewrite HdA. cbn [mbind result_bind].
  rewrite HP. cbn [mbind result_bind].
  do 3 eexists. split; [done|]. split; [done|].
  split; by apply np_map_has_shape.
Qed.

Lemma layer_backward_ok (dA A_prev Z W b : ndarray) (activation : string) n m p :
  has_shape n m dA → has_shape p m A_prev → has_shape n m Z → has_shape n p W →
  0 < n → 0 < m → 0 < p →
  activation = "relu" ∨ activation = "linear" →
  ∃ dA_prev dW db,
    layer_backward dA {| lin_cache_of := {| lin_A := A_prev |};
                         act_cache_of := {| cache_Z := Z |} |} W b activation
      = Ok (dA_prev, dW, db) ∧
    has_shape p m dA_prev ∧ has_shape n p dW ∧ has_shape n 1 db.
Proof.
  intros HdA HA HZ HW Hn Hm Hp Hact. unfold layer_backward.
  cbn [lin_cache_of act_cache_of]. destruct Hact as [-> | ->].
  - rewrite !decide_False by done. rewrite decide_True by done.
    destruct (relu_der_ok dA Z n m HdA HZ) as (dZ & -> & HdZ).
    cbn [mbind result_bind]. by apply linear_backward_ok.
  - rewrite !decide_False by done. rewrite decide_True by done.
    cbn [mbind result_bind]. by apply linear_backward_ok.
Qed.

(** *** Loops with an invariant *)

Lemma for_in_seq_invariant {St} (I : nat → St → Prop) (a n : nat)
  (body : nat → St → result St) (s : St) :
  I a s →
  (∀ i s, a ≤ i < a + n → I i s → ∃ s', body i s = Ok s' ∧ I (S i) s') →
  ∃ s', for_in (seq a n) body s = Ok s' ∧ I (a + n) s'.
Proof.
  revert a s. induction n as [|n IH]; intros a s Hs Hstep.
  - exists s. split; [done|]. by rewrite Nat.add_0_r.
  - destruct (Hstep a s) as (s1 & Hbody & Hs1); [lia|done|].
    destruct (IH (S a) s1 Hs1) as (s' & Hrun & Hs').
    { intros i s2 Hi. apply Hstep. lia. }
    exists s'. split.
    + cbn [seq for_in]. rewrite Hbody. done.
    + by replace (a + S n) with (S a + n) by lia.
Qed.

Lemma for_in_rev_seq_invariant {St} (K : nat → St → Prop) (n : nat)
  (body : nat → St → result St) (s : St) :
  K n s →
  (∀ l s, 1 ≤ l ≤ n → K l s → ∃ s', body l s = Ok s' ∧ K (l - 1) s') →
  ∃ s', for_in (reverse (seq 1 n)) body s = Ok s' ∧ K 0 s'.
Proof.
  revert s. induction n as [|n IH]; intros s Hs Hstep.
  - by exists s.
  - rewrite seq_S, reverse_snoc. cbn [for_in].
    destruct (Hstep (S n) s) as (s1 & Hbody & Hs1); [lia|done|].
    change (1 + n) with (S n). rewrite Hbody. cbn [mbind result_bind].
    replace (S n - 1) with n in Hs1 by lia.
    apply (IH s1 Hs1). intros l s2 Hl. apply Hstep. lia.
Qed.

(** *** Shapes through the network *)

Section network_shapes.
Variable dims : list nat.
Hypothesis dims_pos : Forall (λ d, 0 < d) dims.

Lemma dim_pos l : l ≤ num_layers dims → 1 ≤ num_layers dims → 0 < dim dims l.
Proof using dims_pos.
  unfold num_layers, dim. intros Hl HL.
  destruct (lookup_lt_is_Some_2 dims l) as [d Hd]; [lia|].
  rewrite (nth_lookup_Some _ _ _ _ Hd).
  by apply (Forall_lookup_1 _ _ _ _ dims_pos Hd).
Qed.

Lemma multi_layer_forward_ok (P : dict) (X : ndarray) (m : nat) :
  wf_parameters dims P → 1 ≤ num_layers dims →
  has_shape (dim dims 0) m X →
  ∃ AL caches,
    multi_layer_forward X P = Ok (AL, caches) ∧
    has_shape (dim dims (num_layers dims)) m AL ∧ wf_caches dims m caches.
Proof using dims_pos.
  intros [Hsize HP] HL HX. unfold multi_layer_forward. rewrite Hsize.
  set (L := num_layers dims) in *.
  set (I := λ (i : nat) (s : ndarray * list cache),
         has_shape (dim dims (i - 1)) m s.1 ∧ length s.2 = i - 1 ∧
         ∀ l c, s.2 !! l = Some c →
           has_shape (dim dims l) m (lin_A (lin_cache_of c)) ∧
           has_shape (dim dims (l + 1)) m (cache_Z (act_cache_of c))).
  assert (Hstep : ∀ (act : string) i (s : ndarray * list cache),
            1 ≤ i ≤ L → act = "relu" ∨ act = "linear" → I i s →
            ∃ s', (W ← getitem P (key "W" i);
                   b ← getitem P (key "b" i);
                   '(A, cache) ← layer_forward s.1 W b act;
                   Ok (A, s.2 ++ [cache])) = Ok s' ∧ I (S i) s').
  { intros act i [A caches] Hi Hact (HA & Hlen & Hcaches). cbn [fst snd] in *.
    destruct (HP i Hi) as (W & b & HW & Hb & HWs & Hbs).
    rewrite (getitem_Some _ _ _ HW), (getitem_Some _ _ _ Hb). cbn [mbind result_bind].
    destruct (layer_forward_ok A W b act (dim dims i) (dim dims (i - 1)) m)
      as (A' & Z & -> & HA' & HZ); [done..|apply dim_pos; lia|apply dim_pos; lia|done|].
    cbn [mbind result_bind]. eexists. split; [done|].
    unfold I. cbn [fst snd]. replace (S i - 1) with i by lia.
    split; [done|]. split; [rewrite length_app; simpl; lia|].
    intros l c Hl. apply lookup_app_Some in Hl as [Hl|[Hge Hl]]; [by apply Hcaches|].
    rewrite Hlen in Hl, Hge.
    apply list_lookup_singleton_Some in Hl as [Hl0 <-]. cbn [lin_cache_of act_cache_of lin_A cache_Z].
    assert (l = i - 1) as -> by lia. replace (i - 1 + 1) with i by lia. done. }
  destruct (for_in_seq_invariant I 1 (L - 1)
              (λ l '(A, caches),
                 W ← getitem P (key "W" l);
                 b ← getitem P (key "b" l);
                 '(A, cache) ← layer_forward A W b "relu";
                 Ok (A, caches ++ [cache])) (X, []))
    as ([A caches] & Hrun & HI).
  { unfold I. cbn [fst snd]. split; [done|]. split; [done|]. intros l c Hl. done. }
  { intros i [A caches] Hi HI. apply (Hstep "relu" i (A, caches)); [lia|by left|done]. }
  unfold range2. rewrite Hrun. cbn [mbind result_bind].
  replace (1 + (L - 1)) with L in HI by lia.
  destruct (Hstep "linear" L (A, caches)) as ([AL caches'] & Hlast & HI');
    [lia|by right|done|].
  cbn [fst snd] in Hlast.
  apply bind_Ok_inv in Hlast as (W & HW & Hlast). rewrite HW. cbn [mbind result_bind].
  apply bind_Ok_inv in Hlast as (b & Hb & Hlast). rewrite Hb. cbn [mbind result_bind].
  apply bind_Ok_inv in Hlast as ([AL' cache] & Hlayer & Hlast). rewrite Hlayer.
  cbn [mbind result_bind]. exists AL, caches'. split; [done|].
  destruct HI' as (HAL & Hlen & Hc). cbn [fst snd] in *.
  replace (S L - 1) with L in * by lia. split; [done|]. by split.
Qed.
End network_shapes.

Section backward_shapes.
Variable dims : list nat.
Hypothesis dims_pos : Forall (λ d, 0 < d) dims.

Lemma multi_layer_backward_ok (P : dict) (dAL : ndarray) (caches : list cache) (m : nat) :
  wf_parameters dims P → 1 ≤ num_layers dims → 0 < m →
  has_shape (dim dims (num_layers dims)) m dAL →
  wf_caches dims m caches →
  ∃ G, multi_layer_backward dAL caches P = Ok G ∧ wf_gradients dims G.
Proof using dims_pos.
  intros [Hsize HP] HL Hm HdAL [Hlen Hcaches].
  unfold multi_layer_backward. rewrite Hlen. set (L := num_layers dims) in *.
  unfold range2. replace (L + 1 - 1) with L by lia.
  set (K := λ (l : nat) (s : ndarray * dict * string),
         has_shape (dim dims l) m s.1.1 ∧
         s.2 = (if decide (l = L) then "linear" else "relu") ∧
         ∀ l', l < l' ≤ L → layer_shapes dims s.1.2 "dW" "db" l').
  cbn zeta.
  match goal with
  | |- context [for_in _ ?body ?s0] =>
      pose proof (for_in_rev_seq_invariant K L body s0) as Hloop
  end.
  destruct Hloop as ([[dA G] act] & Hrun & HK).
  { unfold K. cbn [fst snd]. split; [done|]. split; [by rewrite decide_True|].
    intros l' Hl'. lia. }
  { intros l [[dA G] act] Hl (HdA & Hact & HG). cbn [fst snd] in *.
    destruct (lookup_lt_is_Some_2 caches (l - 1)) as [[[A_prev] [Z]] Hc]; [lia|].
    rewrite Hc. cbn [mbind result_bind].
    destruct (Hcaches _ _ Hc) as [HA HZ]. cbn [lin_cache_of act_cache_of lin_A cache_Z] in *.
    replace (l - 1 + 1) with l in HZ by lia.
    destruct (HP l Hl) as (W & b & HW & Hb & HWs & Hbs).
    rewrite (getitem_Some _ _ _ HW), (getitem_Some _ _ _ Hb). cbn [mbind result_bind].
    destruct (layer_backward_ok dA A_prev Z W b act (dim dims l) m (dim dims (l - 1)))
      as (dA' & dW & db & -> & HdA' & HdW & Hdb);
      [done..|apply dim_pos; (done || lia)|done|apply dim_pos; (done || lia)| |].
    { rewrite Hact. case_decide; [by right|by left]. }
    cbn [mbind result_bind]. eexists. split; [done|].
    unfold K. cbn [fst snd]. split; [done|]. split; [rewrite decide_False by lia; done|].
    intros l' Hl'. destruct (decide (l' = l)) as [->|Hne].
    - exists dW, db. rewrite lookup_insert_eq.
      rewrite lookup_insert_ne by (apply not_eq_sym, key_dW_db).
      by rewrite lookup_insert_eq.
    - destruct (HG l') as (gW & gb & HgW & Hgb & Hs); [lia|].
      exists gW, gb.
      destruct (layer_keys_apart l l' ltac:(done)) as (_ & _ & [H1 H2] & [H3 H4]).
      by rewrite !lookup_insert_ne. }
  rewrite Hrun. cbn [mbind result_bind]. exists G. split; [done|].
  destruct HK as (_ & _ & HG). intros l Hl. apply HG. lia.
Qed.
End backward_shapes.

(** *** Shapes through the head and the update *)

Lemma softmax_der_ok (ys : list Z) (n m : nat) (A : ndarray) :
  has_shape n m A → 0 < m → length ys = m →
  Forall (λ v, (0 ≤ v < Z.of_nat n)%Z) ys →
  ∃ dZ, softmax_cross_entropy_loss_der [ys] n {| cache_A := A |} = Ok dZ ∧
    has_shape n m dZ.
Proof.
  intros HA Hm Hlen Hys. unfold softmax_cross_entropy_loss_der.
  destruct (one_hot_ok [ys] n) as (M & -> & HMs & _).
  { simpl. rewrite app_nil_r. intros ->. simpl in Hlen. lia. }
  { simpl. rewrite app_nil_r. eapply Forall_impl; [done|]. simpl. lia. }
  simpl in HMs. rewrite app_nil_r, Hlen in HMs. cbn [mbind result_bind cache_A].
  pose proof (np_T_has_shape M m n HMs Hm) as HT.
  destruct (broadcast2_same Rminus A (np_T M) n m HA HT) as (dZ & -> & HdZ & _).
  by exists dZ.
Qed.

Lemma size_same_keys (P P' : dict) :
  (∀ k, is_Some (P' !! k) ↔ is_Some (P !! k)) → size P' = size P.
Proof.
  intros Hkeys. rewrite <- !size_dom. f_equal. apply set_eq. intros k.
  by rewrite !elem_of_dom.
Qed.

Section update_shapes.
Variable dims : list nat.
Hypothesis dims_pos : Forall (λ d, 0 < d) dims.

Lemma wf_layer_ok (P G V S : dict) (l : nat) :
  wf_parameters dims P → wf_gradients dims G → wf_gradients dims V → wf_gradients dims S →
  1 ≤ l ≤ num_layers dims → layer_ok G P V S l.
Proof.
  intros [_ HP] HG HV HS Hl.
  destruct (HP l Hl) as (pW & pb & HpW & Hpb & HpWs & Hpbs).
  destruct (HG l Hl) as (gW & gb & HgW & Hgb & HgWs & Hgbs).
  destruct (HV l Hl) as (vW & vb & HvW & Hvb & HvWs & Hvbs).
  destruct (HS l Hl) as (sW & sb & HsW & Hsb & HsWs & Hsbs).
  split.
  - by exists pW, gW, vW, sW, (dim dims l), (dim dims (l - 1)).
  - by exists pb, gb, vb, sb, (dim dims l), 1.
Qed.

Lemma update_parameters_velocity_ok (P G V S : dict) (epoch t : nat)
  (b1 b2 eps lr dr : R) :
  wf_parameters dims P → wf_gradients dims G → wf_gradients dims V → wf_gradients dims S →
  1 ≤ num_layers dims →
  (1 + dr * INR epoch ≠ 0)%R →
  ∃ P' alpha V' S',
    update_parameters_velocity P G epoch V S t b1 b2 eps lr dr = Ok (P', alpha, V', S') ∧
    wf_parameters dims P' ∧ wf_gradients dims V' ∧ wf_gradients dims S'.
Proof using dims_pos.
  intros HP HG HV HS HL Hdiv. pose proof HP as [Hsize HPl].
  destruct (update_parameters_velocity_run P G V S epoch t b1 b2 eps lr dr Hdiv)
    as (P' & V' & S' & Hrun & _ & Hup & [HothP _]).
  { intros l Hl. rewrite Hsize in Hl. by apply wf_layer_ok. }
  rewrite Hsize in Hup, HothP.
  assert (Hshapes : ∀ l, 1 ≤ l ≤ num_layers dims →
            layer_shapes dims P' "W" "b" l ∧ layer_shapes dims V' "dW" "db" l ∧
            layer_shapes dims S' "dW" "db" l).
  { intros l Hl.
    destruct (Hup l Hl)
      as [(pW & gW & vW & sW & pW' & vW' & sW' & rW & cW & HpW & _ & _ & _ & HpW' & HvW'
           & HsW' & HpWs & HpW's & HvW's & HsW's & _)
          (pb & gb & vb & sb & pb' & vb' & sb' & rb & cb & Hpb & _ & _ & _ & Hpb' & Hvb'
           & Hsb' & Hpbs & Hpb's & Hvb's & Hsb's & _)].
    destruct (HPl l Hl) as (W & b & HW & Hb & HWs & Hbs).
    rewrite HpW in HW. injection HW as <-. rewrite Hpb in Hb. injection Hb as <-.
    destruct (has_shape_inj pW _ _ _ _ HWs HpWs) as [<- <-]; [apply dim_pos; (done || lia)|].
    destruct (has_shape_inj pb _ _ _ _ Hbs Hpbs) as [<- <-]; [apply dim_pos; (done || lia)|].
    split; [by exists pW', pb'|]. split; [by exists vW', vb'|by exists sW', sb']. }
  exists P', (lr * (1 / (1 + dr * INR epoch)))%R, V', S'. split; [done|].
  split; [|split; intros l Hl; by apply Hshapes].
  split; [|intros l Hl; by apply Hshapes].
  rewrite <- Hsize. f_equal. apply size_same_keys. intros k.
  destruct (decide (Exists (λ l, k = key "W" l ∨ k = key "b" l)
                      ((λ i, i + 1) <$> range (num_layers dims)))) as [Hex|Hnex].
  - apply Exists_exists in Hex as (l & Hl & Hk). apply elem_of_range_succ in Hl.
    destruct (Hshapes l Hl) as [(W' & b' & HW' & Hb' & _) _].
    destruct (HPl l Hl) as (W & b & HW & Hb & _).
    destruct Hk as [-> | ->]; by rewrite ?HW', ?Hb', ?HW, ?Hb.
  - rewrite HothP; [done|]. intros l Hl.
    split; intros ->; apply Hnex, Exists_exists; exists l; tauto.
Qed.
End update_shapes.

(** *** The partition into batches *)

Lemma chunk_length {A} (row : list A) (k w bs : nat) :
  length row = bs * w → k < bs → length (take w (drop (k * w) row)) = w.
Proof. intros Hlen Hk. rewrite length_take, length_drop. nia. Qed.

Lemma np_split_ok (dims : list nat) (X : ndarray) (Y : label_array) (n bs : nat) :
  wf_data dims n X Y → 0 < dim dims 0 → 0 < bs → n mod bs = 0 →
  ∃ Xb Yb,
    np_split X bs = Ok Xb ∧ np_split Y bs = Ok Yb ∧
    length Xb = bs ∧ length Yb = bs ∧
    ∀ jj, jj < bs →
      ∃ Xjj Yjj, Xb !! jj = Some Xjj ∧ Yb !! jj = Some Yjj ∧
        wf_data dims (n / bs) Xjj Yjj.
Proof.
  intros (ys & -> & HX & Hlen & Hn & Hys) Hd Hbs Hmod. unfold np_split. cbn zeta.
  rewrite (has_shape_shape1 _ _ _ HX) by done. cbn [shape1]. rewrite Hlen.
  rewrite !(decide_False (P := bs = 0)) by lia.
  rewrite !(decide_False (P := n mod bs ≠ 0)) by (intros Hne; by apply Hne).
  set (w := n / bs).
  assert (Hnw : n = bs * w) by (apply Nat.Div0.div_exact; done).
  assert (Hw : 0 < w) by nia.
  eexists _, _. split; [done|]. split; [done|].
  unfold range. rewrite !length_fmap, length_seq. split; [done|]. split; [done|].
  intros jj Hjj. eexists _, _.
  rewrite !list_lookup_fmap, lookup_seq_lt by done. cbn [fmap option_fmap option_map].
  split; [done|]. split; [done|].
  exists (take w (drop (jj * w) ys)). split; [done|]. split; [|split; [|split]].
  - destruct HX as [HXr HXc]. split; [by rewrite length_fmap|].
    apply Forall_fmap. eapply Forall_impl; [exact HXc|].
    intros row Hrow. simpl in Hrow |- *.
    apply (chunk_length _ _ _ bs); [by rewrite Hrow|done].
  - apply (chunk_length _ _ _ bs); [by rewrite Hlen|done].
  - done.
  - by apply Forall_take, Forall_drop.
Qed.

(** *** One batch, one epoch, all epochs *)

Section run_shapes.
Variable dims : list nat.
Hypothesis dims_pos : Forall (λ d, 0 < d) dims.
Hypothesis dims_layers : 1 ≤ num_layers dims.
Hypothesis dims_classes : dim dims (num_layers dims) = num_classes.

Lemma forward_loss_ok (P : dict) (X : ndarray) (Y : label_array) (m : nat) :
  wf_parameters dims P → wf_data dims m X Y →
  ∃ Z caches A cost,
    multi_layer_forward X P = Ok (Z, caches) ∧ wf_caches dims m caches ∧
    softmax_cross_entropy_loss Z num_classes Y = Ok (A, {| cache_A := A |}, Some cost) ∧
    has_shape num_classes m A.
Proof using dims_pos dims_layers dims_classes.
  intros HP (ys & -> & HX & Hlen & Hm & Hys).
  destruct (multi_layer_forward_ok dims dims_pos P X m HP dims_layers HX)
    as (Z & caches & Hfwd & HZ & Hcaches).
  rewrite dims_classes in HZ.
  destruct (softmax_loss_closed_form ys num_classes m Z HZ Hm Hlen Hys)
    as (A & loss & Hloss & HA & _).
  by exists Z, caches, A, loss.
Qed.

Section batches.
Variables (X_batch_size : list ndarray) (Y_batch_size : list label_array).
Variables (B0 : ndarray) (validation_label : label_array).
Variables (learning_rate decay_rate : R) (m mv : nat).
Hypothesis batches_ok :
  ∀ jj, jj < length X_batch_size →
    ∃ Xjj Yjj, X_batch_size !! jj = Some Xjj ∧ Y_batch_size !! jj = Some Yjj ∧
      wf_data dims m Xjj Yjj.
Hypothesis batches_nonempty : 0 < length X_batch_size.
Hypothesis validation_ok : wf_data dims mv B0 validation_label.

Lemma batch_step_ok (ii jj : nat) (st : train_state) :
  wf_state dims st → jj < length X_batch_size →
  (1 + decay_rate * INR ii ≠ 0)%R →
  ∃ st' cost,
    batch_step X_batch_size Y_batch_size learning_rate decay_rate ii jj st = Ok st' ∧
    wf_state dims st' ∧ st_cost st' = Some (Some cost).
Proof using dims_pos dims_layers dims_classes batches_ok.
  intros (HP & HV & HS) Hjj Hdiv. unfold batch_step.
  destruct (batches_ok jj Hjj) as (Xjj & Yjj & -> & -> & Hdata).
  cbn [mbind result_bind].
  destruct (forward_loss_ok _ Xjj Yjj m HP Hdata)
    as (Z & caches & A & cost & Hfwd & Hcaches & Hloss & HA).
  rewrite Hfwd. cbn [mbind result_bind]. rewrite Hloss. cbn [mbind result_bind].
  destruct Hdata as (ys & -> & _ & Hlen & Hm & Hys).
  destruct (softmax_der_ok ys num_classes m A HA Hm Hlen Hys) as (dZ & -> & HdZ).
  cbn [mbind result_bind]. rewrite <- dims_classes in HdZ.
  destruct (multi_layer_backward_ok dims dims_pos _ dZ caches m HP dims_layers Hm HdZ Hcaches)
    as (G & -> & HG).
  cbn [mbind result_bind].
  destruct (update_parameters_velocity_ok dims dims_pos (st_parameters st) G (st_v st)
              (st_sv st) ii (st_t st + 1) beta1 beta2 epsilon learning_rate decay_rate
              HP HG HV HS dims_layers Hdiv)
    as (P' & alpha & V' & S' & -> & HP' & HV' & HS').
  cbn [mbind result_bind]. eexists _, cost. split; [done|]. by split.
Qed.

Lemma epoch_step_ok (ii : nat) (st : train_state) (costs vcosts : list (option R)) :
  wf_state dims st → (1 + decay_rate * INR ii ≠ 0)%R →
  ∃ st' costs' vcosts',
    epoch_step X_batch_size Y_batch_size B0 validation_label learning_rate decay_rate
      ii (st, costs, vcosts) = Ok (st', costs', vcosts') ∧
    wf_state dims st'.
Proof using dims_pos dims_layers dims_classes batches_ok batches_nonempty validation_ok.
  intros Hst Hdiv. unfold epoch_step.
  destruct (for_in_seq_invariant
              (λ j s, wf_state dims s ∧ (0 < j → ∃ c, st_cost s = Some (Some c)))
              0 (length X_batch_size)
              (batch_step X_batch_size Y_batch_size learning_rate decay_rate ii) st)
    as (st' & Hrun & Hst' & Hcost).
  { split; [done|]. lia. }
  { intros j s Hj [Hs _].
    destruct (batch_step_ok ii j s Hs ltac:(lia) Hdiv) as (s' & c & Hstep & Hs' & Hc).
    exists s'. split; [done|]. split; [done|]. intros _. by exists c. }
  unfold range. rewrite Hrun. cbn [mbind result_bind].
  destruct Hcost as [c Hc]; [simpl; lia|]. rewrite Hc. cbn [mbind result_bind].
  destruct Hst' as (HP' & HV' & HS').
  destruct (forward_loss_ok _ B0 validation_label mv HP' validation_ok)
    as (VZ & vcaches & B & vcost & Hvfwd & _ & Hvloss & _).
  rewrite Hvfwd. cbn [mbind result_bind]. rewrite Hvloss. cbn [mbind result_bind].
  eexists st', _, _. split; [|done].
  by destruct (decide (ii mod 10 = 0)).
Qed.

Lemma epochs_ok (E : nat) (st : train_state) :
  wf_state dims st → (∀ ii, ii < E → (1 + decay_rate * INR ii ≠ 0)%R) →
  ∃ st' costs vcosts,
    for_in (range E)
      (epoch_step X_batch_size Y_batch_size B0 validation_label learning_rate decay_rate)
      (st, [], []) = Ok (st', costs, vcosts).
Proof using dims_pos dims_layers dims_classes batches_ok batches_nonempty validation_ok.
  intros Hst Hdiv.
  destruct (for_in_seq_invariant
              (λ (_ : nat) (s : train_state * list (option R) * list (option R)),
                 wf_state dims s.1.1)
              0 E
              (epoch_step X_batch_size Y_batch_size B0 validation_label
                 learning_rate decay_rate) (st, [], []))
    as ([[st' costs] vcosts] & Hrun & _); [done| |by exists st', costs, vcosts].
  intros ii [[s costs] vcosts] Hii Hs. cbn [fst] in Hs.
  destruct (epoch_step_ok ii s costs vcosts Hs) as (s' & c' & v' & Hstep & Hs');
    [apply Hdiv; lia|].
  by exists (s', c', v').
Qed.
End batches.
End run_shapes.

(** *** The whole run *)

Section run_returns.
Variable rng_state : Type.
Variable np_random_seed : nat → rng_state.
Variable np_random_normal : rng_state → R → R → nat * nat → ndarray * rng_state.
(** [normal] returns an array of the shape it is asked for. *)
Hypothesis normal_shape :
  ∀ s loc scale r c, has_shape r c (np_random_normal s loc scale (r, c)).1.

Variable dims : list nat.
Hypothesis dims_pos : Forall (λ d, 0 < d) dims.

Lemma initialize_layers_shapes (n : nat) (s0 s : rng_state) (P : dict) :
  for_in (range n) (initialize_layer rng_state np_random_normal dims) (∅, s0) = Ok (P, s) →
  ∀ l, 1 ≤ l ≤ n → layer_shapes dims P "W" "b" l.
Proof using normal_shape.
  revert P s. induction n as [|n IH]; intros P s Hrun l Hl; [lia|].
  rewrite for_in_range_S in Hrun.
  apply bind_Ok_inv in Hrun as ([P1 s1] & Hrun1 & Hstep).
  unfold initialize_layer in Hstep. case_decide; [done|].
  pose proof (normal_shape s1 0 (sqrt (2 / INR (nth n dims 0)))
                (nth (n + 1) dims 0) (nth n dims 0)) as HW.
  destruct (np_random_normal s1 _ _ (_, nth n dims 0)) as [W s2].
  pose proof (normal_shape s2 0 (sqrt (2 / INR (nth n dims 0)))
                (nth (n + 1) dims 0) 1) as Hb.
  destruct (np_random_normal s2 _ _ _) as [b s3].
  injection Hstep as <- <-. cbn [fst] in HW, Hb.
  destruct (decide (l = n + 1)) as [->|Hne].
  - exists W, b. rewrite lookup_insert_ne by apply not_eq_sym, key_W_b.
    rewrite !lookup_insert_eq. unfold dim.
    replace (n + 1 - 1) with n by lia. done.
  - destruct (IH P1 s1 Hrun1 l) as (W' & b' & HW' & Hb' & Hs); [lia|].
    exists W', b'.
    destruct (layer_keys_apart (n + 1) l ltac:(lia)) as ([H1 H2] & [H3 H4] & _).
    by rewrite !lookup_insert_ne.
Qed.

Lemma initialisation_wf :
  ∃ P V S,
    initialize_multilayer_weights rng_state np_random_seed np_random_normal dims = Ok P ∧
    initialize_velocity P = Ok (V, S) ∧
    wf_state dims {| st_parameters := P; st_v := V; st_sv := S; st_t := 0;
                     st_alpha := 0; st_cost := None |}.
Proof using normal_shape dims_pos.
  destruct (initialize_layers_spec rng_state np_random_normal dims (length dims - 1)
              (np_random_seed 0))
    as (P & s & Hrun & Hsize & Hdom).
  { intros l Hl.
    destruct (lookup_lt_is_Some_2 dims l) as [d Hd]; [lia|].
    rewrite (nth_lookup_Some _ _ _ _ Hd).
    pose proof (Forall_lookup_1 _ _ _ _ dims_pos Hd) as Hdpos. simpl in Hdpos. lia. }
  pose proof (initialize_layers_shapes _ _ _ _ Hrun) as Hshapes.
  assert (Hhalf : size P / 2 = num_layers dims).
  { unfold num_layers. rewrite Hsize, Nat.mul_comm. apply Nat.div_mul. lia. }
  destruct (initialize_velocity_loop P (range (size P / 2)) ∅ ∅) as (V & S & HV & Hz & _).
  { intros i Hi. unfold range in Hi. apply elem_of_seq in Hi.
    destruct (Hshapes (i + 1)) as (W & b & -> & -> & _); [unfold num_layers in Hhalf; lia|].
    by split. }
  assert (Hmoments : ∀ l, 1 ≤ l ≤ num_layers dims →
            layer_shapes dims V "dW" "db" l ∧ layer_shapes dims S "dW" "db" l).
  { intros l Hl. destruct (Hshapes l) as (W & b & HW & Hb & HWs & Hbs); [done|].
    destruct (Hz (l - 1)) as [HzW Hzb].
    { unfold range. apply elem_of_seq. lia. }
    replace (l - 1 + 1) with l in * by lia.
    destruct (HzW W HW) as [HVW HSW]. destruct (Hzb b Hb) as [HVb HSb].
    split; exists (np_zeros_like W), (np_zeros_like b);
      (split_and!; first [done | by apply np_zeros_like_has_shape]). }
  exists P, V, S. split; [|split].
  - unfold initialize_multilayer_weights. cbn zeta. rewrite Hrun. done.
  - by rewrite initialize_velocity_unfold.
  - split; [by split|]. split; intros l Hl; by apply Hmoments.
Qed.

Hypothesis dims_layers : 1 ≤ num_layers dims.
Hypothesis dims_classes : dim dims (num_layers dims) = num_classes.

(** On well-shaped data, with valid labels, a partition that divides and
    non-zero divisors for [alpha], the training run returns. *)
Lemma multi_layer_network_returns (X : ndarray) (Y : label_array)
  (validation_data : ndarray) (validation_label : label_array)
  (num_iterations : nat) (learning_rate decay_rate : R) (batch_size n mv : nat) :
  wf_data dims n X Y → wf_data dims mv validation_data validation_label →
  0 < batch_size → n mod batch_size = 0 →
  (∀ ii, ii < num_iterations → (1 + decay_rate * INR ii ≠ 0)%R) →
  ∃ costs parameters vcosts,
    multi_layer_network rng_state np_random_seed np_random_normal
      X Y validation_data validation_label dims num_iterations
      learning_rate decay_rate batch_size = Ok (costs, parameters, vcosts).
Proof using normal_shape dims_pos dims_layers dims_classes.
  intros Hdata Hval Hbs Hmod Hdiv.
  destruct initialisation_wf as (P & V & S & HP & HVS & Hwf).
  assert (Hd0 : 0 < dim dims 0) by (apply dim_pos; (done || lia)).
  destruct (np_split_ok dims X Y n batch_size Hdata Hd0 Hbs Hmod)
    as (Xb & Yb & HXb & HYb & HlenX & HlenY & Hbatches).
  assert (Hwf' : wf_state dims {| st_parameters := P; st_v := V; st_sv := S; st_t := 0;
                                  st_alpha := learning_rate; st_cost := None |}) by done.
  destruct (epochs_ok dims dims_pos dims_layers dims_classes Xb Yb
              validation_data validation_label learning_rate decay_rate
              (n / batch_size) mv) with (E := num_iterations) (st := {|
                st_parameters := P; st_v := V; st_sv := S; st_t := 0;
                st_alpha := learning_rate; st_cost := None |})
    as (st' & costs & vcosts & Hrun); [by rewrite HlenX|lia|done..|].
  exists costs, (st_parameters st'), vcosts.
  unfold multi_layer_network. rewrite HP. cbn [mbind result_bind]. cbn zeta.
  rewrite HVS. cbn [mbind result_bind]. rewrite HXb. cbn [mbind result_bind].
  rewrite HYb. cbn [mbind result_bind]. rewrite Hrun. done.
Qed.
End run_returns.

(** C8. A training run over [E] epochs that returns has appended one
    training cost and one validation cost per epoch: both sequences have
    length [E].  There is one state per epoch boundary; the training cost of
    epoch [ii] is the loss of the forward pass on the LAST batch, taken with
    the parameters the earlier batches of that epoch left; the validation
    cost is the loss of one forward pass over the whole validation set with
    the parameters the last batch left, which are also the parameters the
    next epoch starts from (the validation pass updates nothing).  The
    parameters returned are those of the last state. *)
Theorem multi_layer_network_costs (rng_state : Type)
  (np_random_seed : nat → rng_state)
  (np_random_normal : rng_state → R → R → nat * nat → ndarray * rng_state)
  (X : ndarray) (Y : label_array) (validation_data : ndarray)
  (validation_label : label_array) (net_dims : list nat) (E : nat)
  (learning_rate decay_rate : R) (batch_size : nat)
  (costs : list (option R)) (parameters : dict) (vcosts : list (option R)) :
  multi_layer_network rng_state np_random_seed np_random_normal
    X Y validation_data validation_label net_dims E learning_rate decay_rate batch_size
    = Ok (costs, parameters, vcosts) →
  length costs = E ∧ length vcosts = E ∧
  ∃ (X_batch_size : list ndarray) (Y_batch_size : list label_array) (sts : list train_state),
    np_split X batch_size = Ok X_batch_size ∧ np_split Y batch_size = Ok Y_batch_size ∧
    length X_batch_size = batch_size ∧ length sts = E + 1 ∧
    (∃ stE, sts !! E = Some stE ∧ st_parameters stE = parameters) ∧
    ∀ ii, ii < E →
      ∃ st st' cost vcost,
        sts !! ii = Some st ∧ sts !! (ii + 1) = Some st' ∧
        costs !! ii = Some cost ∧ vcosts !! ii = Some vcost ∧
        epoch_trace X_batch_size Y_batch_size validation_data validation_label
          learning_rate decay_rate ii st st' cost vcost.
Proof.
  unfold multi_layer_network. intros Hrun.
  apply bind_Ok_inv in Hrun as (P0 & _ & Hrun). cbn zeta in Hrun.
  apply bind_Ok_inv in Hrun as ([V0 S0] & _ & Hrun).
  apply bind_Ok_inv in Hrun as (Xb & HXb & Hrun).
  apply bind_Ok_inv in Hrun as (Yb & HYb & Hrun).
  apply bind_Ok_inv in Hrun as ([[stE costs'] vcosts'] & Hloop & Hrun).
  injection Hrun as <- <- <-.
  destruct (np_split_length _ _ _ HXb) as [HlenX Hbs].
  destruct (epochs_spec Xb Yb validation_data validation_label learning_rate decay_rate
              E _ stE costs' vcosts' ltac:(lia) Hloop)
    as (Hc & Hv & sts & Hsts & _ & HstsE & Hep).
  split; [done|]. split; [done|].
  exists Xb, Yb, sts. split; [done|]. split; [done|]. split; [done|]. split; [done|].
  split; [by exists stE|]. done.
Qed.

Lemma multi_layer_network_costs_witness :
  ∃ costs parameters vcosts,
    multi_layer_network () (λ _, ()) (λ s _ _ '(r, c), (np_zeros r c, s))
      [[1; 2; 3; 4]; [5; 6; 7; 8]]%R [[0; 1; 2; 9]%Z] [[1; 2]; [3; 4]]%R [[3; 4]%Z]
      [2; 3; 10] 3 0.01 0.01 2 = Ok (costs, parameters, vcosts) ∧
    length costs = 3 ∧ length vcosts = 3 ∧
    ∃ (X_batch_size : list ndarray) (Y_batch_size : list label_array) (sts : list train_state),
      np_split [[1; 2; 3; 4]; [5; 6; 7; 8]]%R 2 = Ok X_batch_size ∧
      np_split [[0; 1; 2; 9]%Z] 2 = Ok Y_batch_size ∧
      length X_batch_size = 2 ∧ length sts = 3 + 1 ∧
      (∃ stE, sts !! 3 = Some stE ∧ st_parameters stE = parameters) ∧
      ∀ ii, ii < 3 →
        ∃ st st' cost vcost,
          sts !! ii = Some st ∧ sts !! (ii + 1) = Some st' ∧
          costs !! ii = Some cost ∧ vcosts !! ii = Some vcost ∧
          epoch_trace X_batch_size Y_batch_size [[1; 2]; [3; 4]]%R [[3; 4]%Z]
            0.01 0.01 ii st st' cost vcost.
Proof.
  destruct (multi_layer_network_returns () (λ _, ()) (λ s _ _ '(r, c), (np_zeros r c, s))
              (λ s _ _ r c, np_zeros_has_shape r c) [2; 3; 10]
              ltac:(repeat constructor) ltac:(unfold num_layers; simpl; lia)
              ltac:(reflexivity)
              [[1; 2; 3; 4]; [5; 6; 7; 8]]%R [[0; 1; 2; 9]%Z] [[1; 2]; [3; 4]]%R [[3; 4]%Z]
              3 0.01 0.01 2 4 2)
    as (costs & parameters & vcosts & Hrun).
  - exists [0; 1; 2; 9]%Z. split; [reflexivity|]. split; [split; [reflexivity|repeat constructor]|].
    split; [reflexivity|]. split; [lia|]. unfold num_classes. repeat constructor; simpl; lia.
  - exists [3; 4]%Z. split; [reflexivity|]. split; [split; [reflexivity|repeat constructor]|].
    split; [reflexivity|]. split; [lia|]. unfold num_classes. repeat constructor; simpl; lia.
  - lia.
  - reflexivity.
  - intros ii _. pose proof (pos_INR ii). lra.
  - exists costs, parameters, vcosts. split; [exact Hrun|].
    exact (multi_layer_network_costs _ _ _ _ _ _ _ _ _ _ _ _ _ _ _ Hrun).
Defined.


(** * Further properties of the code *)

(** ** Activations *)

Lemma Rmax_0_idem (z : R) : Rmax 0 (Rmax 0 z) = Rmax 0 z.
Proof. apply Rmax_right, Rmax_l. Qed.

(** X1. [relu] keeps the shape, returns in every entry the larger of 0 and
    the input (so no entry is negative and none is below its input), caches
    its input, and applying it to its own output changes nothing. *)
Theorem relu_spec (Z : ndarray) (r c : nat) :
  has_shape r c Z →
  has_shape r c (relu Z).1 ∧ cache_Z (relu Z).2 = Z ∧
  (relu (relu Z).1).1 = (relu Z).1 ∧
  ∀ i j, i < r → j < c →
    entry (relu Z).1 i j = Rmax 0 (entry Z i j) ∧
    (0 <= entry (relu Z).1 i j)%R ∧ (entry Z i j <= entry (relu Z).1 i j)%R.
Proof.
  intros HZ. unfold relu. cbn [fst snd cache_Z].
  pose proof (np_map_has_shape (Rmax 0) Z r c HZ) as HA.
  split; [done|]. split; [done|]. split.
  - apply (ndarray_ext _ _ r c); [by apply np_map_has_shape|done|].
    intros i j Hi Hj. rewrite (entry_np_map _ _ r c) by done.
    rewrite (entry_np_map _ Z r c) by done. apply Rmax_0_idem.
  - intros i j Hi Hj. rewrite (entry_np_map _ Z r c) by done.
    split; [done|]. split; [apply Rmax_l|apply Rmax_r].
Qed.

Lemma relu_spec_witness :
  has_shape 1 2 (relu [[-3; 4]]%R).1 ∧ cache_Z (relu [[-3; 4]]%R).2 = [[-3; 4]]%R ∧
  (relu (relu [[-3; 4]]%R).1).1 = (relu [[-3; 4]]%R).1 ∧
  ∀ i j, i < 1 → j < 2 →
    entry (relu [[-3; 4]]%R).1 i j = Rmax 0 (entry [[-3; 4]]%R i j) ∧
    (0 <= entry (relu [[-3; 4]]%R).1 i j)%R ∧
    (entry [[-3; 4]]%R i j <= entry (relu [[-3; 4]]%R).1 i j)%R.
Proof.
  apply (relu_spec [[-3; 4]]%R 1 2).
  split; [reflexivity|]. repeat constructor.
Defined.

(** X2. When the cached [Z] has entries and not the shape of [dA], the
    boolean mask [Z < 0] does not fit and [relu_der] raises [IndexError].
    (A cached [Z] of width 0 is not checked along that axis: with as many
    rows as [dA] its mask selects nothing and [dA] is returned.) *)
Theorem relu_der_shape_mismatch (dA Z : ndarray) (r c r' c' : nat) :
  has_shape r c dA → has_shape r' c' Z → 0 < r → 0 < r' → 0 < c' →
  (r, c) ≠ (r', c') →
  relu_der dA {| cache_Z := Z |} = Raise IndexError ∧
  ∀ Z0, has_shape r 0 Z0 → relu_der dA {| cache_Z := Z0 |} = Ok dA.
Proof.
  intros HdA HZ Hr Hr' Hc' Hne. split.
  - unfold relu_der, setitem_mask. cbn [cache_Z].
    pose proof (np_less_has_shape r' c' Z 0%R HZ) as Hmask.
    unfold np_shape.
    rewrite (has_shape_shape0 _ _ _ HdA), (has_shape_shape0 _ _ _ Hmask).
    rewrite (has_shape_shape1 _ _ _ HdA), (has_shape_shape1 _ _ _ Hmask) by done.
    rewrite decide_False by done.
    rewrite decide_False; [done|]. intros [[?|?] [?|?]]; (lia || congruence).
  - intros Z0 HZ0. unfold relu_der, setitem_mask. cbn [cache_Z].
    pose proof (np_less_has_shape r 0 Z0 0%R HZ0) as Hmask.
    unfold np_shape.
    rewrite (has_shape_shape0 _ _ _ HdA), (has_shape_shape0 _ _ _ Hmask).
    rewrite (has_shape_shape1 _ _ _ HdA), (has_shape_shape1 _ _ _ Hmask) by done.
    destruct (decide ((r, c) = (r, 0))) as [Heq|Hneq].
    + assert (c = 0) as -> by congruence.
      f_equal. apply list_eq. intros i. rewrite lookup_zip_with.
      destruct (dA !! i) as [row|] eqn:Hrow; [|done]. cbn.
      destruct (np_less Z0 0 !! i) as [brow|] eqn:Hbrow; cbn.
      * pose proof (Forall_lookup_1 _ _ _ _ (proj2 HdA) Hrow) as Hlen. simpl in Hlen.
        destruct row; [|done]. by destruct brow.
      * apply lookup_ge_None_1 in Hbrow. apply lookup_lt_Some in Hrow.
        destruct HdA as [HdA _], Hmask as [Hmask _]. lia.
    + rewrite decide_True; [done|]. split; [by right|by left].
Qed.

Lemma relu_der_shape_mismatch_witness :
  relu_der [[1; 2]]%R {| cache_Z := [[1]; [2]]%R |} = Raise IndexError ∧
  ∀ Z0, has_shape 1 0 Z0 → relu_der [[1; 2]]%R {| cache_Z := Z0 |} = Ok [[1; 2]]%R.
Proof.
  apply (relu_der_shape_mismatch [[1; 2]]%R [[1]; [2]]%R 1 2 2 1).
  - split; [reflexivity|]. repeat constructor.
  - split; [reflexivity|]. repeat constructor.
  - lia.
  - lia.
  - lia.
  - congruence.
Defined.

(** ** The softmax head *)

Section softmax_further.
Local Open Scope R_scope.

Lemma Rsum_fmap_big_sum (f : R → R) (l : list R) :
  Rsum (f <$> l) = big_sum (length l) (λ k, f (nth k l 0)).
Proof.
  rewrite Rsum_big_sum, length_fmap. apply big_sum_ext. intros k Hk.
  destruct (lookup_lt_is_Some_2 l k Hk) as [x Hx].
  rewrite (nth_lookup_Some _ _ _ _ Hx).
  apply nth_lookup_Some. by rewrite list_lookup_fmap, Hx.
Qed.

Lemma column_nth (M : ndarray) (r c i j : nat) :
  has_shape r c M → (i < r)%nat → (j < c)%nat → nth i (column M j) 0 = entry M i j.
Proof. intros HM Hi Hj. apply nth_lookup_Some. by apply (column_lookup M r c). Qed.

(** The normalised exponentials of a column add up to 1. *)
Lemma softmax_column_total (Z : ndarray) (n m j : nat) (c : R) :
  has_shape n m Z → (0 < n)%nat → (j < m)%nat →
  big_sum n (λ i, exp (entry Z i j - c) / Rsum ((λ z, exp (z - c)) <$> column Z j)) = 1.
Proof.
  intros HZ Hn Hj. rewrite big_sum_scal.
  pose proof (Rsum_exp_pos (column Z j) c (column_nonempty Z n m j HZ Hn)) as Hpos.
  pose proof (Rsum_fmap_big_sum (λ z, exp (z - c)) (column Z j)) as Hsum.
  rewrite column_length, (proj1 HZ) in Hsum.
  rewrite (big_sum_ext n _ (λ i, exp (nth i (column Z j) 0 - c))).
  - rewrite <- Hsum. field. lra.
  - intros i Hi. by rewrite (column_nth Z n m).
Qed.

(** X3. On a non-empty input whose entries are nowhere further than 600
    apart (no exponential of the head leaves the range of float64, and the
    activations are finite there too) the activations of the head are
    probabilities: every entry lies in (0, 1] and every column adds up
    to 1.  Without labels no loss is computed. *)
Theorem softmax_columns_sum_to_one (Z : ndarray) (n m num_classes : nat) :
  has_shape n m Z → (0 < n)%nat → (0 < m)%nat → spread_le 600 Z →
  ∃ A, softmax_cross_entropy_loss Z num_classes [] = Ok (A, {| cache_A := A |}, None) ∧
    softmax_f64 Z = Ok (to_f64 A) ∧
    has_shape n m A ∧
    ∀ j, (j < m)%nat →
      big_sum n (λ i, entry A i j) = 1 ∧ ∀ i, (i < n)%nat → 0 < entry A i j <= 1.
Proof.
  intros HZ Hn Hm Hspread.
  destruct (softmax_head Z n m HZ Hn Hm) as (mx & A & Hmx & HA & HAs & HAe).
  exists A. split; [|split; [by apply (softmax_f64_exact Z n m mx A)|split; [done|]]].
  - unfold softmax_cross_entropy_loss. rewrite Hmx. cbn [mbind result_bind].
    rewrite HA. cbn [mbind result_bind]. by rewrite decide_True.
  - intros j Hj. split.
    + rewrite (big_sum_ext n _
        (λ i, exp (entry Z i j - mx) / Rsum ((λ z, exp (z - mx)) <$> column Z j))).
      * by apply (softmax_column_total Z n m).
      * intros i Hi. by apply HAe.
    + intros i Hi. rewrite (HAe i j Hi Hj).
      rewrite (softmax_shift _ _ mx (max_list (column Z j)))
        by (by eapply column_nonempty).
      by apply (spec_softmax_bounds Z n m).
Qed.

Lemma softmax_columns_sum_to_one_witness :
  ∃ A, softmax_cross_entropy_loss [[1; 2]; [3; 4]] 10 [] = Ok (A, {| cache_A := A |}, None) ∧
    softmax_f64 [[1; 2]; [3; 4]] = Ok (to_f64 A) ∧
    has_shape 2 2 A ∧
    ∀ j, (j < 2)%nat →
      big_sum 2 (λ i, entry A i j) = 1 ∧ ∀ i, (i < 2)%nat → 0 < entry A i j <= 1.
Proof.
  apply (softmax_columns_sum_to_one [[1; 2]; [3; 4]] 2 2 10).
  - split; [reflexivity|]. repeat constructor.
  - lia.
  - lia.
  - intros x y Hx Hy. cbn [concat app] in Hx, Hy.
    list_cases Hx; list_cases Hy; lra.
Defined.

End softmax_further.

Section softmax_errors.
Local Open Scope R_scope.

Lemma concat_empty_rows (M : ndarray) : Forall (λ row, row = []) M → concat M = [].
Proof. induction 1 as [|row M -> _ IH]; [done|]. by simpl. Qed.

(** X5. An input without entries (no rows, or only empty rows) makes the
    head raise the [ValueError] of [np.max], with or without labels. *)
Theorem softmax_empty_input_raises (Z : ndarray) (num_classes : nat) (Y : label_array) :
  Forall (λ row, row = []) Z →
  softmax_cross_entropy_loss Z num_classes Y = Raise (ValueError max_msg).
Proof.
  intros HZ. unfold softmax_cross_entropy_loss, np_max.
  by rewrite (concat_empty_rows Z HZ).
Qed.

Lemma softmax_empty_input_raises_witness :
  softmax_cross_entropy_loss [[]; []] 10 [[3%Z]] = Raise (ValueError max_msg).
Proof.
  apply (softmax_empty_input_raises [[]; []] 10 [[3%Z]]).
  repeat constructor.
Defined.

(** X6. The [1e-9] inside the logarithm bounds the loss: for [Z] with
    [num_classes] rows, entries nowhere further than 600 apart (so that the
    activations are finite, within the range of float64 too) and labels in
    [[0, num_classes)], one per column, the loss never exceeds
    [-log(1e-9)], however small the probability predicted for the right
    class. *)
Theorem softmax_loss_upper_bound (ys : list Z) (n m : nat) (Z : ndarray) :
  has_shape n m Z → (0 < m)%nat → length ys = m →
  Forall (λ v, (0 ≤ v < Z.of_nat n)%Z) ys →
  spread_le 600 Z →
  ∃ A cache loss,
    softmax_cross_entropy_loss Z n [ys] = Ok (A, cache, Some loss) ∧
    softmax_f64 Z = Ok (to_f64 A) ∧
    loss <= - ln 1e-9.
Proof.
  intros HZ Hm Hlen Hys Hspread.
  destruct (softmax_loss_closed_form ys n m Z HZ Hm Hlen Hys)
    as (A & loss & Hrun & HAs & HAe & ->).
  assert (Hn : (0 < n)%nat).
  { destruct ys as [|v ys]; [simpl in Hlen; lia|]. inversion Hys; subst. lia. }
  exists A, {| cache_A := A |}. eexists. split; [done|].
  split; [exact (softmax_f64_run Z n m n [ys] A _ _ HZ Hn Hm Hspread Hrun)|].
  assert (Hmpos : 0 < INR m) by (apply lt_0_INR; lia).
  assert (Hsum : big_sum m (λ _, ln 1e-9)
                 <= big_sum m (λ j, ln (entry A (Z.to_nat (nth j ys 0%Z)) j + 1e-9))).
  { apply big_sum_le. intros j Hj.
    destruct (lookup_lt_is_Some_2 ys j) as [v Hv]; [lia|].
    pose proof (Forall_lookup_1 _ _ _ _ Hys Hv) as Hvr. simpl in Hvr.
    rewrite (nth_lookup_Some _ _ _ _ Hv).
    assert (Hvn : (Z.to_nat v < n)%nat) by lia.
    rewrite (HAe _ j Hvn Hj).
    destruct (spec_softmax_bounds Z n m (Z.to_nat v) j HZ Hvn Hj) as [Hpos _].
    left. apply ln_increasing; lra. }
  rewrite big_sum_const in Hsum.
  apply (Rmult_le_reg_r (INR m)); [done|]. unfold Rdiv.
  rewrite Rmult_assoc, Rinv_l by lra. lra.
Qed.

Lemma softmax_loss_upper_bound_witness :
  ∃ A cache loss,
    softmax_cross_entropy_loss [[1; 2]; [3; 4]] 2 [[0; 1]%Z] = Ok (A, cache, Some loss) ∧
    softmax_f64 [[1; 2]; [3; 4]] = Ok (to_f64 A) ∧
    loss <= - ln 1e-9.
Proof.
  apply (softmax_loss_upper_bound [0; 1]%Z 2 2 [[1; 2]; [3; 4]]).
  - split; [reflexivity|]. repeat constructor.
  - lia.
  - reflexivity.
  - repeat constructor; lia.
  - intros x y Hx Hy. cbn [concat app] in Hx, Hy.
    list_cases Hx; list_cases Hy; lra.
Defined.

(** X7. A label outside [[-num_classes, num_classes)] makes the loss raise
    [IndexError] (from the indexed assignment of [one_hot]), on every
    non-empty input. *)
Theorem softmax_loss_label_out_of_range (Z : ndarray) (n m num_classes : nat)
  (Y : label_array) :
  has_shape n m Z → (0 < n)%nat → (0 < m)%nat → shape0 Y ≠ 0%nat →
  Exists (λ v, (v < - Z.of_nat num_classes ∨ Z.of_nat num_classes ≤ v)%Z) (concat Y) →
  softmax_cross_entropy_loss Z num_classes Y = Raise IndexError.
Proof.
  intros HZ Hn Hm HY Hbad.
  destruct (softmax_head Z n m HZ Hn Hm) as (mx & A & Hmx & HA & _).
  unfold softmax_cross_entropy_loss. rewrite Hmx. cbn [mbind result_bind].
  rewrite HA. cbn [mbind result_bind]. rewrite decide_False by done.
  rewrite one_hot_raise; [done|]. intros Hall.
  apply Exists_exists in Hbad as (v & Hin & Hv).
  pose proof (proj1 (Forall_forall _ _) Hall v Hin) as Hok. simpl in Hok. lia.
Qed.

Lemma softmax_loss_label_out_of_range_witness :
  softmax_cross_entropy_loss [[1; 2]; [3; 4]] 2 [[0; 2]%Z] = Raise IndexError.
Proof.
  apply (softmax_loss_label_out_of_range [[1; 2]; [3; 4]] 2 2 2 [[0; 2]%Z]).
  - split; [reflexivity|]. repeat constructor.
  - lia.
  - lia.
  - simpl. lia.
  - simpl. apply Exists_cons_tl, Exists_cons_hd. lia.
Defined.

(** X8. The one-hot labels are laid out as [(num_classes, samples)]: when the
    input has a number of rows that is neither [num_classes] nor 1 (and
    [num_classes] is not 1), or the labels are not one per column (and
    neither count is 1), the product with [log(A + 1e-9)] cannot be
    broadcast and the loss raises [ValueError]. *)
Theorem softmax_loss_shape_mismatch (ys : list Z) (Z : ndarray) (n m num_classes : nat) :
  has_shape n m Z → (0 < n)%nat → (0 < m)%nat → ys ≠ [] →
  Forall (λ v, (- Z.of_nat num_classes ≤ v < Z.of_nat num_classes)%Z) ys →
  (n ≠ num_classes ∧ n ≠ 1%nat ∧ num_classes ≠ 1%nat) ∨
  (length ys ≠ m ∧ length ys ≠ 1%nat ∧ m ≠ 1%nat) →
  softmax_cross_entropy_loss Z num_classes [ys] = Raise (ValueError broadcast_msg).
Proof.
  intros HZ Hn Hm Hne Hys Hbad.
  destruct (softmax_head Z n m HZ Hn Hm) as (mx & A & Hmx & HA & HAs & _).
  destruct (one_hot_ok [ys] num_classes) as (M & HM & HMs & _).
  { simpl. by rewrite app_nil_r. }
  { simpl. by rewrite app_nil_r. }
  simpl in HMs. rewrite app_nil_r in HMs.
  assert (Hk : (0 < length ys)%nat) by (destruct ys; [done|simpl; lia]).
  assert (Hnc : (0 < num_classes)%nat).
  { destruct ys as [|v ys]; [done|]. inversion Hys; subst. lia. }
  pose proof (np_T_has_shape M _ _ HMs Hk) as HT.
  pose proof (np_map_has_shape (λ a, ln (a + 1e-9)) A n m HAs) as HL.
  unfold softmax_cross_entropy_loss. rewrite Hmx. cbn [mbind result_bind].
  rewrite HA. cbn [mbind result_bind]. rewrite decide_False by done.
  rewrite HM. cbn [mbind result_bind]. unfold broadcast2.
  rewrite (has_shape_shape0 _ _ _ HT), (has_shape_shape0 _ _ _ HL).
  rewrite (has_shape_shape1 _ _ _ HT), (has_shape_shape1 _ _ _ HL) by done.
  unfold broadcast_dim. destruct Hbad as [(? & ? & ?) | (? & ? & ?)].
  - rewrite (decide_False (P := num_classes = n)) by done.
    rewrite (decide_False (P := num_classes = 1%nat)) by done.
    by rewrite (decide_False (P := n = 1%nat)) by done.
  - rewrite (decide_False (P := length ys = m)) by done.
    rewrite (decide_False (P := length ys = 1%nat)) by done.
    rewrite (decide_False (P := m = 1%nat)) by done.
    by repeat case_decide.
Qed.

Lemma softmax_loss_shape_mismatch_witness :
  softmax_cross_entropy_loss [[1; 2]; [3; 4]] 10 [[0; 9]%Z] = Raise (ValueError broadcast_msg).
Proof.
  apply (softmax_loss_shape_mismatch [0; 9]%Z [[1; 2]; [3; 4]] 2 2 10).
  - split; [reflexivity|]. repeat constructor.
  - lia.
  - lia.
  - discriminate.
  - repeat constructor; lia.
  - left. lia.
Defined.

Lemma big_sum_minus n f g : big_sum n (λ k, f k - g k) = big_sum n f - big_sum n g.
Proof. induction n as [|n IH]; simpl; [lra|]. rewrite IH. lra. Qed.

Lemma big_sum_one_hot n k0 :
  (k0 < n)%nat → big_sum n (λ i, if decide (i = k0) then 1 else 0) = 1.
Proof.
  intros Hk. pose proof (big_sum_indicator n k0 (λ _, 1) Hk) as Hind.
  simpl in Hind. rewrite <- Hind.
  apply big_sum_ext. intros i _. case_decide; lra.
Qed.

(** X9. Forward and derivative of the head together: for [Z] with
    [num_classes] rows, entries nowhere further than 600 apart (so that the
    activations are finite, within the range of float64 too) and labels in
    [[0, num_classes)], one per column, the derivative computed from the
    cache of the forward pass is, entry by entry, the activation minus the
    one-hot label (not divided by the number of samples), and every column
    of it adds up to 0. *)
Theorem softmax_cross_entropy_loss_der_spec (ys : list Z) (n m : nat) (Z : ndarray) :
  has_shape n m Z → (0 < m)%nat → length ys = m →
  Forall (λ v, (0 ≤ v < Z.of_nat n)%Z) ys →
  spread_le 600 Z →
  ∃ A cache loss dZ,
    softmax_cross_entropy_loss Z n [ys] = Ok (A, cache, Some loss) ∧
    softmax_f64 Z = Ok (to_f64 A) ∧
    softmax_cross_entropy_loss_der [ys] n cache = Ok dZ ∧
    has_shape n m dZ ∧
    (∀ i j, (i < n)%nat → (j < m)%nat →
       entry dZ i j
       = entry A i j - (if decide (i = Z.to_nat (nth j ys 0%Z)) then 1 else 0)) ∧
    ∀ j, (j < m)%nat → big_sum n (λ i, entry dZ i j) = 0.
Proof.
  intros HZ Hm Hlen Hys Hspread.
  destruct (softmax_loss_closed_form ys n m Z HZ Hm Hlen Hys)
    as (A & loss & Hrun & HAs & HAe & _).
  assert (Hn : (0 < n)%nat).
  { destruct ys as [|v ys]; [simpl in Hlen; lia|]. inversion Hys; subst. lia. }
  pose proof (softmax_f64_run Z n m n [ys] A _ _ HZ Hn Hm Hspread Hrun) as Hf64.
  destruct (one_hot_ok [ys] n) as (M & HM & HMs & HMe).
  { simpl. rewrite app_nil_r. intros ->. simpl in Hlen. lia. }
  { simpl. rewrite app_nil_r. eapply Forall_impl; [done|]. simpl. lia. }
  simpl in HMs, HMe. rewrite app_nil_r in HMs, HMe. rewrite Hlen in HMs.
  pose proof (np_T_has_shape M m n HMs Hm) as HT.
  destruct (broadcast2_same Rminus A (np_T M) n m HAs HT) as (dZ & HdZ & HdZs & HdZe).
  assert (Hentry : ∀ i j, (i < n)%nat → (j < m)%nat →
            entry dZ i j
            = entry A i j - (if decide (i = Z.to_nat (nth j ys 0%Z)) then 1 else 0)).
  { intros i j Hi Hj. rewrite (HdZe i j Hi Hj). f_equal.
    destruct (lookup_lt_is_Some_2 ys j) as [v Hv]; [lia|].
    pose proof (Forall_lookup_1 _ _ _ _ Hys Hv) as Hvr. simpl in Hvr.
    rewrite (nth_lookup_Some _ _ _ _ Hv).
    rewrite (entry_np_T M m n j i HMs Hj Hi), (HMe j v i Hv Hi).
    unfold wrapped. by rewrite (decide_False (P := (v < 0)%Z)) by lia. }
  exists A, {| cache_A := A |}, loss, dZ.
  split; [done|]. split; [done|]. split.
  { unfold softmax_cross_entropy_loss_der. rewrite HM. by cbn [mbind result_bind cache_A]. }
  split; [done|]. split; [done|].
  intros j Hj.
  destruct (lookup_lt_is_Some_2 ys j) as [v Hv]; [lia|].
  pose proof (Forall_lookup_1 _ _ _ _ Hys Hv) as Hvr. simpl in Hvr.
  rewrite (big_sum_ext n _
    (λ i, spec_softmax Z i j - (if decide (i = Z.to_nat (nth j ys 0%Z)) then 1 else 0))).
  - rewrite big_sum_minus, big_sum_one_hot
      by (rewrite (nth_lookup_Some _ _ _ _ Hv); lia).
    unfold spec_softmax. rewrite (softmax_column_total Z n m) by done. lra.
  - intros i Hi. by rewrite (Hentry i j Hi Hj), (HAe i j Hi Hj).
Qed.

Lemma softmax_cross_entropy_loss_der_spec_witness :
  ∃ A cache loss dZ,
    softmax_cross_entropy_loss [[1; 2]; [3; 4]] 2 [[0; 1]%Z] = Ok (A, cache, Some loss) ∧
    softmax_f64 [[1; 2]; [3; 4]] = Ok (to_f64 A) ∧
    softmax_cross_entropy_loss_der [[0; 1]%Z] 2 cache = Ok dZ ∧
    has_shape 2 2 dZ ∧
    (∀ i j, (i < 2)%nat → (j < 2)%nat →
       entry dZ i j
       = entry A i j - (if decide (i = Z.to_nat (nth j [0; 1]%Z 0%Z)) then 1 else 0)) ∧
    ∀ j, (j < 2)%nat → big_sum 2 (λ i, entry dZ i j) = 0.
Proof.
  apply (softmax_cross_entropy_loss_der_spec [0; 1]%Z 2 2 [[1; 2]; [3; 4]]).
  - split; [reflexivity|]. repeat constructor.
  - lia.
  - reflexivity.
  - repeat constructor; lia.
  - intros x y Hx Hy. cbn [concat app] in Hx, Hy.
    list_cases Hx; list_cases Hy; lra.
Defined.
End softmax_errors.

(** ** Layers *)

Section layer_further.
Local Open Scope R_scope.

(** An array and a column vector: the column is paired with every column. *)
Lemma broadcast2_col f (A B : ndarray) r c :
  has_shape r c A → has_shape r 1 B → (0 < r)%nat →
  ∃ C, broadcast2 f A B = Ok C ∧ has_shape r c C ∧
    ∀ i j, (i < r)%nat → (j < c)%nat → entry C i j = f (entry A i j) (entry B i 0).
Proof.
  intros HA HB Hr. unfold broadcast2.
  rewrite (has_shape_shape0 _ _ _ HA), (has_shape_shape0 _ _ _ HB), broadcast_dim_same.
  rewrite (has_shape_shape1 _ _ _ HA), (has_shape_shape1 _ _ _ HB), broadcast_dim_1_r by lia.
  eexists. split; [done|]. split; [apply tabulate_has_shape|].
  intros i j Hi Hj. rewrite entry_tabulate by done.
  by rewrite (broadcast_entry_same A r c), (broadcast_entry_col B r).
Qed.

Lemma linear_forward_entries (A W b : ndarray) (n p m : nat) :
  has_shape p m A → has_shape n p W → has_shape n 1 b → (0 < n)%nat → (0 < p)%nat →
  ∃ Z, linear_forward A W b = Ok (Z, {| lin_A := A |}) ∧ has_shape n m Z ∧
    ∀ i j, (i < n)%nat → (j < m)%nat → entry Z i j = affine_entry p W A b i j.
Proof.
  intros HA HW Hb Hn Hp. unfold linear_forward.
  destruct (np_dot_spec W A n p m HW HA Hn Hp) as (WA & -> & HWA & HWAe).
  cbn [mbind result_bind].
  destruct (broadcast2_col Rplus WA b n m HWA Hb Hn) as (Z & -> & HZ & HZe).
  exists Z. split; [done|]. split; [done|].
  intros i j Hi Hj. rewrite (HZe i j Hi Hj), (HWAe i j Hi Hj). done.
Qed.

(** X10. A layer on arrays of fitting shapes: the pre-activation is
    [Z = W.A_prev + b] entry by entry (the bias column added to every
    column), the output is [max(0, Z)] for ["relu"] and [Z] itself for
    ["linear"], and the cache holds the layer's input and [Z]. *)
Theorem layer_forward_spec (A_prev W b : ndarray) (activation : string) (n p m : nat) :
  has_shape p m A_prev → has_shape n p W → has_shape n 1 b → (0 < n)%nat → (0 < p)%nat →
  activation = "relu" ∨ activation = "linear" →
  ∃ A Z, layer_forward A_prev W b activation
         = Ok (A, {| lin_cache_of := {| lin_A := A_prev |};
                     act_cache_of := {| cache_Z := Z |} |}) ∧
    has_shape n m Z ∧ has_shape n m A ∧
    ∀ i j, (i < n)%nat → (j < m)%nat →
      entry Z i j = affine_entry p W A_prev b i j ∧
      entry A i j = if decide (activation = "relu") then Rmax 0 (entry Z i j)
                    else entry Z i j.
Proof.
  intros HA HW Hb Hn Hp Hact. unfold layer_forward.
  destruct (linear_forward_entries A_prev W b n p m HA HW Hb Hn Hp) as (Z & -> & HZ & HZe).
  cbn [mbind result_bind]. destruct Hact as [-> | ->].
  - exists (np_map (Rmax 0) Z), Z. split; [done|]. split; [done|].
    split; [by apply np_map_has_shape|].
    intros i j Hi Hj. split; [by apply HZe|].
    by rewrite (entry_np_map _ Z n m).
  - exists Z, Z. split; [done|]. split; [done|]. split; [done|].
    intros i j Hi Hj. split; [by apply HZe|]. done.
Qed.

Lemma layer_forward_spec_witness :
  ∃ A Z, layer_forward [[1; 2]; [3; 4]] [[1; -1]] [[5]] "relu"
         = Ok (A, {| lin_cache_of := {| lin_A := [[1; 2]; [3; 4]] |};
                     act_cache_of := {| cache_Z := Z |} |}) ∧
    has_shape 1 2 Z ∧ has_shape 1 2 A ∧
    ∀ i j, (i < 1)%nat → (j < 2)%nat →
      entry Z i j = affine_entry 2 [[1; -1]] [[1; 2]; [3; 4]] [[5]] i j ∧
      entry A i j = if decide ("relu" = "relu") then Rmax 0 (entry Z i j)
                    else entry Z i j.
Proof.
  apply (layer_forward_spec [[1; 2]; [3; 4]] [[1; -1]] [[5]] "relu" 1 2 2).
  - split; [reflexivity|]. repeat constructor.
  - split; [reflexivity|]. repeat constructor.
  - split; [reflexivity|]. repeat constructor.
  - lia.
  - lia.
  - by left.
Defined.

(** X11. When the weights have not as many columns as the input has rows,
    [np.dot] raises [ValueError] and the layer returns nothing, whatever the
    activation and the bias. *)
Theorem layer_forward_misaligned (A_prev W b : ndarray) (activation : string)
  (n p q m : nat) :
  has_shape n p W → has_shape q m A_prev → (0 < n)%nat → p ≠ q →
  linear_forward A_prev W b = Raise (ValueError dot_msg) ∧
  layer_forward A_prev W b activation = Raise (ValueError dot_msg).
Proof.
  intros HW HA Hn Hpq.
  assert (Hlin : linear_forward A_prev W b = Raise (ValueError dot_msg)).
  { unfold linear_forward, np_dot.
    rewrite (has_shape_shape1 _ _ _ HW), (has_shape_shape0 _ _ _ HA) by done.
    by rewrite decide_False. }
  split; [done|]. unfold layer_forward. by rewrite Hlin.
Qed.

Lemma layer_forward_misaligned_witness :
  linear_forward [[1; 2]; [3; 4]; [5; 6]] [[1; -1]] [[5]] = Raise (ValueError dot_msg) ∧
  layer_forward [[1; 2]; [3; 4]; [5; 6]] [[1; -1]] [[5]] "relu" = Raise (ValueError dot_msg).
Proof.
  apply (layer_forward_misaligned [[1; 2]; [3; 4]; [5; 6]] [[1; -1]] [[5]] "relu" 1 2 3 2).
  - split; [reflexivity|]. repeat constructor.
  - split; [reflexivity|]. repeat constructor.
  - lia.
  - lia.
Defined.

(** X12. Only ["relu"] and ["linear"] are activations: with any other name
    the forward layer fails after its linear step ([UnboundLocalError], as
    no branch binds [act_cache]), and the backward layer fails before its
    linear step, with [NameError] for ["sigmoid"] and ["tanh"], whose
    derivatives are not defined, and [UnboundLocalError] otherwise. *)
Theorem unsupported_activation_fails (A_prev W b dA : ndarray) (c : cache)
  (activation : string) (n p m : nat) :
  has_shape p m A_prev → has_shape n p W → has_shape n 1 b → (0 < n)%nat → (0 < p)%nat →
  activation ≠ "relu" → activation ≠ "linear" →
  layer_forward A_prev W b activation = Raise (UnboundLocalError "act_cache") ∧
  layer_backward dA c W b activation
  = Raise (if decide (activation = "sigmoid") then NameError "sigmoid_der"
           else if decide (activation = "tanh") then NameError "tanh_der"
           else UnboundLocalError "dZ").
Proof.
  intros HA HW Hb Hn Hp Hrelu Hlinear. split.
  - unfold layer_forward.
    destruct (linear_forward_entries A_prev W b n p m HA HW Hb Hn Hp) as (Z & -> & _).
    cbn [mbind result_bind]. by rewrite !decide_False by done.
  - unfold layer_backward. repeat case_decide; done.
Qed.

Lemma unsupported_activation_fails_witness :
  layer_forward [[1; 2]; [3; 4]] [[1; -1]] [[5]] "sigmoid"
  = Raise (UnboundLocalError "act_cache") ∧
  layer_backward [[1; 1]] {| lin_cache_of := {| lin_A := [[1; 2]; [3; 4]] |};
                            act_cache_of := {| cache_Z := [[3; 3]] |} |}
    [[1; -1]] [[5]] "sigmoid"
  = Raise (if decide ("sigmoid" = "sigmoid") then NameError "sigmoid_der"
           else if decide ("sigmoid" = "tanh") then NameError "tanh_der"
           else UnboundLocalError "dZ").
Proof.
  apply (unsupported_activation_fails [[1; 2]; [3; 4]] [[1; -1]] [[5]] [[1; 1]] _
           "sigmoid" 1 2 2).
  - split; [reflexivity|]. repeat constructor.
  - split; [reflexivity|]. repeat constructor.
  - split; [reflexivity|]. repeat constructor.
  - lia.
  - lia.
  - discriminate.
  - discriminate.
Defined.
End layer_further.

(** ** The forward and backward passes *)

Lemma layer_input_app (X : ndarray) (caches : list cache) (c : cache) (l : nat) :
  l ≤ length caches → layer_input X (caches ++ [c]) l = layer_input X caches l.
Proof.
  intros Hl. destruct l as [|l]; [done|]. simpl.
  by rewrite lookup_app_l by lia.
Qed.

Lemma demo_parameters_wf : wf_parameters [2; 1] demo_parameters.
Proof.
  split; [done|]. intros l Hl. unfold num_layers in Hl. simpl in Hl.
  assert (l = 1) as -> by lia.
  exists [[1; 2]]%R, [[3]]%R. split; [done|]. split; [done|].
  split; (split; [reflexivity|]; repeat constructor).
Qed.

Lemma zero_parameters_wf : wf_parameters [2; 10] zero_parameters.
Proof.
  split; [done|]. intros l Hl. unfold num_layers in Hl. simpl in Hl.
  assert (l = 1) as -> by lia.
  exists (np_zeros 10 2), (np_zeros 10 1). split; [done|]. split; [done|].
  split; apply np_zeros_has_shape.
Qed.

Section forward_chain.
Variable dims : list nat.
Hypothesis dims_pos : Forall (λ d, 0 < d) dims.

(** X13. What the forward pass computes on a well-shaped network: one cache
    per layer; the first layer reads [X], every later layer reads
    [max(0, Z)] of the [Z] cached by the layer before it; every cached [Z]
    is [W.A + b] of its layer; and the output is the [Z] of the last layer,
    to which no rectification is applied. *)
Theorem multi_layer_forward_spec (P : dict) (X : ndarray) (m : nat) :
  wf_parameters dims P → 1 ≤ num_layers dims →
  has_shape (dim dims 0) m X →
  ∃ AL caches,
    multi_layer_forward X P = Ok (AL, caches) ∧
    length caches = num_layers dims ∧
    has_shape (dim dims (num_layers dims)) m AL ∧
    (∃ c, caches !! (num_layers dims - 1) = Some c ∧ AL = cache_Z (act_cache_of c)) ∧
    ∀ l c, caches !! l = Some c → cache_ok dims P X m caches l c.
Proof using dims_pos.
  intros [Hsize HP] HL HX. unfold multi_layer_forward. rewrite Hsize.
  set (L := num_layers dims) in *.
  set (I := λ (i : nat) (s : ndarray * list cache),
         has_shape (dim dims (i - 1)) m s.1 ∧ length s.2 = i - 1 ∧
         s.1 = layer_input X s.2 (i - 1) ∧
         ∀ l c, s.2 !! l = Some c → cache_ok dims P X m s.2 l c).
  assert (Hstep : ∀ (act : string) i (s : ndarray * list cache),
            1 ≤ i ≤ L → act = "relu" ∨ act = "linear" → I i s →
            ∃ Z, (W ← getitem P (key "W" i);
                  b ← getitem P (key "b" i);
                  '(A, cache) ← layer_forward s.1 W b act;
                  Ok (A, s.2 ++ [cache]))
                 = Ok (if decide (act = "relu") then (relu Z).1 else Z,
                       s.2 ++ [{| lin_cache_of := {| lin_A := s.1 |};
                                  act_cache_of := {| cache_Z := Z |} |}]) ∧
              has_shape (dim dims i) m Z ∧
              ∀ l c, (s.2 ++ [{| lin_cache_of := {| lin_A := s.1 |};
                                 act_cache_of := {| cache_Z := Z |} |}]) !! l = Some c →
                cache_ok dims P X m
                  (s.2 ++ [{| lin_cache_of := {| lin_A := s.1 |};
                              act_cache_of := {| cache_Z := Z |} |}]) l c).
  { intros act i [A caches] Hi Hact (HA & Hlen & HAin & Hcaches). cbn [fst snd] in *.
    destruct (HP i Hi) as (W & b & HW & Hb & HWs & Hbs).
    rewrite (getitem_Some _ _ _ HW), (getitem_Some _ _ _ Hb). cbn [mbind result_bind].
    destruct (linear_forward_entries A W b (dim dims i) (dim dims (i - 1)) m)
      as (Z & HZrun & HZ & HZe);
      [done..|apply (dim_pos dims dims_pos); lia|apply (dim_pos dims dims_pos); lia|].
    exists Z. split; [|split; [done|]].
    - unfold layer_forward. rewrite HZrun. cbn [mbind result_bind].
      destruct Hact as [-> | ->]; by cbn.
    - intros l c Hl. apply lookup_app_Some in Hl as [Hl|[Hge Hl]].
      + destruct (Hcaches l c Hl) as (Hin & Hs1 & Hs2 & Hrest).
        split; [|done]. rewrite layer_input_app; [done|].
        apply lookup_lt_Some in Hl. lia.
      + rewrite Hlen in Hl, Hge.
        apply list_lookup_singleton_Some in Hl as [Hl0 <-].
        assert (l = i - 1) as -> by lia.
        unfold cache_ok. cbn [lin_cache_of act_cache_of lin_A cache_Z].
        replace (i - 1 + 1) with i by lia.
        split; [by rewrite layer_input_app by lia|]. split; [done|]. split; [done|].
        exists W, b. split; [done|]. split; [done|]. done. }
  destruct (for_in_seq_invariant I 1 (L - 1)
              (λ l '(A, caches),
                 W ← getitem P (key "W" l);
                 b ← getitem P (key "b" l);
                 '(A, cache) ← layer_forward A W b "relu";
                 Ok (A, caches ++ [cache])) (X, []))
    as ([A caches] & Hrun & HI).
  { unfold I. cbn [fst snd]. split; [done|]. split; [done|]. split; [done|].
    intros l c Hl. done. }
  { intros i [A caches] Hi HI.
    destruct (Hstep "relu" i (A, caches)) as (Z & Hbody & HZ & Hc); [lia|by left|done|].
    cbn [fst snd] in Hbody, Hc. rewrite decide_True in Hbody by done.
    eexists. split; [exact Hbody|].
    destruct HI as (_ & Hlen & _). cbn [snd] in Hlen.
    unfold I. cbn [fst snd]. replace (S i - 1) with i by lia.
    split; [by apply np_map_has_shape|]. split; [rewrite length_app; simpl; lia|].
    split; [|done].
    destruct i as [|i]; [lia|]. cbn [layer_input].
    rewrite lookup_app_r by lia.
    replace (i - length caches) with 0 by lia. done. }
  unfold range2. rewrite Hrun. cbn [mbind result_bind].
  replace (1 + (L - 1)) with L in HI by lia.
  destruct (Hstep "linear" L (A, caches)) as (Z & Hlast & HZ & Hc);
    [lia|by right|done|].
  cbn [fst snd] in Hlast, Hc. rewrite decide_False in Hlast by done.
  destruct HI as (_ & Hlen & _). cbn [snd] in Hlen.
  apply bind_Ok_inv in Hlast as (W & HW & Hlast). rewrite HW. cbn [mbind result_bind].
  apply bind_Ok_inv in Hlast as (b & Hb & Hlast). rewrite Hb. cbn [mbind result_bind].
  apply bind_Ok_inv in Hlast as ([AL' cache] & Hlayer & Hlast). rewrite Hlayer.
  cbn [mbind result_bind]. injection Hlast as -> Hcaches. rewrite Hcaches.
  eexists _, _. split; [done|].
  split; [rewrite length_app; simpl; lia|]. split; [done|]. split; [|done].
  eexists. split.
  - rewrite lookup_app_r by lia. by replace (L - 1 - length caches) with 0 by lia.
  - done.
Qed.
End forward_chain.

Lemma multi_layer_forward_spec_witness :
  ∃ AL caches,
    multi_layer_forward [[1]; [1]]%R demo_parameters = Ok (AL, caches) ∧
    length caches = num_layers [2; 1] ∧
    has_shape (dim [2; 1] (num_layers [2; 1])) 1 AL ∧
    (∃ c, caches !! (num_layers [2; 1] - 1) = Some c ∧ AL = cache_Z (act_cache_of c)) ∧
    ∀ l c, caches !! l = Some c → cache_ok [2; 1] demo_parameters [[1]; [1]]%R 1 caches l c.
Proof.
  apply (multi_layer_forward_spec [2; 1]).
  - repeat constructor.
  - exact demo_parameters_wf.
  - unfold num_layers. simpl. lia.
  - split; [reflexivity|]. repeat constructor.
Defined.

Section backpropagation.
Variable dims : list nat.
Hypothesis dims_pos : Forall (λ d, 0 < d) dims.
Hypothesis dims_layers : 1 ≤ num_layers dims.
Hypothesis dims_classes : dim dims (num_layers dims) = num_classes.

(** X14. One pass over a batch, as the training loop chains it: on a
    well-shaped network with ten outputs and a batch with one label in
    [[0, 10)] per sample, the forward pass, the loss, its derivative and the
    backward pass all return, the cost is a number, and the gradients hold
    for every layer [l] an array ["dW"l] of the shape of ["W"l] and an array
    ["db"l] of the shape of ["b"l]. *)
Theorem backpropagation_gradient_shapes (P : dict) (X : ndarray) (Y : label_array)
  (m : nat) :
  wf_parameters dims P → wf_data dims m X Y →
  ∃ Z caches A cache_cross cost dZ G,
    multi_layer_forward X P = Ok (Z, caches) ∧
    softmax_cross_entropy_loss Z num_classes Y = Ok (A, cache_cross, Some cost) ∧
    softmax_cross_entropy_loss_der Y num_classes cache_cross = Ok dZ ∧
    multi_layer_backward dZ caches P = Ok G ∧
    wf_gradients dims G.
Proof using dims_pos dims_layers dims_classes.
  intros HP Hdata.
  destruct (forward_loss_ok dims dims_pos dims_layers dims_classes P X Y m HP Hdata)
    as (Z & caches & A & cost & Hfwd & Hcaches & Hloss & HA).
  destruct Hdata as (ys & -> & _ & Hlen & Hm & Hys).
  destruct (softmax_der_ok ys num_classes m A HA Hm Hlen Hys) as (dZ & Hder & HdZ).
  rewrite <- dims_classes in HdZ.
  destruct (multi_layer_backward_ok dims dims_pos P dZ caches m HP dims_layers Hm HdZ Hcaches)
    as (G & Hbwd & HG).
  by exists Z, caches, A, {| cache_A := A |}, cost, dZ, G.
Qed.
End backpropagation.

Lemma backpropagation_gradient_shapes_witness :
  ∃ Z caches A cache_cross cost dZ G,
    multi_layer_forward [[1]; [1]]%R zero_parameters = Ok (Z, caches) ∧
    softmax_cross_entropy_loss Z num_classes [[3%Z]] = Ok (A, cache_cross, Some cost) ∧
    softmax_cross_entropy_loss_der [[3%Z]] num_classes cache_cross = Ok dZ ∧
    multi_layer_backward dZ caches zero_parameters = Ok G ∧
    wf_gradients [2; 10] G.
Proof.
  apply (backpropagation_gradient_shapes [2; 10]) with (m := 1).
  - repeat constructor.
  - unfold num_layers. simpl. lia.
  - reflexivity.
  - exact zero_parameters_wf.
  - exists [3%Z]. split; [reflexivity|]. split.
    + split; [reflexivity|]. repeat constructor.
    + split; [reflexivity|]. split; [lia|]. repeat constructor; unfold num_classes; lia.
Defined.

(** X15. The number of layers is read off the size of the dictionary: when
    that gives at most one layer and the weights of that layer are not
    stored (an empty dictionary asks for ["W0"]), the forward pass raises
    [KeyError] for them. *)
Theorem multi_layer_forward_missing_weights (X : ndarray) (P : dict) :
  size P / 2 ≤ 1 → P !! key "W" (size P / 2) = None →
  multi_layer_forward X P = Raise (KeyError (key "W" (size P / 2))).
Proof.
  intros HL Hmiss. unfold multi_layer_forward, range2.
  replace (size P / 2 - 1) with 0 by lia. cbn [seq for_in mbind result_bind].
  unfold getitem. by rewrite Hmiss.
Qed.

Lemma multi_layer_forward_missing_weights_witness :
  multi_layer_forward [[1]; [1]]%R ∅ = Raise (KeyError (key "W" (size (∅ : dict) / 2))).
Proof.
  apply (multi_layer_forward_missing_weights [[1]; [1]]%R ∅).
  - rewrite map_size_empty. simpl. lia.
  - apply lookup_empty.
Defined.

(** ** Initialisation *)

Section initialisation_further.
Variable rng_state : Type.
Variable np_random_seed : nat → rng_state.
Variable np_random_normal : rng_state → R → R → nat * nat → ndarray * rng_state.
(** [normal] returns an array of the shape it is asked for. *)
Hypothesis normal_shape :
  ∀ s loc scale r c, has_shape r c (np_random_normal s loc scale (r, c)).1.

(** X16. For positive dimensions the initial parameters are exactly the
    weights and biases of the layers [1 .. len(net_dims) - 1], two entries
    per layer, ["W"l] of shape [(net_dims[l], net_dims[l-1])] and ["b"l] of
    shape [(net_dims[l], 1)]; so the number of layers the other functions
    read off the dictionary, [len(parameters) // 2], is the right one. *)
Theorem initialize_multilayer_weights_spec (net_dims : list nat) :
  Forall (λ d, 0 < d) net_dims →
  ∃ P, initialize_multilayer_weights rng_state np_random_seed np_random_normal net_dims
       = Ok P ∧
    size P = 2 * (length net_dims - 1) ∧
    (∀ k, is_Some (P !! k) ↔ layer_keys (length net_dims - 1) k) ∧
    wf_parameters net_dims P.
Proof using normal_shape.
  intros Hpos.
  destruct (initialize_layers_spec rng_state np_random_normal net_dims
              (length net_dims - 1) (np_random_seed 0))
    as (P & s & Hrun & Hsize & Hdom).
  { intros l Hl.
    destruct (lookup_lt_is_Some_2 net_dims l) as [d Hd]; [lia|].
    rewrite (nth_lookup_Some _ _ _ _ Hd).
    pose proof (Forall_lookup_1 _ _ _ _ Hpos Hd) as Hdpos. simpl in Hdpos. lia. }
  pose proof (initialize_layers_shapes rng_state np_random_normal normal_shape
                net_dims _ _ _ _ Hrun) as Hshapes.
  exists P. split; [|split; [done|split; [done|]]].
  - unfold initialize_multilayer_weights. cbn zeta. rewrite Hrun. done.
  - split; [|done]. unfold num_layers. rewrite Hsize, Nat.mul_comm. apply Nat.div_mul. lia.
Qed.

Lemma initialize_layers_errors (net_dims : list nat) (n : nat) (st : dict * rng_state) :
  (∃ st', for_in (range n) (initialize_layer rng_state np_random_normal net_dims) st = Ok st')
  ∨ for_in (range n) (initialize_layer rng_state np_random_normal net_dims) st
    = Raise ZeroDivisionError.
Proof.
  induction n as [|n IH]; [left; by exists st|].
  rewrite for_in_range_S. destruct IH as [[[P s] ->] | ->]; [|by right].
  cbn [mbind result_bind]. unfold initialize_layer. case_decide; [by right|].
  destruct (np_random_normal s _ _ _) as [W s1].
  destruct (np_random_normal s1 _ _ _) as [b s2]. left. by eexists.
Qed.

(** X17. A dimension 0 anywhere but in the last place makes the
    initialisation raise [ZeroDivisionError] (from [2.0 / net_dims[l]]). *)
Theorem initialize_multilayer_weights_zero_dim (net_dims : list nat) (l : nat) :
  l < length net_dims - 1 → nth l net_dims 0 = 0 →
  initialize_multilayer_weights rng_state np_random_seed np_random_normal net_dims
  = Raise ZeroDivisionError.
Proof.
  intros Hl Hzero. unfold initialize_multilayer_weights. cbn zeta.
  assert (Hloop : ∀ n st, l < n →
            for_in (range n) (initialize_layer rng_state np_random_normal net_dims) st
            = Raise ZeroDivisionError).
  { induction n as [|n IH]; intros st Hn; [lia|].
    rewrite for_in_range_S.
    destruct (decide (l < n)) as [Hlt|Hge]; [by rewrite IH|].
    assert (n = l) as -> by lia.
    destruct (initialize_layers_errors net_dims l st) as [[[P s] ->] | ->]; [|done].
    cbn [mbind result_bind]. unfold initialize_layer. by rewrite decide_True. }
  by rewrite Hloop.
Qed.
End initialisation_further.

Lemma initialize_multilayer_weights_spec_witness :
  ∃ P, initialize_multilayer_weights () (λ _, ()) (λ s _ _ '(r, c), (np_zeros r c, s))
         [2; 3; 10] = Ok P ∧
    size P = 2 * (length [2; 3; 10] - 1) ∧
    (∀ k, is_Some (P !! k) ↔ layer_keys (length [2; 3; 10] - 1) k) ∧
    wf_parameters [2; 3; 10] P.
Proof.
  apply (initialize_multilayer_weights_spec () (λ _, ())
           (λ s _ _ '(r, c), (np_zeros r c, s))).
  - intros s loc scale r c. apply np_zeros_has_shape.
  - repeat constructor.
Defined.

Lemma initialize_multilayer_weights_zero_dim_witness :
  initialize_multilayer_weights () (λ _, ()) (λ s _ _ '(r, c), (np_zeros r c, s))
    [2; 0; 10] = Raise ZeroDivisionError.
Proof.
  apply (initialize_multilayer_weights_zero_dim () (λ _, ())
           (λ s _ _ '(r, c), (np_zeros r c, s)) [2; 0; 10] 1).
  - simpl. lia.
  - reflexivity.
Defined.

(** ** The moment accumulators *)

Lemma initialize_velocity_same (P : dict) (idx : list nat) (V V' S' : dict) :
  for_in idx (initialize_velocity_body P) (V, V) = Ok (V', S') → V' = S'.
Proof.
  revert V. induction idx as [|i idx IH]; intros V Hrun.
  - cbn [for_in] in Hrun. by injection Hrun as <- <-.
  - cbn [for_in] in Hrun. apply bind_Ok_inv in Hrun as ([V1 S1] & Hbody & Hrun).
    unfold initialize_velocity_body in Hbody.
    destruct (getitem P (key "W" (i + 1))) as [W|e]; [|done].
    cbn [mbind result_bind] in Hbody.
    destruct (getitem P (key "b" (i + 1))) as [b|e]; [|done].
    cbn [mbind result_bind] in Hbody. injection Hbody as <- <-.
    by apply (IH _ Hrun).
Qed.

(** X18. When every layer the size of the dictionary promises has its
    weights and its bias, [initialize_velocity] returns two equal
    dictionaries that hold, for every layer, zero arrays of the shapes of
    the weights (key ["dW"l]) and of the bias (key ["db"l]), and nothing
    else. *)
Theorem initialize_velocity_spec (P : dict) :
  (∀ l, 1 ≤ l ≤ size P / 2 → is_Some (P !! key "W" l) ∧ is_Some (P !! key "b" l)) →
  ∃ V, initialize_velocity P = Ok (V, V) ∧
    (∀ l W b, 1 ≤ l ≤ size P / 2 →
       P !! key "W" l = Some W → P !! key "b" l = Some b →
       V !! key "dW" l = Some (np_zeros_like W) ∧
       V !! key "db" l = Some (np_zeros_like b)) ∧
    ∀ k, (∀ l, 1 ≤ l ≤ size P / 2 → k ≠ key "dW" l ∧ k ≠ key "db" l) → V !! k = None.
Proof.
  intros Hok.
  destruct (initialize_velocity_loop P (range (size P / 2)) ∅ ∅) as (V & S & Hrun & Hz & Hoth).
  { intros i Hi. apply Hok. apply elem_of_range_succ, list_elem_of_fmap. by exists i. }
  pose proof (initialize_velocity_same P _ ∅ V S Hrun) as <-.
  exists V. split; [by rewrite initialize_velocity_unfold|]. split.
  - intros l W b Hl HW Hb.
    destruct (Hz (l - 1)) as [HzW Hzb]; [unfold range; apply elem_of_seq; lia|].
    replace (l - 1 + 1) with l in * by lia.
    destruct (HzW W HW) as [-> _]. destruct (Hzb b Hb) as [-> _]. done.
  - intros k Hk. destruct (Hoth k) as [-> _]; [|done].
    intros i Hi. apply Hk. apply elem_of_range_succ, list_elem_of_fmap. by exists i.
Qed.

Lemma initialize_velocity_spec_witness :
  ∃ V, initialize_velocity demo_parameters = Ok (V, V) ∧
    (∀ l W b, 1 ≤ l ≤ size demo_parameters / 2 →
       demo_parameters !! key "W" l = Some W → demo_parameters !! key "b" l = Some b →
       V !! key "dW" l = Some (np_zeros_like W) ∧
       V !! key "db" l = Some (np_zeros_like b)) ∧
    ∀ k, (∀ l, 1 ≤ l ≤ size demo_parameters / 2 → k ≠ key "dW" l ∧ k ≠ key "db" l) →
      V !! k = None.
Proof.
  apply (initialize_velocity_spec demo_parameters).
  intros l Hl. rewrite demo_parameters_size in Hl. assert (l = 1) as -> by lia.
  split; by eexists.
Defined.

(** X19. When the size of the dictionary promises a layer whose weights or
    bias are not stored under ["W"l] or ["b"l] (the layers before it being
    complete), [initialize_velocity] raises [KeyError] for the first key it
    misses. *)
Theorem initialize_velocity_missing_key (P : dict) (l : nat) :
  1 ≤ l ≤ size P / 2 →
  (∀ l', 1 ≤ l' < l → is_Some (P !! key "W" l') ∧ is_Some (P !! key "b" l')) →
  P !! key "W" l = None ∨ P !! key "b" l = None →
  initialize_velocity P
  = Raise (KeyError (if decide (P !! key "W" l = None) then key "W" l else key "b" l)).
Proof.
  intros Hl Hbefore Hmiss. rewrite initialize_velocity_unfold. unfold range.
  replace (size P / 2) with ((l - 1) + S (size P / 2 - l)) by lia.
  rewrite seq_app, for_in_app.
  destruct (initialize_velocity_loop P (seq 0 (l - 1)) ∅ ∅) as (V & S & -> & _).
  { intros i Hi. apply elem_of_seq in Hi. apply Hbefore. lia. }
  assert (Hbody : initialize_velocity_body P (l - 1) (V, S)
            = Raise (KeyError (if decide (P !! key "W" l = None)
                               then key "W" l else key "b" l))).
  { unfold initialize_velocity_body, getitem. replace (l - 1 + 1) with l by lia.
    destruct (P !! key "W" l) as [W|] eqn:HW.
    - destruct Hmiss as [?| ->]; [done|]. by rewrite decide_False.
    - by rewrite decide_True. }
  cbn [mbind result_bind seq for_in]. rewrite Nat.add_0_l, Hbody. done.
Qed.

Lemma initialize_velocity_missing_key_witness :
  initialize_velocity (<["c1" := [[3]]%R]> (<["W1" := [[1; 2]]%R]> ∅))
  = Raise (KeyError (if decide ((<["c1" := [[3]]%R]> (<["W1" := [[1; 2]]%R]> ∅) : dict)
                                  !! key "W" 1 = None)
                     then key "W" 1 else key "b" 1)).
Proof.
  apply (initialize_velocity_missing_key (<["c1" := [[3]]%R]> (<["W1" := [[1; 2]]%R]> ∅)) 1).
  - split; [lia|]. reflexivity.
  - intros l' Hl'. lia.
  - right. reflexivity.
Defined.

(** ** The update *)

Lemma same_keys_dom (D D' : dict) (ks : list string) :
  (∀ k, k ∈ ks → is_Some (D !! k) ∧ is_Some (D' !! k)) →
  (∀ k, k ∉ ks → D' !! k = D !! k) →
  dom D' = dom D.
Proof.
  intros Hin Hout. apply set_eq. intros k. rewrite !elem_of_dom.
  destruct (decide (k ∈ ks)) as [Hk|Hk].
  - destruct (Hin k Hk). tauto.
  - by rewrite (Hout k Hk).
Qed.

Lemma elem_of_layer_key_list (kW kb : string) (ls : list nat) (k : string) :
  k ∈ (ls ≫= λ l, [key kW l; key kb l]) ↔ ∃ l, l ∈ ls ∧ (k = key kW l ∨ k = key kb l).
Proof.
  rewrite list_elem_of_bind. split.
  - intros (l & Hk & Hl). exists l. split; [done|].
    apply elem_of_cons in Hk as [->|Hk]; [by left|].
    apply list_elem_of_singleton in Hk. by right.
  - intros (l & Hl & Hk). exists l. split; [|done].
    destruct Hk as [-> | ->]; [by left|]. right. by left.
Qed.

(** X20. An update changes no key: the three dictionaries it returns have
    the keys of the three it was given (so the number of layers read off
    the parameters stays the same from call to call), and every entry of
    the parameters that is not a ["W"l] or ["b"l] of a layer is returned
    as it was. *)
Theorem update_parameters_velocity_frame (parameters gradients velocity svelocity : dict)
  (epoch t : nat) (beta1 beta2 epsilon learning_rate decay_rate : R) :
  (1 + decay_rate * INR epoch ≠ 0)%R →
  (∀ l, 1 ≤ l ≤ size parameters / 2 → layer_ok gradients parameters velocity svelocity l) →
  ∃ parameters' alpha velocity' svelocity',
    update_parameters_velocity parameters gradients epoch velocity svelocity t
      beta1 beta2 epsilon learning_rate decay_rate
      = Ok (parameters', alpha, velocity', svelocity') ∧
    dom parameters' = dom parameters ∧
    dom velocity' = dom velocity ∧ dom svelocity' = dom svelocity ∧
    size parameters' = size parameters ∧
    ∀ k, ¬ layer_keys (size parameters / 2) k → parameters' !! k = parameters !! k.
Proof.
  intros Hdiv Hok.
  destruct (update_parameters_velocity_run parameters gradients velocity svelocity epoch t
              beta1 beta2 epsilon learning_rate decay_rate Hdiv Hok)
    as (P' & V' & S' & Hrun & _ & Hup & [HothP HothVS]).
  set (ls := (λ i, i + 1) <$> range (size parameters / 2)) in *.
  assert (HdomP : dom P' = dom parameters).
  { apply (same_keys_dom _ _ (ls ≫= λ l, [key "W" l; key "b" l])).
    - intros k Hk. apply elem_of_layer_key_list in Hk as (l & Hl & Hk).
      apply elem_of_range_succ in Hl.
      destruct (Hup l Hl) as
        [(? & ? & ? & ? & ? & ? & ? & ? & ? & HW & _ & _ & _ & HW' & _)
         (? & ? & ? & ? & ? & ? & ? & ? & ? & Hb & _ & _ & _ & Hb' & _)].
      destruct Hk as [-> | ->]; split; by eexists.
    - intros k Hk. apply HothP. intros l Hl.
      split; intros ->; apply Hk, elem_of_layer_key_list; exists l; tauto. }
  assert (HdomVS : dom V' = dom velocity ∧ dom S' = dom svelocity).
  { split; apply (same_keys_dom _ _ (ls ≫= λ l, [key "dW" l; key "db" l])).
    - intros k Hk. apply elem_of_layer_key_list in Hk as (l & Hl & Hk).
      apply elem_of_range_succ in Hl.
      destruct (Hup l Hl) as
        [(? & ? & ? & ? & ? & ? & ? & ? & ? & _ & _ & HW & _ & _ & HW' & _)
         (? & ? & ? & ? & ? & ? & ? & ? & ? & _ & _ & Hb & _ & _ & Hb' & _)].
      destruct Hk as [-> | ->]; split; by eexists.
    - intros k Hk. apply HothVS. intros l Hl.
      split; intros ->; apply Hk, elem_of_layer_key_list; exists l; tauto.
    - intros k Hk. apply elem_of_layer_key_list in Hk as (l & Hl & Hk).
      apply elem_of_range_succ in Hl.
      destruct (Hup l Hl) as
        [(? & ? & ? & ? & ? & ? & ? & ? & ? & _ & _ & _ & HW & _ & _ & HW' & _)
         (? & ? & ? & ? & ? & ? & ? & ? & ? & _ & _ & _ & Hb & _ & _ & Hb' & _)].
      destruct Hk as [-> | ->]; split; by eexists.
    - intros k Hk. apply HothVS. intros l Hl.
      split; intros ->; apply Hk, elem_of_layer_key_list; exists l; tauto. }
  destruct HdomVS as [HdomV HdomS].
  eexists P', _, V', S'. split; [exact Hrun|]. split; [done|]. split; [done|].
  split; [done|]. split.
  - by rewrite <- !size_dom, HdomP.
  - intros k Hk. apply HothP. intros l Hl. apply elem_of_range_succ in Hl.
    split; intros ->; apply Hk; exists l; tauto.
Qed.

Lemma update_parameters_velocity_frame_witness :
  ∃ parameters' alpha velocity' svelocity',
    update_parameters_velocity demo_parameters demo_gradients 0 demo_zeros demo_zeros 1
      0.9 0.999 1e-8 0.0001 0.01
      = Ok (parameters', alpha, velocity', svelocity') ∧
    dom parameters' = dom demo_parameters ∧
    dom velocity' = dom demo_zeros ∧ dom svelocity' = dom demo_zeros ∧
    size parameters' = size demo_parameters ∧
    ∀ k, ¬ layer_keys (size demo_parameters / 2) k → parameters' !! k = demo_parameters !! k.
Proof.
  apply (update_parameters_velocity_frame demo_parameters demo_gradients demo_zeros demo_zeros
           0 1 0.9 0.999 1e-8 0.0001 0.01).
  - simpl. lra.
  - apply demo_layer_ok; by left.
Defined.

Section first_step.
Local Open Scope R_scope.

Lemma first_step_entry (beta1 beta2 epsilon learning_rate p g : R) :
  beta1 < 1 → 0 <= beta2 < 1 → 0 < epsilon → 0 <= learning_rate →
  Rabs ((spec_update_rule beta1 beta2 epsilon learning_rate 1 p 0 0 g).1.1 - p)
    <= learning_rate * ((1 - beta2) / (1 - beta1)) ∧
  ((spec_update_rule beta1 beta2 epsilon learning_rate 1 p 0 0 g).1.1 - p) * g <= 0.
Proof.
  intros Hb1 Hb2 Heps Hlr. unfold spec_update_rule. cbn [fst].
  replace (beta1 ^ 1) with beta1 by (simpl; lra).
  replace (beta2 ^ 1) with beta2 by (simpl; lra).
  replace ((beta2 * 0 + (1 - beta2) * g ^ 2) / (1 - beta2)) with (Rsqr g)
    by (unfold Rsqr; field; lra).
  set (q := sqrt (Rsqr g + epsilon)).
  assert (Habs : Rabs g <= q).
  { rewrite <- sqrt_Rsqr_abs. apply sqrt_le_1_alt. lra. }
  assert (Hq : 0 < q).
  { apply sqrt_lt_R0. pose proof (Rle_0_sqr g). lra. }
  set (c := (1 - beta2) / (1 - beta1)).
  assert (Hc : 0 <= c).
  { unfold c. apply Rmult_le_pos; [lra|]. left. apply Rinv_0_lt_compat. lra. }
  set (r := g / q).
  assert (Hrq : r * q = g) by (unfold r; field; lra).
  assert (Hr : -1 <= r <= 1).
  { pose proof (Rle_abs g) as Hhi. pose proof (Rle_abs (- g)) as Hlo.
    rewrite Rabs_Ropp in Hlo. split; nra. }
  assert (Hrg : 0 <= r * g).
  { rewrite <- Hrq. replace (r * (r * q)) with (r * r * q) by ring.
    apply Rmult_le_pos; [nra|lra]. }
  replace (p - learning_rate * ((beta2 * 0 + (1 - beta2) * g) / (1 - beta1)) / q - p)
    with (- (learning_rate * c) * r) by (unfold c, r; field; lra).
  assert (Hk : 0 <= learning_rate * c) by (by apply Rmult_le_pos).
  fold c. split.
  - apply Rabs_le. split; nra.
  - nra.
Qed.

End first_step.

(** X21. The first step is short: from the zero accumulators of
    [initialize_velocity] and [t = 1], with [beta1 < 1], [0 <= beta2 < 1],
    [epsilon > 0] and a learning rate [>= 0], no entry of a weight or a bias
    moves by more than [learning_rate * (1 - beta2) / (1 - beta1)] (one
    hundredth of the learning rate for 0.9 and 0.999), and none moves in the
    direction of its gradient. *)
Theorem first_step_bound (dims : list nat) (parameters gradients : dict) (epoch : nat)
  (beta1 beta2 epsilon learning_rate decay_rate : R) :
  wf_parameters dims parameters → wf_gradients dims gradients →
  (1 + decay_rate * INR epoch ≠ 0)%R →
  (beta1 < 1)%R → (0 <= beta2 < 1)%R → (0 < epsilon)%R → (0 <= learning_rate)%R →
  ∃ velocity svelocity parameters' alpha velocity' svelocity',
    initialize_velocity parameters = Ok (velocity, svelocity) ∧
    update_parameters_velocity parameters gradients epoch velocity svelocity 1
      beta1 beta2 epsilon learning_rate decay_rate
      = Ok (parameters', alpha, velocity', svelocity') ∧
    ∀ l, 1 ≤ l ≤ num_layers dims →
      step_within (learning_rate * ((1 - beta2) / (1 - beta1)))%R
        gradients parameters parameters' (key "W" l) (key "dW" l) ∧
      step_within (learning_rate * ((1 - beta2) / (1 - beta1)))%R
        gradients parameters parameters' (key "b" l) (key "db" l).
Proof.
  intros [Hsize HP] HG Hdiv Hb1 Hb2 Heps Hlr.
  destruct (initialize_velocity_loop parameters (range (size parameters / 2)) ∅ ∅)
    as (V0 & S0 & Hinit & Hz & _).
  { intros i Hi. unfold range in Hi. apply elem_of_seq in Hi.
    destruct (HP (i + 1)) as (W & b & -> & -> & _); [lia|]. by split. }
  assert (Hok : ∀ l, 1 ≤ l ≤ size parameters / 2 →
            layer_ok gradients parameters V0 S0 l).
  { intros l Hl. rewrite Hsize in Hl.
    destruct (HP l Hl) as (W & b & HW & Hb & HWs & Hbs).
    destruct (HG l Hl) as (gW & gb & HgW & Hgb & HgWs & Hgbs).
    destruct (Hz (l - 1)) as [HzW Hzb].
    { unfold range. apply elem_of_seq. lia. }
    replace (l - 1 + 1) with l in * by lia.
    destruct (HzW W HW) as [HVW HSW]. destruct (Hzb b Hb) as [HVb HSb].
    split.
    - exists W, gW, (np_zeros_like W), (np_zeros_like W), (dim dims l), (dim dims (l - 1)).
      split_and!; first [done | by apply np_zeros_like_has_shape].
    - exists b, gb, (np_zeros_like b), (np_zeros_like b), (dim dims l), 1.
      split_and!; first [done | by apply np_zeros_like_has_shape]. }
  destruct (update_parameters_velocity_run parameters gradients V0 S0 epoch 1
              beta1 beta2 epsilon learning_rate decay_rate Hdiv Hok)
    as (P' & V' & S' & Hrun & _ & Hup & _).
  assert (Hslot : ∀ kp kg,
            slot_updated beta1 beta2 epsilon learning_rate 1 gradients
              parameters V0 S0 P' V' S' kp kg →
            zero_moments parameters V0 S0 kp kg →
            step_within (learning_rate * ((1 - beta2) / (1 - beta1)))%R
              gradients parameters P' kp kg).
  { intros kp kg (p & g & v & s & p' & v' & s' & r & c & HPk & HGk & HVk & HSk & HPk' & _ & _
                  & Hp & Hp' & _ & _ & Hent) Hzero.
    destruct (Hzero p HPk) as [HV0 HS0].
    rewrite HVk in HV0. injection HV0 as ->. rewrite HSk in HS0. injection HS0 as ->.
    exists p, p', g, r, c. split_and!; try done.
    intros i j Hi Hj. specialize (Hent i j Hi Hj).
    rewrite (entry_np_zeros_like p r c) in Hent by done.
    pose proof (first_step_entry beta1 beta2 epsilon learning_rate
                  (entry p i j) (entry g i j) Hb1 Hb2 Heps Hlr) as Hbound.
    rewrite <- Hent in Hbound. exact Hbound. }
  exists V0, S0, P'. eexists _, V', S'.
  split; [by rewrite initialize_velocity_unfold|]. split; [exact Hrun|].
  intros l Hl. rewrite <- Hsize in Hl.
  destruct (Hup l Hl) as [HupW Hupb].
  destruct (Hz (l - 1)) as [HzW Hzb].
  { unfold range. apply elem_of_seq. lia. }
  replace (l - 1 + 1) with l in * by lia.
  split; by apply Hslot.
Qed.

Lemma demo_gradients_wf : wf_gradients [2; 1] demo_gradients.
Proof.
  intros l Hl. unfold num_layers in Hl. simpl in Hl.
  assert (l = 1) as -> by lia.
  exists [[4; 5]]%R, [[6]]%R. split; [done|]. split; [done|].
  split; (split; [reflexivity|]; repeat constructor).
Qed.

Lemma first_step_bound_witness :
  ∃ velocity svelocity parameters' alpha velocity' svelocity',
    initialize_velocity demo_parameters = Ok (velocity, svelocity) ∧
    update_parameters_velocity demo_parameters demo_gradients 0 velocity svelocity 1
      0.9 0.999 1e-8 0.0001 0.01
      = Ok (parameters', alpha, velocity', svelocity') ∧
    ∀ l, 1 ≤ l ≤ num_layers [2; 1] →
      step_within (0.0001 * ((1 - 0.999) / (1 - 0.9)))%R
        demo_gradients demo_parameters parameters' (key "W" l) (key "dW" l) ∧
      step_within (0.0001 * ((1 - 0.999) / (1 - 0.9)))%R
        demo_gradients demo_parameters parameters' (key "b" l) (key "db" l).
Proof.
  apply (first_step_bound [2; 1] demo_parameters demo_gradients 0 0.9 0.999 1e-8 0.0001 0.01).
  - exact demo_parameters_wf.
  - exact demo_gradients_wf.
  - simpl. lra.
  - lra.
  - lra.
  - lra.
  - lra.
Defined.

(** ** The training loop *)

(** X22. [np.split(M, sections, axis=1)] on an array whose number of
    columns is a multiple of [sections]: the argument (the [batch_size] of
    [multi_layer_network]) is the NUMBER of pieces; every piece keeps all
    rows and has [N / sections] columns, and column [j] of piece [k] is
    column [k * (N / sections) + j] of the array, so no sample is lost,
    repeated or reordered. *)
Theorem np_split_spec {A} (M : list (list A)) (r N sections : nat) :
  has_shape r N M → 0 < r → 0 < sections → N mod sections = 0 →
  ∃ chunks, np_split M sections = Ok chunks ∧ length chunks = sections ∧
    ∀ k chunk, chunks !! k = Some chunk →
      has_shape r (N / sections) chunk ∧
      ∀ i row, M !! i = Some row →
        ∃ row', chunk !! i = Some row' ∧
          ∀ j, j < N / sections → row' !! j = row !! (k * (N / sections) + j).
Proof.
  intros HM Hr Hs Hmod. unfold np_split. cbn zeta.
  rewrite (has_shape_shape1 _ _ _ HM) by done.
  rewrite (decide_False (P := sections = 0)) by lia.
  rewrite (decide_False (P := N mod sections ≠ 0)) by (intros Hne; by apply Hne).
  set (w := N / sections).
  assert (HNw : N = sections * w) by (apply Nat.Div0.div_exact; done).
  eexists. split; [done|]. unfold range. rewrite length_fmap, length_seq.
  split; [done|]. intros k chunk Hk.
  rewrite list_lookup_fmap in Hk.
  destruct (seq 0 sections !! k) as [k'|] eqn:Hseq; [|done].
  apply lookup_seq in Hseq as [-> Hlt]. cbn in Hk. injection Hk as <-.
  destruct HM as [HMr HMc]. split.
  - split; [by rewrite length_fmap|].
    apply Forall_fmap. eapply Forall_impl; [exact HMc|].
    intros row Hrow. simpl in Hrow |- *.
    apply (chunk_length _ _ _ sections); [by rewrite Hrow|done].
  - intros i row Hi. exists (take w (drop (k * w) row)). split.
    + by rewrite list_lookup_fmap, Hi.
    + intros j Hj. by rewrite lookup_take_lt, lookup_drop by done.
Qed.

Lemma np_split_spec_witness :
  ∃ chunks, np_split [[1; 2; 3; 4]; [5; 6; 7; 8]]%R 2 = Ok chunks ∧ length chunks = 2 ∧
    ∀ k chunk, chunks !! k = Some chunk →
      has_shape 2 (4 / 2) chunk ∧
      ∀ i row, [[1; 2; 3; 4]; [5; 6; 7; 8]]%R !! i = Some row →
        ∃ row', chunk !! i = Some row' ∧
          ∀ j, j < 4 / 2 → row' !! j = row !! (k * (4 / 2) + j).
Proof.
  apply (np_split_spec [[1; 2; 3; 4]; [5; 6; 7; 8]]%R 2 4 2).
  - split; [reflexivity|]. repeat constructor.
  - lia.
  - lia.
  - reflexivity.
Defined.

Lemma update_parameters_velocity_alpha (P G V S : dict) (epoch t : nat)
  (b1 b2 eps lr dr : R) (P' V' S' : dict) (alpha : R) :
  update_parameters_velocity P G epoch V S t b1 b2 eps lr dr = Ok (P', alpha, V', S') →
  alpha = (lr * (1 / (1 + dr * INR epoch)))%R.
Proof.
  unfold update_parameters_velocity. case_decide; [done|]. cbn zeta. intros Hrun.
  apply bind_Ok_inv in Hrun as ([[P1 V1] S1] & _ & Hrun). by injection Hrun as _ <- _ _.
Qed.

Lemma batch_step_counter (X_batch_size : list ndarray) (Y_batch_size : list label_array)
  (learning_rate decay_rate : R) (ii jj : nat) (st st' : train_state) :
  batch_step X_batch_size Y_batch_size learning_rate decay_rate ii jj st = Ok st' →
  st_t st' = st_t st + 1 ∧
  st_alpha st' = (learning_rate * (1 / (1 + decay_rate * INR ii)))%R.
Proof.
  unfold batch_step. intros H.
  apply bind_Ok_inv in H as (Xjj & _ & H).
  apply bind_Ok_inv in H as ([Z caches] & _ & H).
  apply bind_Ok_inv in H as (Yjj & _ & H).
  apply bind_Ok_inv in H as ([[A cc] cost] & _ & H).
  apply bind_Ok_inv in H as (dZ & _ & H).
  apply bind_Ok_inv in H as (G & _ & H).
  apply bind_Ok_inv in H as ([[[P' alpha] V'] S'] & Hup & H).
  injection H as <-. cbn [st_t st_alpha]. split; [done|].
  by apply update_parameters_velocity_alpha in Hup.
Qed.

Section run_further.
Variable dims : list nat.
Hypothesis dims_pos : Forall (λ d, 0 < d) dims.
Hypothesis dims_layers : 1 ≤ num_layers dims.
Hypothesis dims_classes : dim dims (num_layers dims) = num_classes.
Variables (X_batch_size : list ndarray) (Y_batch_size : list label_array).
Variables (B0 : ndarray) (validation_label : label_array).
Variables (learning_rate decay_rate : R) (m mv : nat).
Hypothesis batches_ok :
  ∀ jj, jj < length X_batch_size →
    ∃ Xjj Yjj, X_batch_size !! jj = Some Xjj ∧ Y_batch_size !! jj = Some Yjj ∧
      wf_data dims m Xjj Yjj.
Hypothesis batches_nonempty : 0 < length X_batch_size.
Hypothesis validation_ok : wf_data dims mv B0 validation_label.

Lemma epoch_step_full (ii : nat) (st : train_state) (costs vcosts : list (option R)) :
  wf_state dims st → (1 + decay_rate * INR ii ≠ 0)%R →
  ∃ st' cost vcost,
    epoch_step X_batch_size Y_batch_size B0 validation_label learning_rate decay_rate
      ii (st, costs, vcosts) = Ok (st', costs ++ [Some cost], vcosts ++ [Some vcost]) ∧
    wf_state dims st' ∧
    st_t st' = st_t st + length X_batch_size ∧
    st_alpha st' = (learning_rate * (1 / (1 + decay_rate * INR ii)))%R.
Proof using dims_pos dims_layers dims_classes batches_ok batches_nonempty validation_ok.
  intros Hst Hdiv. unfold epoch_step.
  destruct (for_in_seq_invariant
              (λ j s, wf_state dims s ∧ st_t s = st_t st + j ∧
                      (0 < j → (∃ c, st_cost s = Some (Some c)) ∧
                               st_alpha s
                               = (learning_rate * (1 / (1 + decay_rate * INR ii)))%R))
              0 (length X_batch_size)
              (batch_step X_batch_size Y_batch_size learning_rate decay_rate ii) st)
    as (st' & Hrun & Hst' & Ht & Hlast).
  { split; [done|]. split; lia. }
  { intros j s Hj (Hs & Hts & _).
    destruct (batch_step_ok dims dims_pos dims_layers dims_classes
                X_batch_size Y_batch_size learning_rate decay_rate m batches_ok
                ii j s Hs ltac:(lia) Hdiv) as (s' & c & Hstep & Hs' & Hc).
    destruct (batch_step_counter _ _ _ _ _ _ _ _ Hstep) as [Ht' Ha'].
    exists s'. split; [done|]. split; [done|]. split; [lia|].
    intros _. split; [by exists c|done]. }
  unfold range. rewrite Hrun. cbn [mbind result_bind].
  destruct Hlast as [[c Hc] Halpha]; [simpl; lia|]. rewrite Hc. cbn [mbind result_bind].
  destruct Hst' as (HP' & HV' & HS').
  destruct (forward_loss_ok dims dims_pos dims_layers dims_classes _ B0 validation_label mv
              HP' validation_ok)
    as (VZ & vcaches & B & vcost & Hvfwd & _ & Hvloss & _).
  rewrite Hvfwd. cbn [mbind result_bind]. rewrite Hvloss. cbn [mbind result_bind].
  exists st', c, vcost. split; [|done].
  by destruct (decide (ii mod 10 = 0)).
Qed.

Lemma epochs_full (E : nat) (st : train_state) :
  wf_state dims st → (∀ ii, ii < E → (1 + decay_rate * INR ii ≠ 0)%R) →
  ∃ st' costs vcosts,
    for_in (range E)
      (epoch_step X_batch_size Y_batch_size B0 validation_label learning_rate decay_rate)
      (st, [], []) = Ok (st', costs, vcosts) ∧
    wf_state dims st' ∧
    st_t st' = st_t st + E * length X_batch_size ∧
    (0 < E → st_alpha st' = (learning_rate * (1 / (1 + decay_rate * INR (E - 1))))%R) ∧
    length costs = E ∧ length vcosts = E ∧
    Forall is_Some costs ∧ Forall is_Some vcosts.
Proof using dims_pos dims_layers dims_classes batches_ok batches_nonempty validation_ok.
  intros Hst Hdiv.
  destruct (for_in_seq_invariant
              (λ (ii : nat) (s : train_state * list (option R) * list (option R)),
                 wf_state dims s.1.1 ∧
                 st_t s.1.1 = st_t st + ii * length X_batch_size ∧
                 (0 < ii → st_alpha s.1.1
                           = (learning_rate * (1 / (1 + decay_rate * INR (ii - 1))))%R) ∧
                 length s.1.2 = ii ∧ length s.2 = ii ∧
                 Forall is_Some s.1.2 ∧ Forall is_Some s.2)
              0 E
              (epoch_step X_batch_size Y_batch_size B0 validation_label
                 learning_rate decay_rate) (st, [], []))
    as ([[st' costs] vcosts] & Hrun & HI).
  { cbn [fst snd]. split_and!; try done; lia. }
  { intros ii [[s costs] vcosts] Hii (Hs & Ht & _ & Hlc & Hlv & Hc & Hv).
    cbn [fst snd] in *.
    destruct (epoch_step_full ii s costs vcosts Hs) as (s' & c & vc & Hstep & Hs' & Ht' & Ha');
      [apply Hdiv; lia|].
    eexists. split; [exact Hstep|]. cbn [fst snd]. split_and!.
    - done.
    - lia.
    - intros _. by replace (S ii - 1) with ii by lia.
    - rewrite length_app. simpl. lia.
    - rewrite length_app. simpl. lia.
    - apply Forall_app. split; [done|]. by repeat constructor.
    - apply Forall_app. split; [done|]. by repeat constructor. }
  exists st', costs, vcosts. split; [exact Hrun|]. exact HI.
Qed.

(** X23. Over a well-shaped run of [E] epochs the step counter [t], which
    the bias correction of the update reads, is never reset: after the run
    it has grown by [E] times the number of batches; and the decayed rate
    [alpha], which the update returns but does not use, is left at its value
    for the last epoch, [learning_rate / (1 + decay_rate * (E - 1))]. *)
Theorem training_step_counter (E : nat) (st : train_state) :
  wf_state dims st → (∀ ii, ii < E → (1 + decay_rate * INR ii ≠ 0)%R) →
  ∃ st' costs vcosts,
    for_in (range E)
      (epoch_step X_batch_size Y_batch_size B0 validation_label learning_rate decay_rate)
      (st, [], []) = Ok (st', costs, vcosts) ∧
    st_t st' = st_t st + E * length X_batch_size ∧
    (0 < E → st_alpha st' = (learning_rate / (1 + decay_rate * INR (E - 1)))%R).
Proof using dims_pos dims_layers dims_classes batches_ok batches_nonempty validation_ok.
  intros Hst Hdiv.
  destruct (epochs_full E st Hst Hdiv)
    as (st' & costs & vcosts & Hrun & _ & Ht & Ha & _).
  exists st', costs, vcosts. split; [done|]. split; [done|].
  intros HE. rewrite (Ha HE). unfold Rdiv. lra.
Qed.
End run_further.

Lemma zero_state_wf : wf_state [2; 10] zero_state.
Proof.
  split; [exact zero_parameters_wf|].
  assert (Hacc : wf_gradients [2; 10] zero_accumulators).
  { intros l Hl. unfold num_layers in Hl. simpl in Hl.
    assert (l = 1) as -> by lia.
    exists (np_zeros 10 2), (np_zeros 10 1). split; [done|]. split; [done|].
    split; apply np_zeros_has_shape. }
  by split.
Qed.

Lemma demo_batch_wf : wf_data [2; 10] 1 [[1]; [1]]%R [[3%Z]].
Proof.
  exists [3%Z]. split; [reflexivity|]. split; [split; [reflexivity|repeat constructor]|].
  split; [reflexivity|]. split; [lia|]. unfold num_classes. repeat constructor; lia.
Qed.

Lemma training_step_counter_witness :
  ∃ st' costs vcosts,
    for_in (range 2)
      (epoch_step [[[1]; [1]]%R] [[[3%Z]]] [[1]; [1]]%R [[3%Z]] 0.01 0.01)
      (zero_state, [], []) = Ok (st', costs, vcosts) ∧
    st_t st' = st_t zero_state + 2 * length [[[1]; [1]]%R] ∧
    (0 < 2 → st_alpha st' = (0.01 / (1 + 0.01 * INR (2 - 1)))%R).
Proof.
  apply (training_step_counter [2; 10]) with (m := 1) (mv := 1).
  - repeat constructor.
  - unfold num_layers. simpl. lia.
  - reflexivity.
  - intros jj Hjj. simpl in Hjj. assert (jj = 0) as -> by lia.
    eexists _, _. split; [reflexivity|]. split; [reflexivity|]. exact demo_batch_wf.
  - simpl. lia.
  - exact demo_batch_wf.
  - exact zero_state_wf.
  - intros ii _. pose proof (pos_INR ii). lra.
Defined.

Section run_total.
Variable rng_state : Type.
Variable np_random_seed : nat → rng_state.
Variable np_random_normal : rng_state → R → R → nat * nat → ndarray * rng_state.
(** [normal] returns an array of the shape it is asked for. *)
Hypothesis normal_shape :
  ∀ s loc scale r c, has_shape r c (np_random_normal s loc scale (r, c)).1.

Variable dims : list nat.
Hypothesis dims_pos : Forall (λ d, 0 < d) dims.
Hypothesis dims_layers : 1 ≤ num_layers dims.
Hypothesis dims_classes : dim dims (num_layers dims) = num_classes.

(** X24. Training returns on well-shaped input: for positive layer
    dimensions ending in ten classes, training and validation data of the
    input height with one label in [[0, 10)] per sample, and a number of
    batches that divides the number of samples, [multi_layer_network]
    returns one numeric cost and one numeric validation cost per epoch, and
    parameters that have the shapes of the network again. *)
Theorem multi_layer_network_trained (X : ndarray) (Y : label_array)
  (validation_data : ndarray) (validation_label : label_array)
  (num_iterations : nat) (learning_rate decay_rate : R) (batch_size n mv : nat) :
  wf_data dims n X Y → wf_data dims mv validation_data validation_label →
  0 < batch_size → n mod batch_size = 0 →
  (∀ ii, ii < num_iterations → (1 + decay_rate * INR ii ≠ 0)%R) →
  ∃ costs parameters vcosts,
    multi_layer_network rng_state np_random_seed np_random_normal
      X Y validation_data validation_label dims num_iterations
      learning_rate decay_rate batch_size = Ok (costs, parameters, vcosts) ∧
    length costs = num_iterations ∧ length vcosts = num_iterations ∧
    Forall is_Some costs ∧ Forall is_Some vcosts ∧
    wf_parameters dims parameters.
Proof using normal_shape dims_pos dims_layers dims_classes.
  intros Hdata Hval Hbs Hmod Hdiv.
  destruct (initialisation_wf rng_state np_random_seed np_random_normal normal_shape
              dims dims_pos) as (P & V & S & HP & HVS & Hwf).
  assert (Hd0 : 0 < dim dims 0) by (apply (dim_pos dims dims_pos); (done || lia)).
  destruct (np_split_ok dims X Y n batch_size Hdata Hd0 Hbs Hmod)
    as (Xb & Yb & HXb & HYb & HlenX & HlenY & Hbatches).
  assert (Hwf' : wf_state dims {| st_parameters := P; st_v := V; st_sv := S; st_t := 0;
                                  st_alpha := learning_rate; st_cost := None |}) by done.
  destruct (epochs_full dims dims_pos dims_layers dims_classes Xb Yb
              validation_data validation_label learning_rate decay_rate
              (n / batch_size) mv) with (E := num_iterations) (st := {|
                st_parameters := P; st_v := V; st_sv := S; st_t := 0;
                st_alpha := learning_rate; st_cost := None |})
    as (st' & costs & vcosts & Hrun & (HP' & _) & _ & _ & Hlc & Hlv & Hc & Hv);
    [by rewrite HlenX|lia|done..|].
  exists costs, (st_parameters st'), vcosts. split; [|done].
  unfold multi_layer_network. rewrite HP. cbn [mbind result_bind]. cbn zeta.
  rewrite HVS. cbn [mbind result_bind]. rewrite HXb. cbn [mbind result_bind].
  rewrite HYb. cbn [mbind result_bind]. rewrite Hrun. done.
Qed.
End run_total.

Lemma multi_layer_network_trained_witness :
  ∃ costs parameters vcosts,
    multi_layer_network () (λ _, ()) (λ s _ _ '(r, c), (np_zeros r c, s))
      [[1; 2; 3; 4]; [5; 6; 7; 8]]%R [[0; 1; 2; 9]%Z] [[1; 2]; [3; 4]]%R [[3; 4]%Z]
      [2; 3; 10] 3 0.01 0.01 2 = Ok (costs, parameters, vcosts) ∧
    length costs = 3 ∧ length vcosts = 3 ∧
    Forall is_Some costs ∧ Forall is_Some vcosts ∧
    wf_parameters [2; 3; 10] parameters.
Proof.
  apply (multi_layer_network_trained () (λ _, ()) (λ s _ _ '(r, c), (np_zeros r c, s))
           (λ s _ _ r c, np_zeros_has_shape r c) [2; 3; 10]) with (n := 4) (mv := 2).
  - repeat constructor.
  - unfold num_layers. simpl. lia.
  - reflexivity.
  - exists [0; 1; 2; 9]%Z. split; [reflexivity|]. split; [split; [reflexivity|repeat constructor]|].
    split; [reflexivity|]. split; [lia|]. unfold num_classes. repeat constructor; simpl; lia.
  - exists [3; 4]%Z. split; [reflexivity|]. split; [split; [reflexivity|repeat constructor]|].
    split; [reflexivity|]. split; [lia|]. unfold num_classes. repeat constructor; simpl; lia.
  - lia.
  - reflexivity.
  - intros ii _. pose proof (pos_INR ii). lra.
Defined.

(** ** Classification *)

Section classification.
Local Open Scope R_scope.

Lemma argmax_from_spec (l pre : list R) (best_i : nat) (best : R) :
  pre !! best_i = Some best →
  (∀ k v, pre !! k = Some v → v <= best) →
  (∀ k v, (k < best_i)%nat → pre !! k = Some v → v < best) →
  ∃ vp, (pre ++ l) !! argmax_from best_i best (length pre) l = Some vp ∧
    (∀ k v, (pre ++ l) !! k = Some v → v <= vp) ∧
    (∀ k v, (k < argmax_from best_i best (length pre) l)%nat →
       (pre ++ l) !! k = Some v → v < vp).
Proof.
  revert pre best_i best. induction l as [|x l IH]; intros pre best_i best Hbest Hmax Hfirst.
  - rewrite app_nil_r. cbn [argmax_from]. by exists best.
  - cbn [argmax_from].
    replace (pre ++ x :: l) with ((pre ++ [x]) ++ l) by (by rewrite <- app_assoc).
    replace (S (length pre)) with (length (pre ++ [x]))
      by (rewrite length_app; simpl; lia).
    assert (Hsnoc : ∀ k v, (pre ++ [x]) !! k = Some v →
              pre !! k = Some v ∨ (k = length pre ∧ v = x)).
    { intros k v Hk. apply lookup_app_Some in Hk as [Hk|[Hge Hk]]; [by left|].
      apply list_lookup_singleton_Some in Hk as [Hk <-]. right. split; [lia|done]. }
    destruct (Rlt_dec best x) as [Hlt|Hge].
    + apply IH.
      * rewrite lookup_app_r by lia. by rewrite Nat.sub_diag.
      * intros k v Hk. destruct (Hsnoc k v Hk) as [Hk'|[_ ->]]; [|lra].
        pose proof (Hmax k v Hk'). lra.
      * intros k v Hlen Hk. destruct (Hsnoc k v Hk) as [Hk'|[-> _]]; [|lia].
        pose proof (Hmax k v Hk'). lra.
    + apply IH.
      * by rewrite lookup_app_l by (by eapply lookup_lt_Some).
      * intros k v Hk. destruct (Hsnoc k v Hk) as [Hk'|[_ ->]]; [by eapply Hmax|lra].
      * intros k v Hlt Hk. destruct (Hsnoc k v Hk) as [Hk'|[-> _]]; [by eapply Hfirst|].
        apply lookup_lt_Some in Hbest. lia.
Qed.

(** The first index of a maximum of a non-empty list. *)
Lemma argmax_list_spec (l : list R) :
  l ≠ [] →
  ∃ vp, l !! argmax_list l = Some vp ∧
    (∀ k v, l !! k = Some v → v <= vp) ∧
    (∀ k v, (k < argmax_list l)%nat → l !! k = Some v → v < vp).
Proof.
  destruct l as [|x l]; [done|]. intros _. cbn [argmax_list].
  apply (argmax_from_spec l [x] 0 x); [done|..].
  - intros [|k] v Hk; simpl in Hk; [injection Hk as <-; lra|done].
  - intros k v Hk. lia.
Qed.

Lemma np_argmax_axis0_spec (M : ndarray) (n m : nat) :
  has_shape n m M → (0 < n)%nat →
  ∃ preds, np_argmax_axis0 M = Ok preds ∧ length preds = m ∧
    ∀ j p, preds !! j = Some p →
      (p < n)%nat ∧
      (∀ i, (i < n)%nat → entry M i j <= entry M p j) ∧
      (∀ i, (i < p)%nat → entry M i j < entry M p j).
Proof.
  intros HM Hn. unfold np_argmax_axis0.
  rewrite (has_shape_shape0 _ _ _ HM), (has_shape_shape1 _ _ _ HM) by done.
  rewrite decide_False by lia. eexists. split; [done|].
  rewrite length_fmap, length_seq. split; [done|].
  intros j p Hp. rewrite list_lookup_fmap in Hp.
  destruct (seq 0 m !! j) as [j'|] eqn:Hseq; [|done].
  apply lookup_seq in Hseq as [-> Hj]. cbn in Hp. injection Hp as <-.
  change ((λ row : list R, nth j row 0) <$> M) with (column M j).
  destruct (argmax_list_spec (column M j)) as (vp & Hvp & Hmax & Hfirst).
  { by eapply column_nonempty. }
  set (p := argmax_list (column M j)) in *.
  assert (Hpn : (p < n)%nat).
  { apply lookup_lt_Some in Hvp. rewrite column_length in Hvp. destruct HM. lia. }
  rewrite (column_lookup M n m p j HM Hpn Hj) in Hvp. injection Hvp as <-.
  split; [done|]. split.
  - intros i Hi. apply (Hmax i). by apply (column_lookup M n m).
  - intros i Hi. apply (Hfirst i); [done|]. apply (column_lookup M n m); [done|lia|done].
Qed.

(** X25. On a well-shaped network [classify] returns one prediction per
    sample, as one row, each a class index below the number of outputs of
    the network.  Where the outputs of the forward pass are nowhere further
    than 600 apart (the activations of the head are then finite, within the
    range of float64 too), the class predicted for a sample is the first
    whose activation is the largest of the sample's column. *)
Theorem classify_spec (dims : list nat) (P : dict) (X : ndarray) (m : nat) :
  Forall (λ d, (0 < d)%nat) dims → wf_parameters dims P → (1 ≤ num_layers dims)%nat →
  has_shape (dim dims 0) m X → (0 < m)%nat →
  ∃ Z caches A preds,
    multi_layer_forward X P = Ok (Z, caches) ∧
    softmax_cross_entropy_loss Z 10 [] = Ok (A, {| cache_A := A |}, None) ∧
    classify X P = Ok [preds] ∧ length preds = m ∧
    (∀ j p, preds !! j = Some p → (p < dim dims (num_layers dims))%nat) ∧
    (spread_le 600 Z →
     softmax_f64 Z = Ok (to_f64 A) ∧
     ∀ j p, preds !! j = Some p →
       (∀ i, (i < dim dims (num_layers dims))%nat → entry A i j <= entry A p j) ∧
       (∀ i, (i < p)%nat → entry A i j < entry A p j)).
Proof.
  intros Hpos HP HL HX Hm.
  destruct (multi_layer_forward_ok dims Hpos P X m HP HL HX) as (Z & caches & Hfwd & HZ & _).
  set (n := dim dims (num_layers dims)) in *.
  assert (Hn : (0 < n)%nat) by (apply (dim_pos dims Hpos); lia).
  destruct (softmax_head Z n m HZ Hn Hm) as (mx & A & Hmx & HA & HAs & HAe).
  destruct (np_argmax_axis0_spec A n m HAs Hn) as (preds & Hpreds & Hlen & Hspec).
  assert (Hhead : softmax_cross_entropy_loss Z 10 [] = Ok (A, {| cache_A := A |}, None)).
  { unfold softmax_cross_entropy_loss. rewrite Hmx. cbn [mbind result_bind].
    rewrite HA. cbn [mbind result_bind]. by rewrite decide_True. }
  exists Z, caches, A, preds. split; [done|]. split; [done|].
  split; [|split; [done|split]].
  - unfold classify. rewrite Hfwd. cbn [mbind result_bind]. cbn zeta.
    rewrite Hhead. cbn [mbind result_bind]. rewrite Hpreds. done.
  - intros j p Hp. by destruct (Hspec j p Hp).
  - intros Hspread. split; [by apply (softmax_f64_exact Z n m mx A)|].
    intros j p Hp. by destruct (Hspec j p Hp) as (_ & Hmax & Hfirst).
Qed.

Lemma classify_spec_witness :
  ∃ Z caches A preds,
    multi_layer_forward [[1]; [1]] zero_parameters = Ok (Z, caches) ∧
    softmax_cross_entropy_loss Z 10 [] = Ok (A, {| cache_A := A |}, None) ∧
    classify [[1]; [1]] zero_parameters = Ok [preds] ∧ length preds = 1%nat ∧
    (∀ j p, preds !! j = Some p → (p < dim [2; 10]%nat (num_layers [2; 10]%nat))%nat) ∧
    (spread_le 600 Z →
     softmax_f64 Z = Ok (to_f64 A) ∧
     ∀ j p, preds !! j = Some p →
       (∀ i, (i < dim [2; 10]%nat (num_layers [2; 10]%nat))%nat →
          entry A i j <= entry A p j) ∧
       (∀ i, (i < p)%nat → entry A i j < entry A p j)).
Proof.
  apply (classify_spec [2; 10]%nat zero_parameters [[1]; [1]] 1%nat).
  - repeat constructor.
  - exact zero_parameters_wf.
  - unfold num_layers. simpl. lia.
  - split; [reflexivity|]. repeat constructor.
  - lia.
Defined.

(** X26. Labels and predictions are laid out alike: the transposed one-hot
    array of a non-empty label vector with values in
    [[-num_classes, num_classes)] has its column maxima, as [np.argmax]
    finds them, at the classes the labels name. *)
Theorem one_hot_argmax_round_trip (ys : list Z) (n : nat) :
  ys ≠ [] → Forall (λ v, (- Z.of_nat n ≤ v < Z.of_nat n)%Z) ys →
  ∃ M, one_hot [ys] n = Ok M ∧
    np_argmax_axis0 (np_T M) = Ok ((λ v, wrapped v n) <$> ys).
Proof.
  intros Hne Hys.
  destruct (one_hot_ok [ys] n) as (M & HM & HMs & HMe).
  { simpl. by rewrite app_nil_r. }
  { simpl. by rewrite app_nil_r. }
  simpl in HMs, HMe. rewrite app_nil_r in HMs, HMe.
  assert (Hk : (0 < length ys)%nat) by (destruct ys; [done|simpl; lia]).
  assert (Hn : (0 < n)%nat).
  { destruct ys as [|v ys]; [done|]. inversion Hys; subst. lia. }
  pose proof (np_T_has_shape M _ _ HMs Hk) as HT.
  destruct (np_argmax_axis0_spec (np_T M) n (length ys) HT Hn)
    as (preds & Hpreds & Hlen & Hspec).
  exists M. split; [done|]. rewrite Hpreds. f_equal.
  apply list_eq. intros j. rewrite list_lookup_fmap.
  destruct (ys !! j) as [v|] eqn:Hv; simpl.
  - pose proof (lookup_lt_Some _ _ _ Hv) as Hj.
    destruct (lookup_lt_is_Some_2 preds j) as [p Hp]; [lia|].
    rewrite Hp. f_equal.
    destruct (Hspec j p Hp) as (Hpn & Hmax & _).
    pose proof (Forall_lookup_1 _ _ _ _ Hys Hv) as Hvr. simpl in Hvr.
    assert (Hw : (wrapped v n < n)%nat) by (unfold wrapped; case_decide; lia).
    specialize (Hmax (wrapped v n) Hw).
    rewrite (entry_np_T M _ n j _ HMs Hj Hw), (entry_np_T M _ n j _ HMs Hj Hpn) in Hmax.
    rewrite (HMe j v _ Hv Hw), (HMe j v _ Hv Hpn) in Hmax.
    rewrite decide_True in Hmax by done.
    destruct (decide (p = wrapped v n)) as [->|Hne']; [done|lra].
  - apply lookup_ge_None_2. apply lookup_ge_None_1 in Hv. lia.
Qed.

Lemma one_hot_argmax_round_trip_witness :
  ∃ M, one_hot [[0; 2; 1]%Z] 3%nat = Ok M ∧
    np_argmax_axis0 (np_T M) = Ok ((λ v, wrapped v 3%nat) <$> [0; 2; 1]%Z).
Proof.
  apply (one_hot_argmax_round_trip [0; 2; 1]%Z 3%nat).
  - discriminate.
  - repeat constructor; lia.
Defined.
End classification.
